(** * Bytewords codec of go-bc-ur ([bytewords.go]): shallow embedding and properties

    Go strings are immutable byte sequences, so a Go [string] is embedded as a
    Rocq [string] (a list of 8-bit [ascii] characters) and a Go [byte] as an
    [ascii].  Go's [int], [int16], [rune] and [uint32] values are embedded as
    [Z]; the places where the width matters write the wrap-around out.

    A Go call can end in four ways, and the embedding keeps them apart:
    a normal return, a returned [error] value, a run-time panic, and
    [log.Fatal] (the message is logged and the process exits with status 1).

    The file has three parts: the program, function by function; auxiliary
    definitions that the statements and proofs use; and the properties. *)

From Stdlib Require Import ZArith List String Ascii Bool Lia Arith.
Import ListNotations.

Local Open Scope string_scope.
Local Open Scope list_scope.
Local Open Scope Z_scope.

(** * The program *)

(** ** Outcomes of a Go call *)

(** [errors.New(msg)]. *)
Inductive error : Type :=
| errors_New (msg : string).

Definition Error (e : error) : string :=
  match e with errors_New msg => msg end.

(** The values a panic carries in this program: the run-time errors of an
    index or slice expression, of a failed type assertion [x.(T)], and the
    argument of an explicit [panic(err)]. *)
Inductive panicValue : Type :=
| IndexOutOfRange (index len : Z)
| SliceBoundsOutOfRange (high len : Z)
| InterfaceConversion (wanted : string)
| PanicError (e : error).

Inductive outcome (A : Type) : Type :=
| Ok (a : A)              (* normal return (with a nil error, where there is one) *)
| Err (e : error)         (* a non-nil error returned to the caller *)
| Panic (p : panicValue)  (* run-time panic, unwinding the callers *)
| Fatal (msg : string).   (* log.Fatal: msg is logged, then os.Exit(1) *)

Arguments Ok {A} a.
Arguments Err {A} e.
Arguments Panic {A} p.
Arguments Fatal {A} msg.

Definition bind {A B : Type} (m : outcome A) (k : A -> outcome B) : outcome B :=
  match m with
  | Ok a => k a
  | Err e => Err e
  | Panic p => Panic p
  | Fatal msg => Fatal msg
  end.

Notation "x <- m ;; k" := (bind m (fun x => k))
  (at level 61, m at next level, right associativity).

(** ** Bytes, runes, strings, arrays *)

Definition byte : Type := ascii.

(** [int(b)], [rune(b)], [uint32(b)] of a byte. *)
Definition byteZ (b : byte) : Z := Z.of_N (N_of_ascii b).

(** [byte(v)] of an integer: the low eight bits. *)
Definition byteOfZ (v : Z) : byte := ascii_of_N (Z.to_N (v mod 256)).

(** [len(s)] of a string and of a slice. *)
Definition len (s : string) : Z := Z.of_nat (String.length s).
Definition lenS {A : Type} (l : list A) : Z := Z.of_nat (List.length l).

(** [s[i]] on a string: panics outside [0 <= i < len(s)]. *)
Definition strIndex (s : string) (i : Z) : outcome byte :=
  if (i <? 0) || (len s <=? i) then Panic (IndexOutOfRange i (len s))
  else match String.get (Z.to_nat i) s with
       | Some c => Ok c
       | None => Panic (IndexOutOfRange i (len s))
       end.

(** [a[i]] on an array or slice: panics outside [0 <= i < len(a)]. *)
Definition arrIndex {A : Type} (a : list A) (i : Z) : outcome A :=
  if (i <? 0) || (lenS a <=? i) then Panic (IndexOutOfRange i (lenS a))
  else match nth_error a (Z.to_nat i) with
       | Some x => Ok x
       | None => Panic (IndexOutOfRange i (lenS a))
       end.

(** [a[i] = v]: panics outside [0 <= i < len(a)]. *)
Fixpoint setNth {A : Type} (a : list A) (i : nat) (v : A) : list A :=
  match a, i with
  | [], _ => []
  | _ :: a', O => v :: a'
  | x :: a', S i' => x :: setNth a' i' v
  end.

Definition arrStore {A : Type} (a : list A) (i : Z) (v : A) : outcome (list A) :=
  if (i <? 0) || (lenS a <=? i) then Panic (IndexOutOfRange i (lenS a))
  else Ok (setNth a (Z.to_nat i) v).

(** [s[lo:hi]] on a string: panics unless [0 <= lo <= hi <= len(s)]. *)
Definition strSlice (s : string) (lo hi : Z) : outcome string :=
  if (hi <? 0) || (len s <? hi) then Panic (SliceBoundsOutOfRange hi (len s))
  else if (lo <? 0) || (hi <? lo) then Panic (SliceBoundsOutOfRange lo hi)
  else Ok (String.substring (Z.to_nat lo) (Z.to_nat (hi - lo)) s).

(** [unicode.ToLower] on the runes a byte can hold (U+0000..U+00FF): the
    ASCII capitals and the Latin-1 capitals U+00C0..U+00D6 and U+00D8..U+00DE
    move up by 32, every other rune of that range is its own lower case. *)
Definition ToLower (r : Z) : Z :=
  if (65 <=? r) && (r <=? 90) then r + 32
  else if (192 <=? r) && (r <=? 214) then r + 32
  else if (216 <=? r) && (r <=? 222) then r + 32
  else r.

(** ** The word table ([bytewords], [words], [lookupTable], [init]) *)

Definition bytewords : string :=
  "ableacidalsoapexaquaarchatomauntawayaxisbackbaldbarnbeltbetabiasbluebodybragbrewbulbbuzzcalmcashcatschefcityclawcodecolacookcostcruxcurlcuspcyandarkdatadaysdelidicedietdoordowndrawdropdrumdulldutyeacheasyechoedgeepicevenexamexiteyesfactfairfernfigsfilmfishfizzflapflewfluxfoxyfreefrogfuelfundgalagamegeargemsgiftgirlglowgoodgraygrimgurugushgyrohalfhanghardhawkheathelphighhillholyhopehornhutsicedideaidleinchinkyintoirisironitemjadejazzjoinjoltjowljudojugsjumpjunkjurykeepkenokeptkeyskickkilnkingkitekiwiknoblamblavalazyleaflegsliarlimplionlistlogoloudloveluaulucklungmainmanymathmazememomenumeowmildmintmissmonknailnavyneednewsnextnoonnotenumbobeyoboeomitonyxopenovalowlspaidpartpeckplaypluspoempoolposepuffpumapurrquadquizraceramprealredorichroadrockroofrubyruinrunsrustsafesagascarsetssilkskewslotsoapsolosongstubsurfswantacotasktaxitenttiedtimetinytoiltombtoystriptunatwinuglyundouniturgeuservastveryvetovialvibeviewvisavoidvowswallwandwarmwaspwavewaxywebswhatwhenwhizwolfworkyankyawnyellyogayurtzapszerozestzinczonezoom".

(** The two package-level arrays: [words [256]string] and
    [lookupTable [26 * 26]int16]. *)
Record tables : Type := mkTables {
  t_words : list string;
  t_lookupTable : list Z
}.

(** The zero values the arrays hold before [init] runs. *)
Definition zeroTables : tables :=
  mkTables (repeat "" 256%nat) (repeat 0 676%nat).

(** [for i := 0; i < 256; i++ { words[i] = bytewords[i*4 : i*4+4] }] *)
Fixpoint buildWords (idx : list Z) (ws : list string) : outcome (list string) :=
  match idx with
  | [] => Ok ws
  | i :: idx' =>
      w <- strSlice bytewords (i * 4) (i * 4 + 4) ;;
      ws' <- arrStore ws i w ;;
      buildWords idx' ws'
  end.

(** [for i := range lookupTable { lookupTable[i] = -1 }] *)
Definition clearLookup (lt : list Z) : list Z := map (fun _ => -1) lt.

(** [for i, w := range words { ...; lookupTable[offset] = int16(i) }]; [x] and
    [y] are bytes, so the subtraction wraps modulo 256.  The range loop reads
    the elements of [words] as they were when the loop started. *)
Fixpoint buildLookup (iws : list (Z * string)) (lt : list Z) : outcome (list Z) :=
  match iws with
  | [] => Ok lt
  | (i, w) :: iws' =>
      w0 <- strIndex w 0 ;;
      w3 <- strIndex w 3 ;;
      let x := (byteZ w0 - byteZ "a"%char) mod 256 in
      let y := (byteZ w3 - byteZ "a"%char) mod 256 in
      let offset := y * 26 + x in
      lt' <- arrStore lt offset i ;;
      buildLookup iws' lt'
  end.

(** The indices [0, 1, ..., n-1] of a counting loop. *)
Definition upto (n : nat) : list Z := map Z.of_nat (seq 0 n).

Definition init (t : tables) : outcome tables :=
  ws <- buildWords (upto 256) (t_words t) ;;
  let lt := clearLookup (t_lookupTable t) in
  lt' <- buildLookup (combine (upto (List.length ws)) ws) lt ;;
  Ok (mkTables ws lt').

(** The tables every other function reads: the state [init] leaves. *)
Definition initialized : tables :=
  Eval vm_compute in
    match init zeroTables with
    | Ok t => t
    | _ => zeroTables
    end.

Definition words : list string := t_words initialized.
Definition lookupTable : list Z := t_lookupTable initialized.

(** [words[b]] for a byte [b]: the array has 256 elements, so the index is
    always in range. *)
Definition wordOf (b : byte) : string := nth (Z.to_nat (byteZ b)) words "".

(** ** [decodeWord] *)

Definition invalidLength : error := errors_New "invalid bytewords length".
Definition invalidBytewords : error := errors_New "invalid bytewords".
Definition invalidMiddle : error := errors_New "invalid bytewords middle chars".
Definition tooShort : error := errors_New "too short".
Definition crcMismatch : error := errors_New "crc mismatch".

Definition byte_eqb (a b : byte) : bool := Ascii.eqb a b.

Definition decodeWord (word : string) (wordLen : Z) : outcome byte :=
  if negb (len word =? wordLen) then Err invalidLength
  else
    w0 <- strIndex word 0 ;;
    let x := ToLower (byteZ w0) - byteZ "a"%char in
    y <- (if wordLen =? 4
          then w3 <- strIndex word 3 ;; Ok (ToLower (byteZ w3) - byteZ "a"%char)
          else w1 <- strIndex word 1 ;; Ok (ToLower (byteZ w1) - byteZ "a"%char)) ;;
    if (x <? 0) || (x >=? 26) || (y <? 0) || (y >=? 26) then Err invalidBytewords
    else
      let offset := y * 26 + x in
      val <- arrIndex lookupTable offset ;;
      if val =? -1 then Err invalidBytewords
      else
        _ <- (if wordLen =? 4
              then
                expected <- arrIndex words val ;;
                w1 <- strIndex word 1 ;;
                e1 <- strIndex expected 1 ;;
                if negb (byte_eqb w1 e1) then Err invalidMiddle
                else
                  w2 <- strIndex word 2 ;;
                  e2 <- strIndex expected 2 ;;
                  if negb (byte_eqb w2 e2) then Err invalidMiddle
                  else Ok tt
              else Ok tt) ;;
        Ok (byteOfZ val).

(** ** CRC-32 ([hash/crc32], [encoding/binary]) *)

(** Go's [crc32.ChecksumIEEE] belongs to the standard library, not to this
    repository.  It is embedded after the library's portable implementation
    ([simplePopulateTable] and [simpleUpdate] with the reversed IEEE polynomial
    [0xedb88320]), which every accelerated variant agrees with. *)
Definition IEEE : Z := 0xedb88320.

(** One round of [if crc&1 == 1 { crc = (crc >> 1) ^ poly } else { crc >>= 1 }]. *)
Definition crcShift (poly crc : Z) : Z :=
  if Z.land crc 1 =? 1 then Z.lxor (Z.shiftr crc 1) poly else Z.shiftr crc 1.

Definition simpleTableEntry (poly : Z) (i : Z) : Z :=
  fold_left (fun crc _ => crcShift poly crc) (seq 0 8) i.

Definition simpleMakeTable (poly : Z) : list Z :=
  map (simpleTableEntry poly) (upto 256).

Definition IEEETable : list Z := Eval vm_compute in simpleMakeTable IEEE.

(** [crc = tab[byte(crc)^v] ^ (crc >> 8)] for every byte [v] of [p]. *)
Definition simpleUpdateStep (tab : list Z) (crc : Z) (v : byte) : Z :=
  Z.lxor (nth (Z.to_nat (Z.lxor (crc mod 256) (byteZ v))) tab 0) (Z.shiftr crc 8).

(** [^crc] on a [uint32]. *)
Definition complement32 (crc : Z) : Z := Z.lxor crc 0xFFFFFFFF.

Definition simpleUpdate (crc : Z) (tab : list Z) (p : list byte) : Z :=
  complement32 (fold_left (simpleUpdateStep tab) p (complement32 crc)).

Definition ChecksumIEEE (data : list byte) : Z := simpleUpdate 0 IEEETable data.

(** [binary.BigEndian.PutUint32(out, v)] on a fresh 4-byte slice. *)
Definition PutUint32 (v : Z) : list byte :=
  [byteOfZ (Z.shiftr v 24); byteOfZ (Z.shiftr v 16); byteOfZ (Z.shiftr v 8); byteOfZ v].

Definition crc32Bytes (data : list byte) : list byte :=
  let crc := ChecksumIEEE data in
  PutUint32 crc.

Definition appendCRC (data : list byte) : list byte :=
  data ++ crc32Bytes data.

(** ** Encoding *)

(** The loop of [encodeMinimal]: [sb.WriteByte(w[0]); sb.WriteByte(w[3])]. *)
Fixpoint encodeMinimalLoop (data : list byte) (sb : string) : outcome string :=
  match data with
  | [] => Ok sb
  | b :: data' =>
      let w := wordOf b in
      w0 <- strIndex w 0 ;;
      w3 <- strIndex w 3 ;;
      encodeMinimalLoop data' (sb ++ String w0 (String w3 ""))
  end.

Definition encodeMinimal (data : list byte) : outcome string :=
  let data := appendCRC data in
  encodeMinimalLoop data "".

(** [strings.Join(parts, sep)]. *)
Definition Join (parts : list string) (sep : string) : string :=
  String.concat sep parts.

Definition encodeStandard (data : list byte) : string :=
  let data := appendCRC data in
  let parts := map wordOf data in
  Join parts " ".

(** ** [strings.Split] *)

(** The number of bytes [utf8.DecodeRuneInString] consumes at the head of a
    non-empty string: the length of a well-formed UTF-8 sequence, 1 for a byte
    that starts none. *)
Definition inRange (lo hi : Z) (b : byte) : bool :=
  (lo <=? byteZ b) && (byteZ b <=? hi).

Definition runeSize (s : string) : nat :=
  match s with
  | EmptyString => 0%nat
  | String s0 t =>
      let c := byteZ s0 in
      let cont := inRange 0x80 0xBF in
      if c <? 0xC2 then 1%nat
      else if c <? 0xE0 then
        match t with
        | String s1 _ => if cont s1 then 2%nat else 1%nat
        | _ => 1%nat
        end
      else if c <? 0xF0 then
        let lo := if c =? 0xE0 then 0xA0 else 0x80 in
        let hi := if c =? 0xED then 0x9F else 0xBF in
        match t with
        | String s1 (String s2 _) => if inRange lo hi s1 && cont s2 then 3%nat else 1%nat
        | _ => 1%nat
        end
      else if c <? 0xF5 then
        let lo := if c =? 0xF0 then 0x90 else 0x80 in
        let hi := if c =? 0xF4 then 0x8F else 0xBF in
        match t with
        | String s1 (String s2 (String s3 _)) =>
            if inRange lo hi s1 && cont s2 && cont s3 then 4%nat else 1%nat
        | _ => 1%nat
        end
      else 1%nat
  end.

(** [explode(s, -1)]: one string per UTF-8 sequence, an invalid byte on its
    own.  [more] counts the bytes the sequence being copied still lacks. *)
Fixpoint explodeFrom (s : string) (more : nat) (cur : string) : list string :=
  match s with
  | EmptyString => match cur with EmptyString => [] | _ => [cur] end
  | String c s' =>
      match more with
      | S k => explodeFrom s' k (cur ++ String c "")
      | O =>
          match cur with
          | EmptyString => explodeFrom s' (runeSize s - 1)%nat (String c "")
          | _ => cur :: explodeFrom s' (runeSize s - 1)%nat (String c "")
          end
      end
  end.

(** The loop of [genSplit] for a non-empty separator: cut at the first
    occurrence of [sep], continue behind it.  [skip] counts the bytes of a
    found separator still to pass, [cur] is the piece being collected. *)
Fixpoint splitFrom (sep s : string) (skip : nat) (cur : string) : list string :=
  match s with
  | EmptyString => [cur]
  | String c s' =>
      match skip with
      | S k => splitFrom sep s' k cur
      | O =>
          if String.prefix sep s
          then cur :: splitFrom sep s' (String.length sep - 1)%nat ""
          else splitFrom sep s' 0 (cur ++ String c "")
      end
  end.

(** [strings.Split(s, sep)] (standard library). *)
Definition Split (s sep : string) : list string :=
  match sep with
  | EmptyString => explodeFrom s 0 ""
  | _ => splitFrom sep s 0 ""
  end.

(** ** [decode] *)

(** [for i := 0; i < len(s); i += 2 { tokens = append(tokens, s[i:i+2]) }].
    The loop runs at most [len(s)] times, which is the fuel [decode] gives. *)
Fixpoint chunkLoop (fuel : nat) (s : string) (i : Z) (tokens : list string)
  : outcome (list string) :=
  if i <? len s then
    match fuel with
    | O => Ok tokens
    | S fuel' =>
        t <- strSlice s i (i + 2) ;;
        chunkLoop fuel' s (i + 2) (tokens ++ [t])
    end
  else Ok tokens.

(** [for i, t := range tokens { b, err := decodeWord(t, wordLen); ...; buf[i] = b }] *)
Fixpoint decodeLoop (tokens : list string) (wordLen : Z) (i : Z) (buf : list byte)
  : outcome (list byte) :=
  match tokens with
  | [] => Ok buf
  | t :: tokens' =>
      b <- decodeWord t wordLen ;;
      buf' <- arrStore buf i b ;;
      decodeLoop tokens' wordLen (i + 1) buf'
  end.

Fixpoint equalLoop (a b : list byte) (i : Z) (n : nat) : outcome bool :=
  match n with
  | O => Ok true
  | S n' =>
      x <- arrIndex a i ;;
      y <- arrIndex b i ;;
      if negb (byte_eqb x y) then Ok false else equalLoop a b (i + 1) n'
  end.

(** [equal]: the loop [for i := range a] runs [len(a)] times. *)
Definition equal (a b : list byte) : outcome bool :=
  if negb (lenS a =? lenS b) then Ok false
  else equalLoop a b 0 (List.length a).

(** [buf[:n]] and [buf[n:]] for [0 <= n <= len(buf)] (the guard of [decode]
    establishes the bounds before it slices). *)
Definition sliceTo {A : Type} (buf : list A) (n : Z) : list A := firstn (Z.to_nat n) buf.
Definition sliceFrom {A : Type} (buf : list A) (n : Z) : list A := skipn (Z.to_nat n) buf.

(** The first half of [decode]: the token list (lines 174-182) ... *)
Definition tokenize (s : string) (wordLen : Z) (sep : string) : outcome (list string) :=
  if wordLen =? 4 then Ok (Split s sep)
  else chunkLoop (String.length s) s 0 [].

(** ... and the bytes of the tokens (lines 184-191). *)
Definition decodedBytes (s : string) (wordLen : Z) (sep : string) : outcome (list byte) :=
  tokens <- tokenize s wordLen sep ;;
  let buf := repeat Ascii.zero (List.length tokens) in
  decodeLoop tokens wordLen 0 buf.

Definition decode (s : string) (wordLen : Z) (sep : string) : outcome (list byte) :=
  buf <- decodedBytes s wordLen sep ;;
  if lenS buf <? 5 then Err tooShort
  else
    let body := sliceTo buf (lenS buf - 4) in
    let checksum := sliceFrom buf (lenS buf - 4) in
    ok <- equal checksum (crc32Bytes body) ;;
    if negb ok then Err crcMismatch
    else Ok body.

(** ** The records [WalletInfo], [Account], [Root] *)

Record WalletInfo : Type := mkWalletInfo {
  DerivationPath : string;
  ChainCode : string;
  Name : string;
  Internal1 : bool;
  Internal2 : bool;
  SomeBytes : string;
  XPub : string
}.

(** The field [Type] of the source is [Type_] here ([Type] is reserved). *)
Record Account : Type := mkAccount {
  ID : Z;
  Index : Z;
  Type_ : string;
  Block : Z;
  Wallet : WalletInfo
}.

Record Root : Type := mkRoot {
  Version : Z;
  Accounts : list Account
}.

(** ** [Decode]: the pipeline over its library collaborators *)

(** [log.Fatal(prefix, err)]: [fmt.Sprint] puts no space after a string operand. *)
Definition orFatal {A : Type} (prefix : string) (m : outcome A) : outcome A :=
  match m with
  | Err e => Fatal (prefix ++ Error e)
  | o => o
  end.

(** [if err != nil { panic(err) }]. *)
Definition orPanic {A : Type} (m : outcome A) : outcome A :=
  match m with
  | Err e => Panic (PanicError e)
  | o => o
  end.

(** [v, _ := f(...)]: the error is dropped and [v] is the zero value then. *)
Definition dropError {A : Type} (zero : A) (m : outcome A) : outcome A :=
  match m with
  | Err _ => Ok zero
  | o => o
  end.

Module Pipeline.

Section Collaborators.

(** The CBOR, gzip and JSON codecs are libraries outside the repository and
    enter as parameters, each with the result its Go signature allows.
    [float64] and the conversion [int(f)] are parameters as well. *)
Variable float64 : Type.
Variable intOfFloat64 : float64 -> Z.

(** What [encoding/json] stores in an [any]. *)
#[local] Unset Elimination Schemes.
Inductive any : Type :=
| ANil
| ABool (b : bool)
| AFloat64 (f : float64)
| AString (s : string)
| ASlice (l : list any)
| AMap (m : list (string * any)).
#[local] Set Elimination Schemes.

Variable cborValue : Type.
Variable gzipReader : Type.
Variable cborUnmarshalBytes : list byte -> outcome (list byte).
Variable gzipNewReader : list byte -> outcome gzipReader.
Variable ioReadAll : gzipReader -> outcome (list byte).
Variable cborUnmarshalAny : list byte -> outcome cborValue.
Variable jsonMarshalIndent : cborValue -> outcome (list byte).
Variable jsonUnmarshalSlice : list byte -> outcome (list any).

(** The type assertions [v.(float64)], [v.(string)], [v.(bool)], [v.([]any)]. *)
Definition assertFloat64 (v : any) : outcome float64 :=
  match v with AFloat64 f => Ok f | _ => Panic (InterfaceConversion "float64") end.
Definition assertString (v : any) : outcome string :=
  match v with AString s => Ok s | _ => Panic (InterfaceConversion "string") end.
Definition assertBool (v : any) : outcome bool :=
  match v with ABool b => Ok b | _ => Panic (InterfaceConversion "bool") end.
Definition assertSlice (v : any) : outcome (list any) :=
  match v with ASlice l => Ok l | _ => Panic (InterfaceConversion "[]interface {}") end.

(** [int(a[i].(float64))], [a[i].(string)], [a[i].(bool)], [a[i].([]any)]. *)
Definition intAt (a : list any) (i : Z) : outcome Z :=
  v <- arrIndex a i ;; f <- assertFloat64 v ;; Ok (intOfFloat64 f).
Definition stringAt (a : list any) (i : Z) : outcome string :=
  v <- arrIndex a i ;; assertString v.
Definition boolAt (a : list any) (i : Z) : outcome bool :=
  v <- arrIndex a i ;; assertBool v.
Definition sliceAt (a : list any) (i : Z) : outcome (list any) :=
  v <- arrIndex a i ;; assertSlice v.

(** The body of the loop over [accList], up to the [append]. *)
Definition mapAccount (a : any) : outcome Account :=
  arr <- assertSlice a ;;
  w <- sliceAt arr 4 ;;
  id <- intAt arr 0 ;;
  index <- intAt arr 1 ;;
  type <- stringAt arr 2 ;;
  block <- intAt arr 3 ;;
  derivationPath <- stringAt w 0 ;;
  chainCode <- stringAt w 1 ;;
  name <- stringAt w 2 ;;
  internal1 <- boolAt w 3 ;;
  internal2 <- boolAt w 4 ;;
  someBytes <- stringAt w 5 ;;
  xPub <- stringAt w 6 ;;
  Ok (mkAccount id index type block
        (mkWalletInfo derivationPath chainCode name internal1 internal2 someBytes xPub)).

(** [for _, a := range accList { ...; accounts = append(accounts, account) }] *)
Fixpoint mapAccounts (accList : list any) (accounts : list Account)
  : outcome (list Account) :=
  match accList with
  | [] => Ok accounts
  | a :: accList' =>
      account <- mapAccount a ;;
      mapAccounts accList' (accounts ++ [account])
  end.

(** Lines 78-106 of [Decode]: from [raw] to the [Root]. *)
Definition mapRecords (raw : list any) : outcome Root :=
  version <- intAt raw 0 ;;
  accList <- sliceAt raw 1 ;;
  accounts <- mapAccounts accList [] ;;
  Ok (mkRoot version accounts).

(** Lines 42-76 of [Decode]: the stages before the record mapping. *)
Definition rawTree (input : string) : outcome (list any) :=
  decoded <- orFatal "Bytewords decode failed:" (decode input 2 "") ;;
  outer <- orFatal "CBOR outer decode failed:" (cborUnmarshalBytes decoded) ;;
  gr <- orFatal "gzip reader failed:" (gzipNewReader outer) ;;
  unzipped <- orFatal "gzip read failed:" (ioReadAll gr) ;;
  inner <- orFatal "Inner CBOR decode failed:" (cborUnmarshalAny unzipped) ;;
  j <- dropError [] (jsonMarshalIndent inner) ;;
  orPanic (jsonUnmarshalSlice j).

(** [Decode]: every checked stage ends in [log.Fatal] on an error; the error
    of [json.MarshalIndent] is dropped, that of [json.Unmarshal] is passed to
    [panic].  ([gr.Close()] returns an error that is not looked at.) *)
Definition Decode (input : string) : outcome Root :=
  decoded <- orFatal "Bytewords decode failed:" (decode input 2 "") ;;
  outer <- orFatal "CBOR outer decode failed:" (cborUnmarshalBytes decoded) ;;
  gr <- orFatal "gzip reader failed:" (gzipNewReader outer) ;;
  unzipped <- orFatal "gzip read failed:" (ioReadAll gr) ;;
  inner <- orFatal "Inner CBOR decode failed:" (cborUnmarshalAny unzipped) ;;
  j <- dropError [] (jsonMarshalIndent inner) ;;
  raw <- orPanic (jsonUnmarshalSlice j) ;;
  mapRecords raw.

End Collaborators.

Arguments ANil {float64}.
Arguments ABool {float64} b.
Arguments AFloat64 {float64} f.
Arguments AString {float64} s.
Arguments ASlice {float64} l.
Arguments AMap {float64} m.

End Pipeline.

(** * Auxiliary definitions

    Functions and predicates the properties below are stated and proved
    with; none of them is part of the program. *)

(** The bytes of a string literal, to write test data. *)
Definition bytesOf (s : string) : list byte := list_ascii_of_string s.

(** The number a byte sequence stands for when read big-endian (most
    significant byte first). *)
Definition bigEndian (b : list byte) : Z :=
  fold_left (fun acc x => acc * 256 + byteZ x) b 0.

(** Equality of byte slices, what [equal] computes. *)
Fixpoint bytes_eqb (a b : list byte) : bool :=
  match a, b with
  | [], [] => true
  | x :: a', y :: b' => byte_eqb x y && bytes_eqb a' b'
  | _, _ => false
  end.

(** A lower-case ASCII letter. *)
Definition isLower (c : byte) : bool := (97 <=? byteZ c) && (byteZ c <=? 122).

(** Everything the later proofs need to know about the word of one byte,
    as a check that is run for each of the 256 bytes. *)
Definition wordCheck (b : byte) : bool :=
  match wordOf b with
  | String c0 (String c1 (String c2 (String c3 EmptyString))) =>
      isLower c0 && isLower c1 && isLower c2 && isLower c3
      && match arrIndex words (byteZ b) with
         | Ok w => String.eqb w (wordOf b)
         | _ => false
         end
      && match arrIndex lookupTable ((byteZ c3 - 97) * 26 + (byteZ c0 - 97)) with
         | Ok v => v =? byteZ b
         | _ => false
         end
  | _ => false
  end.

(** The chunks of the rest of the input from offset [i] on, [n] being the
    length of the whole input: what the loop of [decode] computes. *)
Fixpoint chunksOf (rest : string) (i n : Z) : outcome (list string) :=
  match rest with
  | EmptyString => Ok []
  | String c EmptyString => Panic (SliceBoundsOutOfRange (i + 2) n)
  | String c (String d rest') =>
      ts <- chunksOf rest' (i + 2) n ;; Ok (String c (String d "") :: ts)
  end.

(** The bytes of a token list, or the failure of the first token that has one. *)
Fixpoint decodeAll (tokens : list string) (wordLen : Z) : outcome (list byte) :=
  match tokens with
  | [] => Ok []
  | t :: tokens' =>
      b <- decodeWord t wordLen ;;
      bs <- decodeAll tokens' wordLen ;;
      Ok (b :: bs)
  end.

(** The last stage of [decode] (lines 192-200), with [equal] read as
    equality of byte slices. *)
Definition verify (buf : list byte) : outcome (list byte) :=
  if lenS buf <? 5 then Err tooShort
  else
    let body := sliceTo buf (lenS buf - 4) in
    let checksum := sliceFrom buf (lenS buf - 4) in
    if bytes_eqb checksum (crc32Bytes body) then Ok body else Err crcMismatch.

(** The minimal token of a byte: the first and last letter of its word. *)
Definition firstLast (b : byte) : string :=
  match wordOf b with
  | String c0 (String _ (String _ (String c3 _))) => String c0 (String c3 "")
  | _ => ""
  end.

(** The minimal tokens of a byte sequence, one after the other. *)
Fixpoint minimalOf (data : list byte) : string :=
  match data with
  | [] => ""
  | b :: data' => (firstLast b ++ minimalOf data')%string
  end.

(** A string without the space that [encodeStandard] joins with. *)
Fixpoint noSpace (s : string) : bool :=
  match s with
  | EmptyString => true
  | String c s' => negb (byte_eqb c " "%char) && noSpace s'
  end.

(** The range of a [uint32]. *)
Definition uint32 (v : Z) : Prop := 0 <= v < 2 ^ 32.

(** CRC-32 with the IEEE polynomial, bit by bit, in the reflected form: the
    32-bit register starts at all ones; each input byte is xored into the low
    byte and the register shifted right eight times, the reversed polynomial
    [0xedb88320] being xored in whenever a one falls out; the result is the
    complement of the register. *)
Definition crc32Bitwise (data : list byte) : Z :=
  complement32
    (fold_left (fun crc v => Nat.iter 8 (crcShift IEEE) (Z.lxor crc (byteZ v)))
               data 0xFFFFFFFF).

(** The string [s] with the byte at offset [i] replaced by [c]. *)
Fixpoint setChar (s : string) (i : nat) (c : byte) : string :=
  match s, i with
  | EmptyString, _ => EmptyString
  | String _ s', O => String c s'
  | String x s', S i' => String x (setChar s' i' c)
  end.

(** Lower case of the ASCII capitals, byte by byte. *)
Definition lowerByte (c : byte) : byte :=
  if (65 <=? byteZ c) && (byteZ c <=? 90) then byteOfZ (byteZ c + 32) else c.

(** [s] with all ASCII letters lower-cased. *)
Fixpoint toLower (s : string) : string :=
  match s with
  | EmptyString => EmptyString
  | String c s' => String (lowerByte c) (toLower s')
  end.

(** A standard token with its first and last letter in lower case. *)
Definition lowerEnds (t : string) : string :=
  match t with
  | String a (String m1 (String m2 (String d EmptyString))) =>
      String (lowerByte a) (String m1 (String m2 (String (lowerByte d) "")))
  | _ => t
  end.

(** Inside [a-z] after normalization. *)
Definition letter (c : byte) : bool :=
  (97 <=? ToLower (byteZ c)) && (ToLower (byteZ c) <=? 122).

(** The table lookup of [decodeWord] (lines 121-128) for the first byte [a]
    and the last byte [d] of a token. *)
Definition lookupChars (a d : byte) : outcome Z :=
  let x := ToLower (byteZ a) - byteZ "a"%char in
  let y := ToLower (byteZ d) - byteZ "a"%char in
  if (x <? 0) || (x >=? 26) || (y <? 0) || (y >=? 26) then Err invalidBytewords
  else
    val <- arrIndex lookupTable (y * 26 + x) ;;
    if val =? -1 then Err invalidBytewords else Ok val.

(** The comparison of the middle letters (lines 129-134). *)
Definition middleCheck (m1 m2 : byte) (val : Z) : outcome unit :=
  expected <- arrIndex words val ;;
  e1 <- strIndex expected 1 ;;
  if negb (byte_eqb m1 e1) then Err invalidMiddle
  else
    e2 <- strIndex expected 2 ;;
    if negb (byte_eqb m2 e2) then Err invalidMiddle else Ok tt.

(** The slot of [lookupTable] that belongs to a first and a last byte. *)
Definition lookupOffset (a d : byte) : Z :=
  (ToLower (byteZ d) - byteZ "a"%char) * 26 + (ToLower (byteZ a) - byteZ "a"%char).

(** A caller gets an outcome back unless the call ended in [log.Fatal],
    which exits the process: a return value, a returned error and a panic
    (which unwinds into the caller) all reach it. *)
Definition reachesCaller {A : Type} (o : outcome A) : bool :=
  match o with
  | Fatal _ => false
  | _ => true
  end.

(** Outcomes of code that has no error result and does not call [log.Fatal]. *)
Definition okOrPanic {A : Type} (o : outcome A) : Prop :=
  match o with
  | Ok _ | Panic _ => True
  | _ => False
  end.

(** Outcomes that are no returned error value. *)
Definition notErr {A : Type} (o : outcome A) : Prop := forall e, o <> Err e.

(** The value tree of the schema-violation test: version 1 and one account
    entry that lacks its fifth element, the wallet. *)
Definition shortEntry : list (Pipeline.any Z) :=
  [Pipeline.AFloat64 1; Pipeline.AFloat64 0; Pipeline.AString "abc"; Pipeline.AFloat64 0].

Definition shortAccounts : list (Pipeline.any Z) := [Pipeline.ASlice shortEntry].

Definition shortTree : list (Pipeline.any Z) :=
  [Pipeline.AFloat64 1; Pipeline.ASlice shortAccounts].

(** Test collaborators for it: [float64] is [Z], every library stage
    succeeds, and the JSON stage yields [shortTree]. *)
Definition testRawTree : string -> outcome (list (Pipeline.any Z)) :=
  Pipeline.rawTree Z unit unit (fun b => Ok b) (fun _ => Ok tt) (fun _ => Ok [])
                   (fun _ => Ok tt) (fun _ => Ok []) (fun _ => Ok shortTree).

Definition testDecode : string -> outcome Root :=
  Pipeline.Decode Z (fun f => f) unit unit (fun b => Ok b) (fun _ => Ok tt)
                  (fun _ => Ok []) (fun _ => Ok tt) (fun _ => Ok [])
                  (fun _ => Ok shortTree).

(** A call that returns to its caller in the ordinary way, with a value or
    with an error: no panic, no exit. *)
Definition returns {A : Type} (o : outcome A) : Prop :=
  match o with
  | Ok _ | Err _ => True
  | _ => False
  end.

(** What one slot of [lookupTable] holds: -1, or the number of the word whose
    first and last letter select the slot; a check run for each of the 676
    slots. *)
Definition slotCheck (off : Z) : bool :=
  match arrIndex lookupTable off with
  | Ok v =>
      if v =? -1 then true
      else
        (0 <=? v) && (v <? 256)
        && match wordOf (byteOfZ v) with
           | String c0 (String _ (String _ (String c3 _))) =>
               (byteZ c0 - 97 =? off mod 26) && (byteZ c3 - 97 =? off / 26)
           | _ => false
           end
  | _ => false
  end.

(** Every byte of a string passes a test. *)
Fixpoint allChars (P : byte -> bool) (s : string) : bool :=
  match s with
  | EmptyString => true
  | String c s' => P c && allChars P s'
  end.

(** A letter of the encoders' alphabet, or the space between two words. *)
Definition lowerOrSpace (c : byte) : bool := isLower c || byte_eqb c " "%char.

(** The word that [init] cuts out of [bytewords] for index [i]. *)
Definition wordAt (i : nat) : string := String.substring (4 * i) 4 bytewords.

(** A value tree of the expected shape, with one complete account, and the
    [Root] it maps to. *)
Definition fullTree : list (Pipeline.any Z) :=
  [Pipeline.AFloat64 1;
   Pipeline.ASlice
     [Pipeline.ASlice
        [Pipeline.AFloat64 1; Pipeline.AFloat64 0; Pipeline.AString "abc";
         Pipeline.AFloat64 0;
         Pipeline.ASlice
           [Pipeline.AString "m/0"; Pipeline.AString "cc=="; Pipeline.AString "name";
            Pipeline.ABool true; Pipeline.ABool false; Pipeline.AString "bytes";
            Pipeline.AString "xpub"]]]].

Definition fullRoot : Root :=
  mkRoot 1 [mkAccount 1 0 "abc" 0
              (mkWalletInfo "m/0" "cc==" "name" true false "bytes" "xpub")].

(** An ASCII capital, and a byte that is no ASCII letter. *)
Definition isUpper (c : byte) : bool := (65 <=? byteZ c) && (byteZ c <=? 90).

Definition noLetter (c : byte) : bool := negb (isLower c || isUpper c).

(** A byte outside ASCII; the next [k] bytes of a string, as far as it has
    them, are such bytes. *)
Definition high (c : byte) : bool := 128 <=? byteZ c.

Fixpoint highPrefix (k : nat) (s : string) : bool :=
  match k, s with
  | S k', String c s' => high c && highPrefix k' s'
  | _, _ => true
  end.

(** A token as [explode] cuts it: a single byte, or bytes outside ASCII. *)
Definition runeToken (t : string) : bool :=
  (String.length t <=? 1)%nat || allChars high t.

(** A standard token that [decodeWord] can accept as far as its letters go:
    four bytes, letters at both ends, lower-case letters in between. *)
Definition wellCased (t : string) : Prop :=
  exists a m1 m2 d,
    t = String a (String m1 (String m2 (String d "")))
    /\ letter a = true /\ isLower m1 = true /\ isLower m2 = true /\ letter d = true.

(** * Properties *)

(** ** Test values *)

Example decodeWord_able : decodeWord "able" 4 = Ok (byteOfZ 0).
Proof. vm_compute. reflexivity. Qed.

Example decodeWord_zm : decodeWord "zm" 2 = Ok (byteOfZ 255).
Proof. vm_compute. reflexivity. Qed.

Example ChecksumIEEE_check : ChecksumIEEE (bytesOf "123456789") = 0xCBF43926.
Proof. vm_compute. reflexivity. Qed.

Example ChecksumIEEE_empty : ChecksumIEEE [] = 0.
Proof. vm_compute. reflexivity. Qed.

Example Split_spaces : Split "able  acid " " " = ["able"; ""; "acid"; ""].
Proof. reflexivity. Qed.

Example Split_empty_input : Split "" " " = [""].
Proof. reflexivity. Qed.

Example Split_long_sep : Split "xabab" "ab" = ["x"; ""; ""].
Proof. reflexivity. Qed.

Example Split_explode : Split "ab" "" = ["a"; "b"] /\ Split "" "" = [].
Proof. split; reflexivity. Qed.

Example encodeMinimal_0 : encodeMinimal [byteOfZ 0] = Ok "aetdaowslg".
Proof. vm_compute. reflexivity. Qed.

Example encodeStandard_0 : encodeStandard [byteOfZ 0] = "able tied also webs lung".
Proof. vm_compute. reflexivity. Qed.

Example decode_minimal_0 : decode "aetdaowslg" 2 "" = Ok [byteOfZ 0].
Proof. vm_compute. reflexivity. Qed.

Example decode_standard_0 : decode "able tied also webs lung" 4 " " = Ok [byteOfZ 0].
Proof. vm_compute. reflexivity. Qed.

Example decode_odd : decode "a" 2 "" = Panic (SliceBoundsOutOfRange 2 1).
Proof. vm_compute. reflexivity. Qed.

(** ** The outcome monad *)

Lemma bind_Ok {A B : Type} (a : A) (k : A -> outcome B) : bind (Ok a) k = k a.
Proof. reflexivity. Qed.

Lemma bind_Ok_inv {A B : Type} (m : outcome A) (k : A -> outcome B) (b : B) :
  bind m k = Ok b -> exists a, m = Ok a /\ k a = Ok b.
Proof.
  destruct m as [a | e | p | msg]; simpl; intros H; try discriminate.
  exists a. split; [reflexivity | exact H].
Qed.

Lemma bind_assoc {A B C : Type} (m : outcome A) (k : A -> outcome B) (h : B -> outcome C) :
  bind (bind m k) h = bind m (fun a => bind (k a) h).
Proof. destruct m; reflexivity. Qed.

Lemma bind_ret {A : Type} (m : outcome A) : bind m (fun a => Ok a) = m.
Proof. destruct m; reflexivity. Qed.

(** ** Arrays and slices *)

Lemma lenS_app {A : Type} (l1 l2 : list A) : lenS (l1 ++ l2) = lenS l1 + lenS l2.
Proof. unfold lenS. rewrite length_app. lia. Qed.

Lemma lenS_nonneg {A : Type} (l : list A) : 0 <= lenS l.
Proof. unfold lenS. lia. Qed.

Lemma lenS_cons {A : Type} (x : A) (l : list A) : lenS (x :: l) = 1 + lenS l.
Proof. unfold lenS. change (List.length (x :: l)) with (S (List.length l)). lia. Qed.

Lemma arrIndex_app {A : Type} (done rest : list A) (x : A) :
  arrIndex (done ++ x :: rest) (lenS done) = Ok x.
Proof.
  unfold arrIndex. rewrite lenS_app.
  rewrite lenS_cons. pose proof (lenS_nonneg done). pose proof (lenS_nonneg rest).
  replace ((lenS done <? 0) || (lenS done + (1 + lenS rest) <=? lenS done)) with false
    by (symmetry; apply orb_false_iff; split; [apply Z.ltb_ge | apply Z.leb_gt]; lia).
  unfold lenS. rewrite Nat2Z.id.
  rewrite nth_error_app2 by lia. rewrite Nat.sub_diag. reflexivity.
Qed.

Lemma setNth_app {A : Type} (done rest : list A) (x v : A) :
  setNth (done ++ x :: rest) (List.length done) v = done ++ v :: rest.
Proof. induction done as [| d done IH]; simpl; [reflexivity | now rewrite IH]. Qed.

Lemma arrStore_app {A : Type} (done rest : list A) (x v : A) :
  arrStore (done ++ x :: rest) (lenS done) v = Ok (done ++ v :: rest).
Proof.
  unfold arrStore. rewrite lenS_app.
  rewrite lenS_cons. pose proof (lenS_nonneg done). pose proof (lenS_nonneg rest).
  replace ((lenS done <? 0) || (lenS done + (1 + lenS rest) <=? lenS done)) with false
    by (symmetry; apply orb_false_iff; split; [apply Z.ltb_ge | apply Z.leb_gt]; lia).
  unfold lenS. rewrite Nat2Z.id. now rewrite setNth_app.
Qed.

(** ** [equal] is equality of byte slices *)

Lemma byte_eqb_refl (a : byte) : byte_eqb a a = true.
Proof. apply Ascii.eqb_refl. Qed.

Lemma byte_eqb_eq (a b : byte) : byte_eqb a b = true <-> a = b.
Proof. apply Ascii.eqb_eq. Qed.

Lemma byte_eqb_neq (a b : byte) : byte_eqb a b = false <-> a <> b.
Proof. apply Ascii.eqb_neq. Qed.

Lemma bytes_eqb_eq (a b : list byte) : bytes_eqb a b = true <-> a = b.
Proof.
  revert b. induction a as [| x a IH]; intros [| y b]; simpl; try (split; congruence).
  rewrite andb_true_iff, byte_eqb_eq, IH. split.
  - intros [-> ->]. reflexivity.
  - intros H. injection H as -> ->. split; reflexivity.
Qed.

Lemma equalLoop_spec (pa pb ra rb : list byte) :
  List.length pa = List.length pb ->
  List.length ra = List.length rb ->
  equalLoop (pa ++ ra) (pb ++ rb) (lenS pa) (List.length ra) = Ok (bytes_eqb ra rb).
Proof.
  revert pa pb rb. induction ra as [| x ra IH]; intros pa pb [| y rb] Hp Hr;
    simpl in Hr; try discriminate; simpl; [reflexivity |].
  rewrite arrIndex_app. simpl.
  replace (lenS pa) with (lenS pb) at 1 by (unfold lenS; now rewrite Hp).
  rewrite arrIndex_app. simpl.
  destruct (byte_eqb x y) eqn:E; simpl; [| reflexivity].
  apply byte_eqb_eq in E. subst y.
  replace (pa ++ x :: ra) with ((pa ++ [x]) ++ ra) by (now rewrite <- app_assoc).
  replace (pb ++ x :: rb) with ((pb ++ [x]) ++ rb) by (now rewrite <- app_assoc).
  replace (lenS pa + 1) with (lenS (pa ++ [x])) by (rewrite lenS_app; reflexivity).
  apply IH; [rewrite !length_app; simpl; lia | lia].
Qed.

Lemma bytes_eqb_length (a b : list byte) :
  bytes_eqb a b = true -> List.length a = List.length b.
Proof. intros H. apply bytes_eqb_eq in H. now subst. Qed.

Lemma equal_spec (a b : list byte) : equal a b = Ok (bytes_eqb a b).
Proof.
  unfold equal. destruct (lenS a =? lenS b) eqn:E; simpl.
  - apply Z.eqb_eq in E. unfold lenS in E. apply Nat2Z.inj in E.
    apply (equalLoop_spec [] [] a b); [reflexivity | exact E].
  - apply Z.eqb_neq in E. destruct (bytes_eqb a b) eqn:Eb; [| reflexivity].
    apply bytes_eqb_length in Eb. unfold lenS in E. lia.
Qed.

(** ** The word table *)

Lemma wordCheck_all (b : byte) : wordCheck b = true.
Proof. destruct b as [[] [] [] [] [] [] [] []]; vm_compute; reflexivity. Qed.

Lemma init_runs : init zeroTables = Ok initialized.
Proof. vm_compute. reflexivity. Qed.

Lemma byteZ_range (b : byte) : 0 <= byteZ b < 256.
Proof.
  unfold byteZ. pose proof (N_ascii_bounded b) as H.
  split; [apply N2Z.is_nonneg |]. change 256 with (Z.of_N 256). now apply N2Z.inj_lt.
Qed.

Lemma byteOfZ_byteZ (b : byte) : byteOfZ (byteZ b) = b.
Proof.
  unfold byteOfZ. rewrite Z.mod_small by apply byteZ_range.
  unfold byteZ. rewrite N2Z.id. apply ascii_N_embedding.
Qed.

Lemma byteZ_byteOfZ (v : Z) : byteZ (byteOfZ v) = v mod 256.
Proof.
  unfold byteOfZ, byteZ.
  assert (H : 0 <= v mod 256 < 256) by (apply Z.mod_pos_bound; lia).
  rewrite N_ascii_embedding.
  - rewrite Z2N.id; lia.
  - change 256%N with (Z.to_N 256). apply Z2N.inj_lt; lia.
Qed.

Lemma byteZ_inj (a b : byte) : byteZ a = byteZ b -> a = b.
Proof. intros H. rewrite <- (byteOfZ_byteZ a), <- (byteOfZ_byteZ b). now rewrite H. Qed.

(** The shape of a word: four lower-case letters, stored at [words[b]], and
    found again by the lookup table under its first and last letter. *)
Lemma wordOf_shape (b : byte) :
  exists c0 c1 c2 c3,
    wordOf b = String c0 (String c1 (String c2 (String c3 "")))
    /\ isLower c0 = true /\ isLower c1 = true /\ isLower c2 = true /\ isLower c3 = true
    /\ arrIndex words (byteZ b) = Ok (wordOf b)
    /\ arrIndex lookupTable ((byteZ c3 - 97) * 26 + (byteZ c0 - 97)) = Ok (byteZ b).
Proof.
  pose proof (wordCheck_all b) as H. unfold wordCheck in H.
  destruct (wordOf b) as [| c0 [| c1 [| c2 [| c3 [| c4 w]]]]] eqn:Ew; try discriminate.
  destruct (arrIndex words (byteZ b)) as [w | | |] eqn:Ewords;
    [| rewrite !andb_false_r in H; simpl in H; discriminate ..].
  destruct (arrIndex lookupTable ((byteZ c3 - 97) * 26 + (byteZ c0 - 97)))
    as [v | | |] eqn:Elook; [| rewrite !andb_false_r in H; discriminate ..].
  apply andb_true_iff in H. destruct H as [H Hv].
  apply andb_true_iff in H. destruct H as [H Hw].
  apply andb_true_iff in H. destruct H as [H H3].
  apply andb_true_iff in H. destruct H as [H H2].
  apply andb_true_iff in H. destruct H as [H0 H1].
  apply String.eqb_eq in Hw. apply Z.eqb_eq in Hv. subst w v.
  exists c0, c1, c2, c3. repeat split; assumption.
Qed.

Lemma isLower_ToLower (c : byte) : isLower c = true -> ToLower (byteZ c) = byteZ c.
Proof.
  unfold isLower, ToLower. intros H. apply andb_true_iff in H. destruct H as [H1 H2].
  apply Z.leb_le in H1, H2.
  repeat match goal with
  | |- context [if ?c then _ else _] => destruct c eqn:?
  end; try reflexivity;
  repeat match goal with
  | H : _ && _ = true |- _ => apply andb_true_iff in H; destruct H
  | H : (_ <=? _) = true |- _ => apply Z.leb_le in H
  end; lia.
Qed.

Lemma strIndex_0 (c : byte) (s : string) : strIndex (String c s) 0 = Ok c.
Proof. reflexivity. Qed.

Lemma strIndex_1 (c0 c1 : byte) (s : string) :
  strIndex (String c0 (String c1 s)) 1 = Ok c1.
Proof.
  unfold strIndex, len. cbn [String.length].
  destruct ((1 <? 0) || (Z.of_nat (S (S (String.length s))) <=? 1)) eqn:E.
  - apply orb_true_iff in E. destruct E as [E | E]; [discriminate | apply Z.leb_le in E; lia].
  - reflexivity.
Qed.

Lemma strIndex_2 (c0 c1 c2 : byte) (s : string) :
  strIndex (String c0 (String c1 (String c2 s))) 2 = Ok c2.
Proof.
  unfold strIndex, len. cbn [String.length].
  destruct ((2 <? 0) || (Z.of_nat (S (S (S (String.length s)))) <=? 2)) eqn:E.
  - apply orb_true_iff in E. destruct E as [E | E]; [discriminate | apply Z.leb_le in E; lia].
  - reflexivity.
Qed.

Lemma strIndex_3 (c0 c1 c2 c3 : byte) (s : string) :
  strIndex (String c0 (String c1 (String c2 (String c3 s)))) 3 = Ok c3.
Proof.
  unfold strIndex, len. cbn [String.length].
  destruct ((3 <? 0) || (Z.of_nat (S (S (S (S (String.length s))))) <=? 3)) eqn:E.
  - apply orb_true_iff in E. destruct E as [E | E]; [discriminate | apply Z.leb_le in E; lia].
  - reflexivity.
Qed.

(** ** [decodeWord] on the letters of a table word *)

Lemma isLower_bounds (c : byte) : isLower c = true -> 97 <= byteZ c <= 122.
Proof.
  unfold isLower. intros H. apply andb_true_iff in H. destruct H as [H1 H2].
  apply Z.leb_le in H1, H2. lia.
Qed.

Lemma range_check_lower (c0 c3 : byte) :
  isLower c0 = true -> isLower c3 = true ->
  let x := ToLower (byteZ c0) - byteZ "a"%char in
  let y := ToLower (byteZ c3) - byteZ "a"%char in
  (x <? 0) || (x >=? 26) || (y <? 0) || (y >=? 26) = false.
Proof.
  intros H0 H3. rewrite (isLower_ToLower _ H0), (isLower_ToLower _ H3).
  apply isLower_bounds in H0, H3. change (byteZ "a"%char) with 97. cbv zeta.
  repeat (apply orb_false_iff; split);
    first [apply Z.ltb_ge; lia | rewrite Z.geb_leb; apply Z.leb_gt; lia].
Qed.

Lemma byteZ_ne_minus1 (b : byte) : (byteZ b =? -1) = false.
Proof. apply Z.eqb_neq. pose proof (byteZ_range b). lia. Qed.

(** A standard token that carries the first and last letter of the word of
    [b] decodes to [b] exactly when its two middle letters are the word's. *)
Lemma decodeWord_standard (b : byte) (c0 c1 c2 c3 m1 m2 : byte) :
  wordOf b = String c0 (String c1 (String c2 (String c3 ""))) ->
  decodeWord (String c0 (String m1 (String m2 (String c3 "")))) 4
  = if byte_eqb m1 c1 && byte_eqb m2 c2 then Ok b else Err invalidMiddle.
Proof.
  intros Ew. destruct (wordOf_shape b) as (d0 & d1 & d2 & d3 & Ew' & L0 & L1 & L2 & L3 & Hw & Hl).
  rewrite Ew in Ew'. injection Ew' as <- <- <- <-.
  unfold decodeWord.
  change (len (String c0 (String m1 (String m2 (String c3 ""))))) with 4.
  change (negb (4 =? 4)) with false. cbv iota.
  rewrite strIndex_0, bind_Ok. change (4 =? 4) with true. cbv iota.
  rewrite strIndex_3, !bind_Ok.
  pose proof (range_check_lower c0 c3 L0 L3) as Hr. cbv zeta in Hr. rewrite Hr.
  rewrite (isLower_ToLower _ L0), (isLower_ToLower _ L3).
  change (byteZ "a"%char) with 97. rewrite Hl, bind_Ok, byteZ_ne_minus1.
  rewrite Hw, bind_Ok, Ew.
  rewrite !strIndex_1, !bind_Ok.
  destruct (byte_eqb m1 c1); simpl negb; cbv iota; [| reflexivity].
  rewrite !strIndex_2, !bind_Ok.
  destruct (byte_eqb m2 c2); simpl; [| reflexivity].
  now rewrite byteOfZ_byteZ.
Qed.

(** The minimal token of [b], its first and last letter, decodes to [b]. *)
Lemma decodeWord_minimal (b : byte) (c0 c1 c2 c3 : byte) :
  wordOf b = String c0 (String c1 (String c2 (String c3 ""))) ->
  decodeWord (String c0 (String c3 "")) 2 = Ok b.
Proof.
  intros Ew. destruct (wordOf_shape b) as (d0 & d1 & d2 & d3 & Ew' & L0 & L1 & L2 & L3 & Hw & Hl).
  rewrite Ew in Ew'. injection Ew' as <- <- <- <-.
  unfold decodeWord.
  change (len (String c0 (String c3 ""))) with 2.
  change (negb (2 =? 2)) with false. cbv iota.
  rewrite strIndex_0, bind_Ok. change (2 =? 4) with false. cbv iota.
  rewrite strIndex_1, !bind_Ok.
  pose proof (range_check_lower c0 c3 L0 L3) as Hr. cbv zeta in Hr. rewrite Hr.
  rewrite (isLower_ToLower _ L0), (isLower_ToLower _ L3).
  change (byteZ "a"%char) with 97. rewrite Hl, bind_Ok, byteZ_ne_minus1.
  rewrite bind_Ok. now rewrite byteOfZ_byteZ.
Qed.

Lemma decodeWord_wordOf (b : byte) : decodeWord (wordOf b) 4 = Ok b.
Proof.
  destruct (wordOf_shape b) as (c0 & c1 & c2 & c3 & Ew & _).
  rewrite Ew at 1. rewrite (decodeWord_standard b c0 c1 c2 c3 c1 c2 Ew).
  now rewrite !byte_eqb_refl.
Qed.

(** ** C3: the word table is a bijection *)

(** C3. After [init] has built the tables, distinct bytes have distinct
    words, and for every byte [i] the lookup table, read at the first and the
    last letter of the word of [i] (which is [words[i]]), holds [i];
    [decodeWord] therefore returns
    [i] for the minimal token (first and last letter) and for the full word. *)
Theorem wordTable_bijection :
  init zeroTables = Ok initialized
  /\ (forall i j : byte, i <> j -> wordOf i <> wordOf j)
  /\ (forall i : byte,
        exists c0 c1 c2 c3,
          wordOf i = String c0 (String c1 (String c2 (String c3 "")))
          /\ arrIndex words (byteZ i) = Ok (wordOf i)
          /\ arrIndex lookupTable
               ((byteZ c3 - byteZ "a"%char) * 26 + (byteZ c0 - byteZ "a"%char))
             = Ok (byteZ i)
          /\ decodeWord (String c0 (String c3 "")) 2 = Ok i
          /\ decodeWord (String c0 (String c1 (String c2 (String c3 "")))) 4 = Ok i).
Proof.
  split; [exact init_runs |]. split.
  - intros i j Hij Heq. apply Hij.
    pose proof (decodeWord_wordOf i) as Hi. pose proof (decodeWord_wordOf j) as Hj.
    rewrite Heq in Hi. rewrite Hi in Hj. now injection Hj.
  - intros i.
    destruct (wordOf_shape i) as (c0 & c1 & c2 & c3 & Ew & _ & _ & _ & _ & Hw & Hl).
    exists c0, c1, c2, c3. rewrite <- Ew. repeat split.
    + exact Hw.
    + exact Hl.
    + exact (decodeWord_minimal i c0 c1 c2 c3 Ew).
    + exact (decodeWord_wordOf i).
Qed.

(** ** Strings *)

Lemma append_nil_r (s : string) : (s ++ "")%string = s.
Proof. induction s as [| c s IH]; simpl; [reflexivity | now rewrite IH]. Qed.

Lemma append_assoc (s1 s2 s3 : string) :
  ((s1 ++ s2) ++ s3)%string = (s1 ++ (s2 ++ s3))%string.
Proof. induction s1 as [| c s1 IH]; simpl; [reflexivity | now rewrite IH]. Qed.

Lemma length_append (s1 s2 : string) :
  String.length (s1 ++ s2) = (String.length s1 + String.length s2)%nat.
Proof. induction s1 as [| c s1 IH]; simpl; [reflexivity | now rewrite IH]. Qed.

Lemma len_append (s1 s2 : string) : len (s1 ++ s2) = len s1 + len s2.
Proof. unfold len. rewrite length_append. lia. Qed.

Lemma len_nonneg (s : string) : 0 <= len s.
Proof. unfold len. lia. Qed.

Lemma len_String (c : byte) (s : string) : len (String c s) = 1 + len s.
Proof. unfold len. cbn [String.length]. lia. Qed.

Lemma to_nat_len (s : string) : Z.to_nat (len s) = String.length s.
Proof. unfold len. apply Nat2Z.id. Qed.

Lemma substring_0_0 (s : string) : String.substring 0 0 s = "".
Proof. destruct s; reflexivity. Qed.

Lemma substring_append (pre s : string) (k : nat) :
  String.substring (String.length pre) k (pre ++ s) = String.substring 0 k s.
Proof. induction pre as [| c pre IH]; simpl; [reflexivity | exact IH]. Qed.

(** ** The minimal tokenizer *)

Lemma chunkLoop_chunksOf (fuel : nat) :
  forall (pre rest : string) (tokens : list string),
    (String.length rest <= fuel)%nat ->
    chunkLoop fuel (pre ++ rest) (len pre) tokens
    = (ts <- chunksOf rest (len pre) (len (pre ++ rest)) ;; Ok (tokens ++ ts)).
Proof.
  induction fuel as [| fuel IH]; intros pre rest tokens Hfuel.
  - destruct rest; [| simpl in Hfuel; lia].
    rewrite append_nil_r. simpl. rewrite Z.ltb_irrefl, app_nil_r. reflexivity.
  - destruct rest as [| c [| d rest]].
    + rewrite append_nil_r. simpl. rewrite Z.ltb_irrefl, app_nil_r. reflexivity.
    + cbn [chunkLoop chunksOf bind]. rewrite len_append, len_String.
      change (len "") with 0. pose proof (len_nonneg pre) as Hp.
      replace (len pre <? len pre + (1 + 0)) with true by (symmetry; apply Z.ltb_lt; lia).
      unfold strSlice. rewrite len_append, len_String. change (len "") with 0.
      replace ((len pre + 2 <? 0) || (len pre + (1 + 0) <? len pre + 2)) with true
        by (symmetry; apply orb_true_iff; right; apply Z.ltb_lt; lia).
      reflexivity.
    + pose proof (len_nonneg pre) as Hp. pose proof (len_nonneg rest) as Hr.
      assert (Hn : len (pre ++ String c (String d rest)) = len pre + 2 + len rest)
        by (rewrite len_append, !len_String; lia).
      assert (Hs : (pre ++ String c (String d rest))%string
                   = ((pre ++ String c (String d "")) ++ rest)%string)
        by (rewrite append_assoc; reflexivity).
      assert (Hl : len (pre ++ String c (String d "")) = len pre + 2)
        by (rewrite len_append, !len_String; change (len "") with 0; lia).
      assert (Hslice : strSlice (pre ++ String c (String d rest)) (len pre) (len pre + 2)
                       = Ok (String c (String d ""))).
      { unfold strSlice. rewrite Hn.
        replace ((len pre + 2 <? 0) || (len pre + 2 + len rest <? len pre + 2)) with false
          by (symmetry; apply orb_false_iff; split; apply Z.ltb_ge; lia).
        replace ((len pre <? 0) || (len pre + 2 <? len pre)) with false
          by (symmetry; apply orb_false_iff; split; apply Z.ltb_ge; lia).
        replace (Z.to_nat (len pre + 2 - len pre)) with 2%nat by lia.
        rewrite to_nat_len, substring_append. cbn [String.substring].
        now rewrite substring_0_0. }
      cbn [chunkLoop chunksOf].
      replace (len pre <? len (pre ++ String c (String d rest))) with true
        by (symmetry; apply Z.ltb_lt; lia).
      rewrite Hslice, bind_Ok, Hs, <- Hl.
      rewrite IH by (simpl in Hfuel; lia).
      destruct (chunksOf rest _ _); simpl; try reflexivity.
      now rewrite <- app_assoc.
Qed.

Lemma tokenize_minimal (s : string) (wordLen : Z) (sep : string) :
  wordLen <> 4 -> tokenize s wordLen sep = chunksOf s 0 (len s).
Proof.
  intros H. unfold tokenize. apply Z.eqb_neq in H. rewrite H.
  pose proof (chunkLoop_chunksOf (String.length s) "" s [] (le_n _)) as E.
  change (len "") with 0 in E. change ("" ++ s)%string with s in E.
  rewrite E. simpl. now rewrite bind_ret.
Qed.

(** ** The decoding loop *)

Lemma repeat_S {A : Type} (x : A) (n : nat) : repeat x (S n) = x :: repeat x n.
Proof. reflexivity. Qed.

Lemma decodeLoop_decodeAll (tokens : list string) (wordLen : Z) :
  forall done : list byte,
    decodeLoop tokens wordLen (lenS done) (done ++ repeat Ascii.zero (List.length tokens))
    = (bs <- decodeAll tokens wordLen ;; Ok (done ++ bs)).
Proof.
  induction tokens as [| t tokens IH]; intros done.
  - simpl. reflexivity.
  - cbn [decodeLoop decodeAll List.length]. rewrite repeat_S.
    destruct (decodeWord t wordLen) as [b | e | p | msg]; simpl; try reflexivity.
    rewrite arrStore_app, bind_Ok.
    replace (done ++ b :: repeat Ascii.zero (List.length tokens))
      with ((done ++ [b]) ++ repeat Ascii.zero (List.length tokens))
      by (now rewrite <- app_assoc).
    replace (lenS done + 1) with (lenS (done ++ [b])) by (rewrite lenS_app; reflexivity).
    rewrite IH. destruct (decodeAll tokens wordLen); simpl; try reflexivity.
    now rewrite <- app_assoc.
Qed.

Lemma verify_spec (buf : list byte) :
  verify buf
  = (if lenS buf <? 5 then Err tooShort
     else
       let body := sliceTo buf (lenS buf - 4) in
       let checksum := sliceFrom buf (lenS buf - 4) in
       ok <- equal checksum (crc32Bytes body) ;;
       if negb ok then Err crcMismatch else Ok body).
Proof.
  unfold verify. destruct (lenS buf <? 5); [reflexivity |].
  cbv zeta. rewrite equal_spec, bind_Ok.
  destruct (bytes_eqb _ _); reflexivity.
Qed.

Lemma decodedBytes_decodeAll (s : string) (wordLen : Z) (sep : string) :
  decodedBytes s wordLen sep
  = (tokens <- tokenize s wordLen sep ;; decodeAll tokens wordLen).
Proof.
  unfold decodedBytes.
  destruct (tokenize s wordLen sep) as [tokens | | |]; simpl; try reflexivity.
  pose proof (decodeLoop_decodeAll tokens wordLen []) as H. simpl in H.
  change 0 with (@lenS byte []). rewrite H.
  destruct (decodeAll tokens wordLen); reflexivity.
Qed.

Lemma decode_verify (s : string) (wordLen : Z) (sep : string) :
  decode s wordLen sep = (buf <- decodedBytes s wordLen sep ;; verify buf).
Proof.
  unfold decode. destruct (decodedBytes s wordLen sep); simpl; try reflexivity.
  symmetry. apply verify_spec.
Qed.

Lemma decode_stages (s : string) (wordLen : Z) (sep : string) :
  decode s wordLen sep
  = (tokens <- tokenize s wordLen sep ;;
     buf <- decodeAll tokens wordLen ;;
     verify buf).
Proof.
  unfold decode. rewrite decodedBytes_decodeAll.
  destruct (tokenize s wordLen sep) as [tokens | | |]; simpl; try reflexivity.
  destruct (decodeAll tokens wordLen) as [buf | | |]; simpl; try reflexivity.
  symmetry. apply verify_spec.
Qed.

(** ** What the encoders write *)

Lemma encodeMinimalLoop_spec (data : list byte) :
  forall sb : string, encodeMinimalLoop data sb = Ok (sb ++ minimalOf data)%string.
Proof.
  induction data as [| b data IH]; intros sb.
  - simpl. now rewrite append_nil_r.
  - cbn [encodeMinimalLoop minimalOf]. unfold firstLast.
    destruct (wordOf_shape b) as (c0 & c1 & c2 & c3 & Ew & _). rewrite Ew.
    rewrite strIndex_0, strIndex_3, !bind_Ok, IH.
    now rewrite append_assoc.
Qed.

Lemma encodeMinimal_spec (data : list byte) :
  encodeMinimal data = Ok (minimalOf (appendCRC data)).
Proof. unfold encodeMinimal. now rewrite encodeMinimalLoop_spec. Qed.

Lemma len_firstLast (b : byte) : len (firstLast b) = 2.
Proof.
  unfold firstLast. destruct (wordOf_shape b) as (c0 & c1 & c2 & c3 & Ew & _).
  rewrite Ew. reflexivity.
Qed.

Lemma len_minimalOf (data : list byte) : len (minimalOf data) = 2 * lenS data.
Proof.
  induction data as [| b data IH]; [reflexivity |].
  cbn [minimalOf]. rewrite len_append, len_firstLast, IH, lenS_cons. lia.
Qed.

Lemma len_wordOf (b : byte) : len (wordOf b) = 4.
Proof.
  destruct (wordOf_shape b) as (c0 & c1 & c2 & c3 & Ew & _). rewrite Ew. reflexivity.
Qed.

Lemma len_Join_words (data : list byte) :
  data <> [] -> len (Join (map wordOf data) " ") = 5 * lenS data - 1.
Proof.
  induction data as [| b data IH]; [congruence | intros _].
  destruct data as [| b' data].
  - simpl. rewrite len_wordOf. reflexivity.
  - change (Join (map wordOf (b :: b' :: data)) " ")
      with (wordOf b ++ " " ++ Join (map wordOf (b' :: data)) " ")%string.
    rewrite !len_append, len_wordOf, IH by discriminate.
    change (len " ") with 1. rewrite (lenS_cons b). lia.
Qed.

Lemma lenS_crc32Bytes (data : list byte) : lenS (crc32Bytes data) = 4.
Proof. reflexivity. Qed.

Lemma lenS_appendCRC (data : list byte) : lenS (appendCRC data) = lenS data + 4.
Proof. unfold appendCRC. now rewrite lenS_app, lenS_crc32Bytes. Qed.

Lemma appendCRC_nonempty (data : list byte) : appendCRC data <> [].
Proof.
  intros H. pose proof (lenS_appendCRC data) as E. rewrite H in E.
  pose proof (lenS_nonneg data). change (@lenS byte []) with 0 in E. lia.
Qed.

(** ** C10: the lengths of the two encodings *)

(** C10. For every byte sequence [B] of length [n], [encodeMinimal] returns a
    string of exactly [2*(n+4)] bytes and [encodeStandard] a string of exactly
    [5*(n+4)-1] bytes. *)
Theorem encoded_lengths (B : list byte) :
  (exists s, encodeMinimal B = Ok s /\ len s = 2 * (lenS B + 4))
  /\ len (encodeStandard B) = 5 * (lenS B + 4) - 1.
Proof.
  split.
  - exists (minimalOf (appendCRC B)). split; [apply encodeMinimal_spec |].
    now rewrite len_minimalOf, lenS_appendCRC.
  - unfold encodeStandard.
    rewrite len_Join_words by apply appendCRC_nonempty.
    now rewrite lenS_appendCRC.
Qed.

(** ** Decoding what the encoders wrote *)

Lemma firstLast_eq (b : byte) :
  exists c0 c1 c2 c3,
    wordOf b = String c0 (String c1 (String c2 (String c3 "")))
    /\ firstLast b = String c0 (String c3 "").
Proof.
  destruct (wordOf_shape b) as (c0 & c1 & c2 & c3 & Ew & _).
  exists c0, c1, c2, c3. split; [exact Ew |]. unfold firstLast. now rewrite Ew.
Qed.

Lemma chunksOf_minimalOf (data : list byte) :
  forall i n : Z, chunksOf (minimalOf data) i n = Ok (map firstLast data).
Proof.
  induction data as [| b data IH]; intros i n; [reflexivity |].
  cbn [minimalOf map].
  destruct (firstLast_eq b) as (c0 & c1 & c2 & c3 & Ew & ->).
  cbn [append chunksOf]. now rewrite IH.
Qed.

Lemma decodeAll_firstLast (data : list byte) :
  decodeAll (map firstLast data) 2 = Ok data.
Proof.
  induction data as [| b data IH]; [reflexivity |].
  cbn [map decodeAll].
  destruct (firstLast_eq b) as (c0 & c1 & c2 & c3 & Ew & ->).
  rewrite (decodeWord_minimal b c0 c1 c2 c3 Ew), bind_Ok, IH. reflexivity.
Qed.

Lemma decodeAll_wordOf (data : list byte) :
  decodeAll (map wordOf data) 4 = Ok data.
Proof.
  induction data as [| b data IH]; [reflexivity |].
  cbn [map decodeAll]. rewrite decodeWord_wordOf, bind_Ok, IH. reflexivity.
Qed.

Lemma splitFrom_space (rest cur : string) :
  splitFrom " " (String " "%char rest) 0 cur = cur :: splitFrom " " rest 0 "".
Proof. destruct rest; reflexivity. Qed.

Lemma prefix_space (c : byte) (s : string) :
  String.prefix " " (String c s) = byte_eqb " "%char c.
Proof.
  cbn [String.prefix]. destruct (ascii_dec " "%char c) as [E | E].
  - subst c. destruct s; reflexivity.
  - symmetry. now apply byte_eqb_neq.
Qed.

Lemma splitFrom_word (w : string) :
  noSpace w = true ->
  forall rest cur : string,
    splitFrom " " (w ++ rest) 0 cur = splitFrom " " rest 0 (cur ++ w).
Proof.
  induction w as [| c w IH]; intros Hw rest cur.
  - simpl. now rewrite append_nil_r.
  - cbn [noSpace] in Hw. apply andb_true_iff in Hw. destruct Hw as [Hc Hw].
    apply negb_true_iff in Hc.
    change (String c w ++ rest)%string with (String c (w ++ rest)).
    cbn [splitFrom]. rewrite prefix_space.
    unfold byte_eqb in *. rewrite Ascii.eqb_sym, Hc.
    rewrite (IH Hw). now rewrite append_assoc.
Qed.

Lemma splitFrom_Join (ws : list string) :
  forallb noSpace ws = true ->
  forall cur : string,
    splitFrom " " (Join ws " ") 0 cur
    = match ws with
      | [] => [cur]
      | w :: ws' => (cur ++ w)%string :: ws'
      end.
Proof.
  induction ws as [| w ws IH]; intros Hws cur; [reflexivity |].
  cbn [forallb] in Hws. apply andb_true_iff in Hws. destruct Hws as [Hw Hws].
  destruct ws as [| w' ws].
  - change (Join [w] " ") with w. rewrite <- (append_nil_r w) at 1.
    now rewrite (splitFrom_word w Hw).
  - change (Join (w :: w' :: ws) " ") with (w ++ String " "%char (Join (w' :: ws) " "))%string.
    rewrite (splitFrom_word w Hw), splitFrom_space, (IH Hws). reflexivity.
Qed.

Lemma Split_Join (ws : list string) :
  ws <> [] -> forallb noSpace ws = true -> Split (Join ws " ") " " = ws.
Proof.
  intros Hne Hws. unfold Split. rewrite (splitFrom_Join ws Hws).
  destruct ws; [congruence | reflexivity].
Qed.

Lemma isLower_not_space (c : byte) : isLower c = true -> byte_eqb c " "%char = false.
Proof.
  intros H. apply isLower_bounds in H. apply byte_eqb_neq. intros ->.
  change (byteZ " "%char) with 32 in H. lia.
Qed.

Lemma noSpace_wordOf (b : byte) : noSpace (wordOf b) = true.
Proof.
  destruct (wordOf_shape b) as (c0 & c1 & c2 & c3 & Ew & L0 & L1 & L2 & L3 & _).
  rewrite Ew. cbn [noSpace].
  now rewrite !isLower_not_space by assumption.
Qed.

Lemma noSpace_words (data : list byte) : forallb noSpace (map wordOf data) = true.
Proof.
  induction data as [| b data IH]; [reflexivity |].
  cbn [map forallb]. now rewrite noSpace_wordOf, IH.
Qed.

Lemma tokenize_encodeStandard (data : list byte) :
  tokenize (encodeStandard data) 4 " " = Ok (map wordOf (appendCRC data)).
Proof.
  unfold tokenize, encodeStandard. change (4 =? 4) with true. cbv iota.
  rewrite Split_Join; [reflexivity | | apply noSpace_words].
  pose proof (appendCRC_nonempty data) as H. destruct (appendCRC data); [congruence | discriminate].
Qed.

Lemma bytes_eqb_refl (a : list byte) : bytes_eqb a a = true.
Proof. now apply bytes_eqb_eq. Qed.

(** The checksum stage on an encoder's payload. *)
Lemma verify_appendCRC (body : list byte) :
  verify (appendCRC body) = if lenS body <? 1 then Err tooShort else Ok body.
Proof.
  unfold verify. rewrite lenS_appendCRC.
  replace (lenS body + 4 <? 5) with (lenS body <? 1)
    by (destruct (lenS body <? 1) eqn:E; symmetry;
        [apply Z.ltb_lt in E; apply Z.ltb_lt | apply Z.ltb_ge in E; apply Z.ltb_ge]; lia).
  destruct (lenS body <? 1); [reflexivity |].
  replace (lenS body + 4 - 4) with (lenS body) by lia.
  unfold sliceTo, sliceFrom, appendCRC, lenS. rewrite Nat2Z.id.
  rewrite firstn_app, Nat.sub_diag, firstn_all, firstn_O, app_nil_r.
  rewrite skipn_app, Nat.sub_diag, skipn_all, skipn_O. cbn [app].
  now rewrite bytes_eqb_refl.
Qed.

Lemma decode_encodeMinimal (body : list byte) (sep : string) :
  decode (minimalOf (appendCRC body)) 2 sep
  = if lenS body <? 1 then Err tooShort else Ok body.
Proof.
  rewrite decode_stages, tokenize_minimal by discriminate.
  rewrite chunksOf_minimalOf, bind_Ok, decodeAll_firstLast, bind_Ok.
  apply verify_appendCRC.
Qed.

Lemma decode_encodeStandard (body : list byte) :
  decode (encodeStandard body) 4 " "
  = if lenS body <? 1 then Err tooShort else Ok body.
Proof.
  rewrite decode_stages, tokenize_encodeStandard, bind_Ok, decodeAll_wordOf, bind_Ok.
  apply verify_appendCRC.
Qed.

(** ** C1: round trip *)

(** C1, as the code has it. For every non-empty byte sequence [B], decoding
    the minimal encoding of [B] with the minimal variant returns [B], and
    decoding the standard encoding of [B] with the standard variant and the
    space separator returns [B]. *)
Theorem decode_encode_roundtrip (B : list byte) (sep : string) :
  B <> [] ->
  (exists s, encodeMinimal B = Ok s /\ decode s 2 sep = Ok B)
  /\ decode (encodeStandard B) 4 " " = Ok B.
Proof.
  intros HB.
  assert (H : (lenS B <? 1) = false).
  { apply Z.ltb_ge. destruct B; [congruence |]. rewrite lenS_cons.
    pose proof (lenS_nonneg B). lia. }
  split.
  - exists (minimalOf (appendCRC B)). split; [apply encodeMinimal_spec |].
    now rewrite decode_encodeMinimal, H.
  - now rewrite decode_encodeStandard, H.
Qed.

(** The round trip at the one-byte sequence [7]. *)
Lemma decode_encode_roundtrip_witness :
  [byteOfZ 7] <> []
  /\ (exists s, encodeMinimal [byteOfZ 7] = Ok s /\ decode s 2 "" = Ok [byteOfZ 7])
  /\ decode (encodeStandard [byteOfZ 7]) 4 " " = Ok [byteOfZ 7].
Proof.
  split; [discriminate |].
  apply (decode_encode_roundtrip [byteOfZ 7] ""). discriminate.
Defined.

(** C1, as the spec states it, fails at the empty byte sequence: its encoding
    is the four checksum bytes alone, which [decode] rejects as too short. *)
Lemma decode_encode_empty :
  encodeMinimal [] = Ok "aeaeaeae"
  /\ decode "aeaeaeae" 2 "" = Err tooShort
  /\ encodeStandard [] = "able able able able"
  /\ decode "able able able able" 4 " " = Err tooShort.
Proof. repeat split; vm_compute; reflexivity. Qed.

(** ** C4: the length and checksum checks of [decode] *)

Lemma verify_short (buf : list byte) : lenS buf < 5 -> verify buf = Err tooShort.
Proof. intros H. unfold verify. apply Z.ltb_lt in H. now rewrite H. Qed.

Lemma verify_mismatch (buf : list byte) :
  5 <= lenS buf ->
  sliceFrom buf (lenS buf - 4) <> crc32Bytes (sliceTo buf (lenS buf - 4)) ->
  verify buf = Err crcMismatch.
Proof.
  intros H Hne. unfold verify. apply Z.ltb_ge in H. rewrite H. cbv zeta.
  destruct (bytes_eqb _ _) eqn:E; [| reflexivity].
  apply bytes_eqb_eq in E. contradiction.
Qed.

Lemma verify_Ok (buf body : list byte) :
  verify buf = Ok body <-> 1 <= lenS body /\ buf = body ++ crc32Bytes body.
Proof.
  split.
  - unfold verify. destruct (lenS buf <? 5) eqn:E; [discriminate |]. cbv zeta.
    destruct (bytes_eqb _ _) eqn:Eb; [| discriminate].
    intros H'. injection H' as H. apply bytes_eqb_eq in Eb. apply Z.ltb_ge in E.
    assert (Hb : buf = body ++ crc32Bytes body).
    { rewrite <- H at 2. rewrite <- Eb, <- H. unfold sliceTo, sliceFrom.
      symmetry. apply firstn_skipn. }
    split; [| exact Hb].
    rewrite Hb, lenS_app, lenS_crc32Bytes in E. lia.
  - intros [Hl ->]. change (body ++ crc32Bytes body) with (appendCRC body).
    rewrite verify_appendCRC.
    replace (lenS body <? 1) with false by (symmetry; apply Z.ltb_ge; lia).
    reflexivity.
Qed.

(** C4. For every input string and variant: when the tokens decode to fewer
    than 5 bytes, [decode] fails (too short); when they decode to at least 5
    bytes whose last 4 are not the CRC-32 bytes of the preceding ones, [decode]
    fails (crc mismatch); and [decode] returns [body] exactly when the decoded
    bytes are a non-empty [body] followed by its 4 checksum bytes. *)
Theorem decode_length_and_checksum (s : string) (wordLen : Z) (sep : string) :
  (forall buf, decodedBytes s wordLen sep = Ok buf -> lenS buf < 5 ->
     decode s wordLen sep = Err tooShort)
  /\ (forall buf, decodedBytes s wordLen sep = Ok buf -> 5 <= lenS buf ->
        sliceFrom buf (lenS buf - 4) <> crc32Bytes (sliceTo buf (lenS buf - 4)) ->
        decode s wordLen sep = Err crcMismatch)
  /\ (forall body, decode s wordLen sep = Ok body <->
        1 <= lenS body /\ decodedBytes s wordLen sep = Ok (body ++ crc32Bytes body)).
Proof.
  rewrite decode_verify. split; [| split].
  - intros buf -> H. now apply verify_short.
  - intros buf -> H Hne. now apply verify_mismatch.
  - intros body. split.
    + intros H. apply bind_Ok_inv in H. destruct H as (buf & Hbuf & Hv).
      apply verify_Ok in Hv. destruct Hv as [Hl ->]. now split.
    + intros [Hl ->]. simpl. apply verify_Ok. now split.
Qed.

(** The three cases of C4 on inputs: four words only, a wrong checksum word,
    and a valid payload. *)
Example decode_checks_run :
  decode "aeaeaeae" 2 "" = Err tooShort
  /\ decode "able tied also webs luck" 4 " " = Err crcMismatch
  /\ decode "able tied also webs lung" 4 " " = Ok [byteOfZ 0].
Proof. repeat split; vm_compute; reflexivity. Qed.

(** ** C9: the checksum *)

Lemma lxor_bound (n a b : Z) :
  0 <= n -> 0 <= a < 2 ^ n -> 0 <= b < 2 ^ n -> 0 <= Z.lxor a b < 2 ^ n.
Proof.
  intros Hn Ha Hb. split; [apply Z.lxor_nonneg; lia |].
  destruct (Z.eq_dec (Z.lxor a b) 0) as [E | E]; [rewrite E; lia |].
  assert (Hpos : 0 < Z.lxor a b) by (pose proof (proj2 (Z.lxor_nonneg a b)); lia).
  apply Z.log2_lt_pow2; [exact Hpos |].
  pose proof (Z.log2_lxor a b (proj1 Ha) (proj1 Hb)) as Hl.
  assert (La : a = 0 \/ Z.log2 a < n)
    by (destruct (Z.eq_dec a 0); [now left | right; apply Z.log2_lt_pow2; lia]).
  assert (Lb : b = 0 \/ Z.log2 b < n)
    by (destruct (Z.eq_dec b 0); [now left | right; apply Z.log2_lt_pow2; lia]).
  destruct La as [-> | La], Lb as [-> | Lb].
  - now rewrite Z.lxor_0_l in E.
  - rewrite Z.lxor_0_l. exact Lb.
  - rewrite Z.lxor_0_r. exact La.
  - lia.
Qed.

Lemma IEEETable_uint32 (i : nat) : uint32 (nth i IEEETable 0).
Proof.
  assert (H : forallb (fun v => (0 <=? v) && (v <? 2 ^ 32)) IEEETable = true)
    by (vm_compute; reflexivity).
  destruct (Nat.lt_ge_cases i (List.length IEEETable)) as [Hi | Hi].
  - rewrite forallb_forall in H. specialize (H _ (nth_In IEEETable 0 Hi)).
    apply andb_true_iff in H. destruct H as [H1 H2].
    apply Z.leb_le in H1. apply Z.ltb_lt in H2. split; assumption.
  - rewrite nth_overflow by exact Hi. split; [lia | reflexivity].
Qed.

Lemma shiftr_uint32 (crc k : Z) : 0 <= k -> uint32 crc -> uint32 (Z.shiftr crc k).
Proof.
  intros Hk [H0 H1]. rewrite Z.shiftr_div_pow2 by exact Hk.
  assert (0 < 2 ^ k) by (apply Z.pow_pos_nonneg; lia).
  split; [apply Z.div_pos; lia |].
  apply Z.le_lt_trans with crc; [| exact H1].
  apply Z.div_le_upper_bound; [lia |]. nia.
Qed.

Lemma simpleUpdateStep_uint32 (crc : Z) (v : byte) :
  uint32 crc -> uint32 (simpleUpdateStep IEEETable crc v).
Proof.
  intros H. unfold simpleUpdateStep. apply lxor_bound; [lia | |].
  - apply IEEETable_uint32.
  - apply shiftr_uint32; [lia | exact H].
Qed.

Lemma complement32_uint32 (crc : Z) : uint32 crc -> uint32 (complement32 crc).
Proof. intros H. unfold complement32. apply lxor_bound; [lia | exact H | split; reflexivity || lia]. Qed.

Lemma fold_update_uint32 (p : list byte) :
  forall crc, uint32 crc -> uint32 (fold_left (simpleUpdateStep IEEETable) p crc).
Proof.
  induction p as [| v p IH]; intros crc H; [exact H |].
  simpl. apply IH. now apply simpleUpdateStep_uint32.
Qed.

Lemma ChecksumIEEE_uint32 (data : list byte) : uint32 (ChecksumIEEE data).
Proof.
  unfold ChecksumIEEE, simpleUpdate.
  apply complement32_uint32, fold_update_uint32, complement32_uint32.
  split; [lia | reflexivity].
Qed.

Lemma bigEndian_PutUint32 (v : Z) : uint32 v -> bigEndian (PutUint32 v) = v.
Proof.
  intros [H0 H1]. unfold bigEndian, PutUint32. cbn [fold_left].
  rewrite !byteZ_byteOfZ, !Z.shiftr_div_pow2 by lia.
  change (2 ^ 24) with 16777216. change (2 ^ 16) with 65536. change (2 ^ 8) with 256.
  change (2 ^ 32) with 4294967296 in H1.
  Z.div_mod_to_equations. lia.
Qed.

Lemma equal_iff (a b : list byte) :
  exists ok, equal a b = Ok ok /\ (ok = true <-> a = b).
Proof. exists (bytes_eqb a b). split; [apply equal_spec | apply bytes_eqb_eq]. Qed.

(** *** The table-driven checksum is the bit-serial CRC-32 *)

Lemma IEEETable_eq : IEEETable = simpleMakeTable IEEE.
Proof. vm_compute. reflexivity. Qed.

Lemma simpleTableEntry_iter (poly i : Z) :
  simpleTableEntry poly i = Nat.iter 8 (crcShift poly) i.
Proof. reflexivity. Qed.

Lemma nth_upto (n i : nat) : (i < n)%nat -> nth i (upto n) 0 = Z.of_nat i.
Proof.
  intros H. unfold upto. change 0 with (Z.of_nat 0).
  rewrite map_nth, seq_nth by exact H. reflexivity.
Qed.

Lemma IEEETable_nth (i : Z) :
  0 <= i < 256 -> nth (Z.to_nat i) IEEETable 0 = Nat.iter 8 (crcShift IEEE) i.
Proof.
  intros H. rewrite IEEETable_eq. unfold simpleMakeTable.
  rewrite <- simpleTableEntry_iter.
  rewrite (nth_indep _ 0 (simpleTableEntry IEEE 0))
    by (rewrite length_map; unfold upto; rewrite length_map, length_seq; lia).
  rewrite map_nth, nth_upto by lia. now rewrite Z2Nat.id by lia.
Qed.

Lemma land_1_lxor_even (a b : Z) :
  Z.testbit b 0 = false -> Z.land (Z.lxor a b) 1 = Z.land a 1.
Proof.
  intros Hb. apply Z.bits_inj'. intros n Hn.
  rewrite !Z.land_spec, Z.lxor_spec.
  destruct (Z.eq_dec n 0) as [-> | Hne].
  - rewrite Hb, xorb_false_r. reflexivity.
  - replace (Z.testbit 1 n) with false; [now rewrite !andb_false_r |].
    symmetry. change 1 with (2 ^ 0). apply Z.pow2_bits_false. lia.
Qed.

Lemma crcShift_lxor_even (poly a b : Z) :
  Z.testbit b 0 = false ->
  crcShift poly (Z.lxor a b) = Z.lxor (crcShift poly a) (Z.shiftr b 1).
Proof.
  intros Hb. unfold crcShift. rewrite (land_1_lxor_even a b Hb), Z.shiftr_lxor.
  destruct (Z.land a 1 =? 1); [| reflexivity].
  rewrite !Z.lxor_assoc. f_equal. apply Z.lxor_comm.
Qed.

(** Shifting [k <= 8] times commutes with a part that lies above the low byte. *)
Lemma iter_crcShift_high (poly a h : Z) (k : nat) :
  (k <= 8)%nat ->
  Nat.iter k (crcShift poly) (Z.lxor a (Z.shiftl h 8))
  = Z.lxor (Nat.iter k (crcShift poly) a) (Z.shiftl h (8 - Z.of_nat k)).
Proof.
  induction k as [| k IH]; intros Hk.
  - simpl. reflexivity.
  - rewrite !Nat.iter_succ, IH by lia.
    rewrite crcShift_lxor_even.
    + f_equal. rewrite Z.shiftr_shiftl_l by lia. f_equal. lia.
    + apply Z.shiftl_spec_low. lia.
Qed.

Lemma split_low_byte (x : Z) :
  x = Z.lxor (x mod 256) (Z.shiftl (Z.shiftr x 8) 8).
Proof.
  apply Z.bits_inj'. intros n Hn. rewrite Z.lxor_spec.
  change 256 with (2 ^ 8).
  destruct (Z.lt_ge_cases n 8) as [Hlt | Hge].
  - rewrite Z.mod_pow2_bits_low, Z.shiftl_spec_low by lia. now rewrite xorb_false_r.
  - rewrite Z.mod_pow2_bits_high, Z.shiftl_spec, Z.shiftr_spec by lia.
    rewrite xorb_false_l. f_equal. lia.
Qed.

Lemma lxor_byte_low (crc v : Z) :
  0 <= v < 256 -> (Z.lxor crc v) mod 256 = Z.lxor (crc mod 256) v.
Proof.
  intros Hv. apply Z.bits_inj'. intros n Hn. change 256 with (2 ^ 8).
  destruct (Z.lt_ge_cases n 8) as [Hlt | Hge].
  - rewrite Z.mod_pow2_bits_low, !Z.lxor_spec, Z.mod_pow2_bits_low by lia. reflexivity.
  - rewrite Z.mod_pow2_bits_high, Z.lxor_spec, Z.mod_pow2_bits_high by lia.
    rewrite xorb_false_l. symmetry.
    destruct (Z.eq_dec v 0) as [-> | Hv0]; [apply Z.bits_0 |].
    apply Z.bits_above_log2; [lia |].
    apply Z.lt_le_trans with 8; [| exact Hge].
    apply Z.log2_lt_pow2; [lia |]. change (2 ^ 8) with 256. lia.
Qed.

Lemma lxor_byte_high (crc v : Z) :
  0 <= v < 256 -> Z.shiftr (Z.lxor crc v) 8 = Z.shiftr crc 8.
Proof.
  intros Hv. rewrite Z.shiftr_lxor.
  replace (Z.shiftr v 8) with 0; [apply Z.lxor_0_r |].
  rewrite Z.shiftr_div_pow2 by lia. symmetry. apply Z.div_small.
  change (2 ^ 8) with 256. exact Hv.
Qed.

(** One table step is eight bit steps. *)
Lemma simpleUpdateStep_bitwise (crc : Z) (v : byte) :
  simpleUpdateStep IEEETable crc v
  = Nat.iter 8 (crcShift IEEE) (Z.lxor crc (byteZ v)).
Proof.
  pose proof (byteZ_range v) as Hv. unfold simpleUpdateStep.
  rewrite <- (lxor_byte_low crc (byteZ v) Hv), <- (lxor_byte_high crc (byteZ v) Hv).
  set (x := Z.lxor crc (byteZ v)).
  rewrite IEEETable_nth by (apply Z.mod_pos_bound; lia).
  rewrite (split_low_byte x) at 3.
  rewrite (iter_crcShift_high IEEE (x mod 256) (Z.shiftr x 8) 8) by lia.
  change (8 - Z.of_nat 8) with 0. now rewrite Z.shiftl_0_r.
Qed.

Lemma ChecksumIEEE_bitwise (data : list byte) : ChecksumIEEE data = crc32Bitwise data.
Proof.
  unfold ChecksumIEEE, simpleUpdate, crc32Bitwise. f_equal.
  change (complement32 0) with 0xFFFFFFFF.
  generalize 0xFFFFFFFF as crc.
  induction data as [| v data IH]; intros crc; [reflexivity |].
  cbn [fold_left]. rewrite simpleUpdateStep_bitwise. apply IH.
Qed.

Lemma verify_long (buf : list byte) :
  5 <= lenS buf ->
  let body := sliceTo buf (lenS buf - 4) in
  let stored := sliceFrom buf (lenS buf - 4) in
  (stored = crc32Bytes body -> verify buf = Ok body)
  /\ (stored <> crc32Bytes body -> verify buf = Err crcMismatch).
Proof.
  intros H body stored. split.
  - intros E. unfold verify. apply Z.ltb_ge in H. rewrite H. cbv zeta.
    fold body stored. rewrite E. now rewrite bytes_eqb_refl.
  - intros E. now apply verify_mismatch.
Qed.

(** C9. For every byte sequence [body], [crc32Bytes] returns four bytes whose
    big-endian value is the CRC-32 of [body]: [ChecksumIEEE], which is the
    bit-serial CRC with the IEEE polynomial and a 32-bit number.  [equal]
    returns true exactly on a stored checksum that has the same bytes, and
    [decode] accepts decoded bytes of length at least 5 exactly when their
    last four bytes are the recomputed checksum of the bytes before.  (The
    functions are pure: the same body always has the same checksum.) *)
Theorem crc32Bytes_checksum (body : list byte) :
  ChecksumIEEE body = crc32Bitwise body
  /\ 0 <= ChecksumIEEE body < 2 ^ 32
  /\ List.length (crc32Bytes body) = 4%nat
  /\ bigEndian (crc32Bytes body) = ChecksumIEEE body
  /\ (forall stored, exists ok,
        equal stored (crc32Bytes body) = Ok ok
        /\ (ok = true <-> stored = crc32Bytes body))
  /\ (forall s wordLen sep buf,
        decodedBytes s wordLen sep = Ok buf -> 5 <= lenS buf ->
        body = sliceTo buf (lenS buf - 4) ->
        (sliceFrom buf (lenS buf - 4) = crc32Bytes body ->
           decode s wordLen sep = Ok body)
        /\ (sliceFrom buf (lenS buf - 4) <> crc32Bytes body ->
              decode s wordLen sep = Err crcMismatch)).
Proof.
  split; [apply ChecksumIEEE_bitwise |].
  split; [apply ChecksumIEEE_uint32 |].
  split; [reflexivity |].
  split; [apply bigEndian_PutUint32, ChecksumIEEE_uint32 |].
  split; [intros stored; apply equal_iff |].
  intros s wordLen sep buf Hbuf Hlen ->.
  rewrite decode_verify, Hbuf, bind_Ok. now apply verify_long.
Qed.

Example crc32Bytes_check :
  crc32Bytes (bytesOf "123456789")
  = [byteOfZ 0xCB; byteOfZ 0xF4; byteOfZ 0x39; byteOfZ 0x26].
Proof. vm_compute. reflexivity. Qed.

(** ** C5: a minimal input of odd length *)

(** Induction over a string two bytes at a time, as the chunk loop reads it. *)
Lemma string_pair_ind (P : string -> Prop) :
  P "" ->
  (forall c, P (String c "")) ->
  (forall c d s, P s -> P (String c (String d s))) ->
  forall s, P s.
Proof.
  intros H0 H1 H2. fix IH 1.
  intros [| c [| d s]]; [exact H0 | apply H1 | apply H2, IH].
Qed.

Lemma chunksOf_odd (s : string) :
  Nat.odd (String.length s) = true ->
  forall i n : Z, exists j, chunksOf s i n = Panic (SliceBoundsOutOfRange j n).
Proof.
  induction s as [| c | c d s IH] using string_pair_ind; intros Hodd i n.
  - discriminate.
  - exists (i + 2). reflexivity.
  - cbn [chunksOf]. destruct (IH Hodd (i + 2) n) as [j Hj].
    exists j. now rewrite Hj.
Qed.

(** Every odd-length input of the minimal variant makes [decode] panic at
    the slice expression of its last, one-byte chunk: no error is returned. *)
Lemma decode_odd_length_panics (s sep : string) :
  Nat.odd (String.length s) = true ->
  exists j, decode s 2 sep = Panic (SliceBoundsOutOfRange j (len s)).
Proof.
  intros Hodd. rewrite decode_stages, tokenize_minimal by discriminate.
  destruct (chunksOf_odd s Hodd 0 (len s)) as [j Hj]. exists j. now rewrite Hj.
Qed.

(** C5: the code at an odd-length input.  [decode("a", 2, "")] panics with
    "slice bounds out of range [:2] with length 1" where the claim expects a
    returned error, and so does [decode] on every input of odd length in the
    minimal variant. *)
Theorem decode_odd_input_panics :
  decode "a" 2 "" = Panic (SliceBoundsOutOfRange 2 1)
  /\ decode "aetdaowsl" 2 "" = Panic (SliceBoundsOutOfRange 10 9)
  /\ (forall s sep,
        Nat.odd (String.length s) = true ->
        exists j, decode s 2 sep = Panic (SliceBoundsOutOfRange j (len s))).
Proof.
  split; [vm_compute; reflexivity |]. split; [vm_compute; reflexivity |].
  exact decode_odd_length_panics.
Qed.

(** ** Replacing a letter of a standard encoding *)

Lemma setChar_append_l (a b : string) (i : nat) (c : byte) :
  (i < String.length a)%nat -> setChar (a ++ b) i c = (setChar a i c ++ b)%string.
Proof.
  revert i. induction a as [| x a IH]; intros i Hi; [simpl in Hi; lia |].
  destruct i as [| i]; simpl; [reflexivity |].
  rewrite IH by (simpl in Hi; lia). reflexivity.
Qed.

Lemma setChar_append_r (a b : string) (i : nat) (c : byte) :
  setChar (a ++ b) (String.length a + i) c = (a ++ setChar b i c)%string.
Proof. induction a as [| x a IH]; simpl; [reflexivity | now rewrite IH]. Qed.

Lemma get_append_l (a b : string) (i : nat) :
  (i < String.length a)%nat -> String.get i (a ++ b) = String.get i a.
Proof.
  revert i. induction a as [| x a IH]; intros i Hi; [simpl in Hi; lia |].
  destruct i as [| i]; simpl; [reflexivity |]. apply IH. simpl in Hi. lia.
Qed.

Lemma get_append_r (a b : string) (i : nat) :
  String.get (String.length a + i) (a ++ b) = String.get i b.
Proof. induction a as [| x a IH]; simpl; [reflexivity | exact IH]. Qed.

Lemma Join_cons (p : string) (l : list string) (sep : string) :
  l <> [] -> Join (p :: l) sep = (p ++ sep ++ Join l sep)%string.
Proof. destruct l; [congruence | reflexivity]. Qed.

Lemma Join_single_or_more (w : string) (post : list string) :
  exists rest, Join (w :: post) " " = (w ++ rest)%string.
Proof.
  destruct post as [| q post].
  - exists "". simpl. now rewrite append_nil_r.
  - exists (" " ++ Join (q :: post) " ")%string. reflexivity.
Qed.

Lemma Join_head (w w' : string) (post : list string) (rest : string) :
  Join (w :: post) " " = (w ++ rest)%string ->
  String.length w = String.length w' ->
  Join (w' :: post) " " = (w' ++ rest)%string.
Proof.
  destruct post as [| q post].
  - simpl. intros H _. rewrite <- (append_nil_r w) in H at 1.
    assert (rest = "").
    { clear -H. induction w as [| x w IH]; simpl in H; [now symmetry |].
      injection H as H. now apply IH. }
    subst rest. now rewrite append_nil_r.
  - change (Join (w :: q :: post) " ") with (w ++ (" " ++ Join (q :: post) " "))%string.
    intros H _.
    assert (rest = (" " ++ Join (q :: post) " ")%string).
    { clear -H. induction w as [| x w IH]; simpl in H; [now symmetry |].
      injection H as H. now apply IH. }
    subst rest. reflexivity.
Qed.

Lemma setChar_length (s : string) (i : nat) (c : byte) :
  String.length (setChar s i c) = String.length s.
Proof.
  revert i. induction s as [| x s IH]; intros i; [reflexivity |].
  destruct i; simpl; [reflexivity | now rewrite IH].
Qed.

(** Replacing a byte inside the word at position [length pre] of a joined
    list of 4-letter words replaces it in that word. *)
Lemma setChar_Join (pre : list string) (w : string) (post : list string) (j : nat) (c : byte) :
  Forall (fun x => String.length x = 4%nat) pre ->
  String.length w = 4%nat -> (j < 4)%nat ->
  setChar (Join (pre ++ w :: post) " ") (5 * List.length pre + j) c
  = Join (pre ++ setChar w j c :: post) " ".
Proof.
  intros Hpre Hw Hj. induction Hpre as [| p pre Hp Hpre IH].
  - cbn [app List.length]. rewrite Nat.mul_0_r, Nat.add_0_l.
    destruct (Join_single_or_more w post) as [rest Hrest].
    rewrite Hrest, setChar_append_l by lia.
    symmetry. apply (Join_head w); [exact Hrest |]. now rewrite setChar_length.
  - cbn [app List.length].
    rewrite !Join_cons by (destruct pre; discriminate).
    replace (5 * S (List.length pre) + j)%nat
      with (String.length p + (String.length " " + (5 * List.length pre + j)))%nat
      by (rewrite Hp; simpl; lia).
    rewrite !setChar_append_r, IH. reflexivity.
Qed.

Lemma get_Join (pre : list string) (w : string) (post : list string) (j : nat) :
  Forall (fun x => String.length x = 4%nat) pre ->
  String.length w = 4%nat -> (j < 4)%nat ->
  String.get (5 * List.length pre + j) (Join (pre ++ w :: post) " ") = String.get j w.
Proof.
  intros Hpre Hw Hj. induction Hpre as [| p pre Hp Hpre IH].
  - cbn [app List.length]. rewrite Nat.mul_0_r, Nat.add_0_l.
    destruct (Join_single_or_more w post) as [rest Hrest].
    rewrite Hrest. apply get_append_l. lia.
  - cbn [app List.length].
    rewrite !Join_cons by (destruct pre; discriminate).
    replace (5 * S (List.length pre) + j)%nat
      with (String.length p + (String.length " " + (5 * List.length pre + j)))%nat
      by (rewrite Hp; simpl; lia).
    rewrite !get_append_r. exact IH.
Qed.

Lemma decodeAll_app (pre post : list string) (wordLen : Z) :
  decodeAll (pre ++ post) wordLen
  = (a <- decodeAll pre wordLen ;; b <- decodeAll post wordLen ;; Ok (a ++ b)).
Proof.
  induction pre as [| t pre IH]; simpl.
  - now rewrite bind_ret.
  - destruct (decodeWord t wordLen); simpl; try reflexivity.
    rewrite IH. destruct (decodeAll pre wordLen); simpl; try reflexivity.
    destruct (decodeAll post wordLen); reflexivity.
Qed.

Lemma length_wordOf (b : byte) : String.length (wordOf b) = 4%nat.
Proof.
  destruct (wordOf_shape b) as (c0 & c1 & c2 & c3 & Ew & _). now rewrite Ew.
Qed.

Lemma Forall_length_words (data : list byte) :
  Forall (fun x => String.length x = 4%nat) (map wordOf data).
Proof. apply Forall_forall. intros x Hx. apply in_map_iff in Hx. destruct Hx as (b & <- & _). apply length_wordOf. Qed.

(** The word of [b] with its letter 1 or 2 replaced by another byte that is
    not a space: still free of spaces, and rejected for its middle letters. *)
Lemma corrupt_word (b c : byte) (j : nat) :
  j = 1%nat \/ j = 2%nat ->
  c <> " "%char ->
  String.get j (wordOf b) <> Some c ->
  noSpace (setChar (wordOf b) j c) = true
  /\ decodeWord (setChar (wordOf b) j c) 4 = Err invalidMiddle.
Proof.
  intros Hj Hc Hne.
  destruct (wordOf_shape b) as (c0 & c1 & c2 & c3 & Ew & L0 & L1 & L2 & L3 & _).
  pose proof (noSpace_wordOf b) as Hns. rewrite Ew in Hne, Hns |- *.
  apply byte_eqb_neq in Hc.
  cbn [noSpace] in Hns.
  apply andb_true_iff in Hns. destruct Hns as [N0 Hns].
  apply andb_true_iff in Hns. destruct Hns as [N1 Hns].
  apply andb_true_iff in Hns. destruct Hns as [N2 Hns].
  destruct Hj as [-> | ->]; simpl String.get in Hne; cbn [setChar].
  - split.
    + cbn [noSpace]. now rewrite N0, Hc, N2, Hns.
    + rewrite (decodeWord_standard b c0 c1 c2 c3 c c2 Ew).
      replace (byte_eqb c c1) with false; [reflexivity |].
      symmetry. apply byte_eqb_neq. intros E. apply Hne. now rewrite E.
  - split.
    + cbn [noSpace]. now rewrite N0, N1, Hc, Hns.
    + rewrite (decodeWord_standard b c0 c1 c2 c3 c1 c Ew).
      replace (byte_eqb c c2) with false; [now rewrite andb_false_r |].
      symmetry. apply byte_eqb_neq. intros E. apply Hne. now rewrite E.
Qed.

Lemma split_at {A : Type} (l : list A) (k : nat) :
  (k < List.length l)%nat ->
  exists pre x post, l = pre ++ x :: post /\ List.length pre = k.
Proof.
  revert k. induction l as [| a l IH]; intros k Hk; [simpl in Hk; lia |].
  destruct k as [| k].
  - exists [], a, l. split; reflexivity.
  - destruct (IH k) as (pre & x & post & -> & Hl); [simpl in Hk; lia |].
    exists (a :: pre), x, post. split; [reflexivity | simpl; now rewrite Hl].
Qed.

(** The corruption of an encoder's output: the payload may be the checksum
    alone (an empty [B]), the corrupted word is met before the length check. *)
Lemma corrupt_encoded (B : list byte) (k j : nat) (c : byte) :
  (k < List.length B + 4)%nat ->
  j = 1%nat \/ j = 2%nat ->
  c <> " "%char ->
  String.get (5 * k + j) (encodeStandard B) <> Some c ->
  decode (setChar (encodeStandard B) (5 * k + j) c) 4 " " = Err invalidMiddle.
Proof.
  intros Hk Hj Hc Hne. unfold encodeStandard in *.
  assert (Hlen : List.length (appendCRC B) = (List.length B + 4)%nat)
    by (unfold appendCRC; now rewrite length_app).
  destruct (split_at (appendCRC B) k) as (pre & b & post & Hdata & Hpre); [lia |].
  rewrite Hdata, map_app in *. cbn [map] in *.
  assert (Hj4 : (j < 4)%nat) by (destruct Hj; lia).
  rewrite <- Hpre in *. rewrite <- (length_map wordOf pre) in *.
  rewrite get_Join in Hne
    by (try apply Forall_length_words; try apply length_wordOf; exact Hj4).
  rewrite setChar_Join
    by (try apply Forall_length_words; try apply length_wordOf; exact Hj4).
  destruct (corrupt_word b c j Hj Hc Hne) as [Hns Hdec].
  rewrite decode_stages. unfold tokenize. change (4 =? 4) with true. cbv iota.
  rewrite Split_Join.
  - rewrite bind_Ok, decodeAll_app, decodeAll_wordOf, bind_Ok.
    cbn [decodeAll]. rewrite Hdec. reflexivity.
  - destruct (map wordOf pre); discriminate.
  - rewrite forallb_app. cbn [forallb]. now rewrite !noSpace_words, Hns.
Qed.

(** ** Letter case: the letters [decodeWord] looks up *)

Lemma decodeWord_two (a d : byte) :
  decodeWord (String a (String d "")) 2 = (val <- lookupChars a d ;; Ok (byteOfZ val)).
Proof.
  unfold decodeWord, lookupChars.
  change (len (String a (String d ""))) with 2.
  change (negb (2 =? 2)) with false. change (2 =? 4) with false. cbv iota.
  rewrite strIndex_0, strIndex_1, !bind_Ok. cbv zeta.
  destruct (_ || _); [reflexivity |].
  destruct (arrIndex lookupTable _) as [val | | |]; simpl; try reflexivity.
  destruct (val =? -1); reflexivity.
Qed.

Lemma decodeWord_four (a m1 m2 d : byte) :
  decodeWord (String a (String m1 (String m2 (String d "")))) 4
  = (val <- lookupChars a d ;; _ <- middleCheck m1 m2 val ;; Ok (byteOfZ val)).
Proof.
  unfold decodeWord, lookupChars, middleCheck.
  change (len (String a (String m1 (String m2 (String d ""))))) with 4.
  change (negb (4 =? 4)) with false. change (4 =? 4) with true. cbv iota.
  rewrite strIndex_0, strIndex_1, strIndex_2, strIndex_3, !bind_Ok. cbv zeta.
  destruct (_ || _); [reflexivity |].
  destruct (arrIndex lookupTable _) as [val | | |]; simpl; try reflexivity.
  destruct (val =? -1); [reflexivity |]. simpl.
  destruct (arrIndex words val) as [expected | | |]; reflexivity.
Qed.

Lemma ToLower_lowerByte (c : byte) : ToLower (byteZ (lowerByte c)) = ToLower (byteZ c).
Proof.
  unfold lowerByte. pose proof (byteZ_range c) as Hr.
  destruct ((65 <=? byteZ c) && (byteZ c <=? 90)) eqn:E; [| reflexivity].
  rewrite byteZ_byteOfZ. unfold ToLower at 2. rewrite E.
  apply andb_true_iff in E. destruct E as [E1 E2]. apply Z.leb_le in E1, E2.
  rewrite Z.mod_small by lia. unfold ToLower.
  replace ((65 <=? byteZ c + 32) && (byteZ c + 32 <=? 90)) with false
    by (symmetry; apply andb_false_iff; right; apply Z.leb_gt; lia).
  replace ((192 <=? byteZ c + 32) && (byteZ c + 32 <=? 214)) with false
    by (symmetry; apply andb_false_iff; left; apply Z.leb_gt; lia).
  replace ((216 <=? byteZ c + 32) && (byteZ c + 32 <=? 222)) with false
    by (symmetry; apply andb_false_iff; left; apply Z.leb_gt; lia).
  reflexivity.
Qed.

Lemma lookupChars_lower (a d : byte) :
  lookupChars (lowerByte a) (lowerByte d) = lookupChars a d.
Proof. unfold lookupChars. now rewrite !ToLower_lowerByte. Qed.

Lemma length_toLower (s : string) : String.length (toLower s) = String.length s.
Proof. induction s as [| c s IH]; simpl; [reflexivity | now rewrite IH]. Qed.

Lemma len_toLower (s : string) : len (toLower s) = len s.
Proof. unfold len. now rewrite length_toLower. Qed.

Lemma decodeWord_wrong_length (t : string) (wordLen : Z) :
  len t <> wordLen -> decodeWord t wordLen = Err invalidLength.
Proof. intros H. unfold decodeWord. apply Z.eqb_neq in H. now rewrite H. Qed.

Lemma len_2_inv (t : string) : len t = 2 -> exists a d, t = String a (String d "").
Proof.
  destruct t as [| a [| d [| e t]]]; intros H; try discriminate.
  - now exists a, d.
  - rewrite !len_String in H. pose proof (len_nonneg t). lia.
Qed.

Lemma len_4_inv (t : string) :
  len t = 4 -> exists a m1 m2 d, t = String a (String m1 (String m2 (String d ""))).
Proof.
  destruct t as [| a [| m1 [| m2 [| d [| e t]]]]]; intros H; try discriminate.
  - now exists a, m1, m2, d.
  - rewrite !len_String in H. pose proof (len_nonneg t). lia.
Qed.

Lemma decodeWord_toLower_minimal (t : string) :
  decodeWord (toLower t) 2 = decodeWord t 2.
Proof.
  destruct (Z.eq_dec (len t) 2) as [E | E].
  - destruct (len_2_inv t E) as (a & d & ->). cbn [toLower].
    now rewrite !decodeWord_two, lookupChars_lower.
  - rewrite !decodeWord_wrong_length; [reflexivity | exact E | now rewrite len_toLower].
Qed.

Lemma decodeWord_lowerEnds (t : string) :
  decodeWord (lowerEnds t) 4 = decodeWord t 4.
Proof.
  destruct (Z.eq_dec (len t) 4) as [E | E].
  - destruct (len_4_inv t E) as (a & m1 & m2 & d & ->). cbn [lowerEnds].
    now rewrite !decodeWord_four, lookupChars_lower.
  - destruct t as [| a [| m1 [| m2 [| d [| e t]]]]]; try reflexivity.
    now elim E.
Qed.

Lemma decodeAll_ext (f : string -> string) (wordLen : Z) :
  (forall t, decodeWord (f t) wordLen = decodeWord t wordLen) ->
  forall tokens, decodeAll (map f tokens) wordLen = decodeAll tokens wordLen.
Proof.
  intros Hf. induction tokens as [| t tokens IH]; [reflexivity |].
  cbn [map decodeAll]. now rewrite Hf, IH.
Qed.

Lemma chunksOf_toLower (s : string) :
  forall i n : Z,
    chunksOf (toLower s) i n = (ts <- chunksOf s i n ;; Ok (map toLower ts)).
Proof.
  induction s as [| c | c d s IH] using string_pair_ind; intros i n; try reflexivity.
  cbn [toLower chunksOf]. rewrite IH.
  destruct (chunksOf s (i + 2) n); reflexivity.
Qed.

Lemma decode_toLower_minimal (s sep : string) :
  decode (toLower s) 2 sep = decode s 2 sep.
Proof.
  rewrite !decode_stages, !tokenize_minimal by discriminate.
  rewrite len_toLower, chunksOf_toLower.
  destruct (chunksOf s 0 (len s)) as [ts | | |]; simpl; try reflexivity.
  now rewrite (decodeAll_ext toLower 2 decodeWord_toLower_minimal).
Qed.

Lemma noSpace_append (a b : string) :
  noSpace (a ++ b) = noSpace a && noSpace b.
Proof.
  induction a as [| c a IH]; simpl; [reflexivity |].
  now rewrite IH, andb_assoc.
Qed.

Lemma splitFrom_noSpace (s : string) :
  forall cur, noSpace cur = true -> forallb noSpace (splitFrom " " s 0 cur) = true.
Proof.
  induction s as [| c s IH]; intros cur Hcur.
  - simpl. now rewrite Hcur.
  - cbn [splitFrom]. rewrite prefix_space.
    destruct (byte_eqb " "%char c) eqn:E.
    + cbn [forallb]. rewrite Hcur. apply (IH "" eq_refl).
    + apply IH. rewrite noSpace_append, Hcur. cbn [noSpace].
      unfold byte_eqb in *. now rewrite Ascii.eqb_sym, E.
Qed.

Lemma splitFrom_nonempty (sep s : string) :
  forall skip cur, splitFrom sep s skip cur <> [].
Proof.
  induction s as [| c s IH]; intros skip cur; [discriminate |].
  cbn [splitFrom]. destruct skip; [| apply IH].
  destruct (String.prefix sep (String c s)); [discriminate | apply IH].
Qed.

Lemma lowerByte_space (c : byte) : byte_eqb (lowerByte c) " "%char = byte_eqb c " "%char.
Proof.
  unfold lowerByte. destruct ((65 <=? byteZ c) && (byteZ c <=? 90)) eqn:E; [| reflexivity].
  apply andb_true_iff in E. destruct E as [E1 E2]. apply Z.leb_le in E1, E2.
  transitivity false; [| symmetry]; apply byte_eqb_neq; intros H.
  - apply (f_equal byteZ) in H. rewrite byteZ_byteOfZ, Z.mod_small in H by lia.
    change (byteZ " "%char) with 32 in H. lia.
  - subst c. change (byteZ " "%char) with 32 in E1. lia.
Qed.

Lemma noSpace_lowerEnds (t : string) : noSpace (lowerEnds t) = noSpace t.
Proof.
  destruct t as [| a [| m1 [| m2 [| d [| e t]]]]]; try reflexivity.
  cbn [lowerEnds noSpace]. now rewrite !lowerByte_space.
Qed.

Lemma decode_lowerEnds_standard (s : string) :
  decode (Join (map lowerEnds (Split s " ")) " ") 4 " " = decode s 4 " ".
Proof.
  rewrite !decode_stages. unfold tokenize. change (4 =? 4) with true. cbv iota.
  rewrite !bind_Ok, Split_Join.
  - now rewrite (decodeAll_ext lowerEnds 4 decodeWord_lowerEnds).
  - unfold Split. pose proof (splitFrom_nonempty " " s 0 "") as H.
    destruct (splitFrom " " s 0 ""); [congruence | discriminate].
  - unfold Split. pose proof (splitFrom_noSpace s "" eq_refl) as H.
    induction (splitFrom " " s 0 "") as [| t ts IH]; [reflexivity |].
    cbn [map forallb] in *. apply andb_true_iff in H. destruct H as [Ht Hts].
    now rewrite noSpace_lowerEnds, Ht, IH.
Qed.

Lemma letter_range (c : byte) :
  letter c = true <->
  0 <= ToLower (byteZ c) - byteZ "a"%char < 26.
Proof.
  unfold letter. change (byteZ "a"%char) with 97.
  rewrite andb_true_iff, !Z.leb_le. lia.
Qed.

Lemma range_check_letters (a d : byte) :
  let x := ToLower (byteZ a) - byteZ "a"%char in
  let y := ToLower (byteZ d) - byteZ "a"%char in
  (x <? 0) || (x >=? 26) || (y <? 0) || (y >=? 26) = negb (letter a && letter d).
Proof.
  cbv zeta. destruct (letter a) eqn:Ea, (letter d) eqn:Ed; cbn [andb negb].
  - apply letter_range in Ea, Ed.
    repeat (apply orb_false_iff; split);
      first [apply Z.ltb_ge; lia | rewrite Z.geb_leb; apply Z.leb_gt; lia].
  - assert (H : ~ 0 <= ToLower (byteZ d) - byteZ "a"%char < 26)
      by (rewrite <- letter_range; congruence).
    rewrite <- orb_assoc. apply orb_true_iff. right.
    apply orb_true_iff. rewrite Z.ltb_lt, Z.geb_leb, Z.leb_le. lia.
  - assert (H : ~ 0 <= ToLower (byteZ a) - byteZ "a"%char < 26)
      by (rewrite <- letter_range; congruence).
    rewrite <- !orb_assoc. rewrite orb_assoc. apply orb_true_iff. left.
    apply orb_true_iff. rewrite Z.ltb_lt, Z.geb_leb, Z.leb_le. lia.
  - assert (H : ~ 0 <= ToLower (byteZ a) - byteZ "a"%char < 26)
      by (rewrite <- letter_range; congruence).
    rewrite <- !orb_assoc. rewrite orb_assoc. apply orb_true_iff. left.
    apply orb_true_iff. rewrite Z.ltb_lt, Z.geb_leb, Z.leb_le. lia.
Qed.

Lemma lookupChars_cases (a d : byte) :
  lookupChars a d
  = if letter a && letter d
    then val <- arrIndex lookupTable (lookupOffset a d) ;;
         if val =? -1 then Err invalidBytewords else Ok val
    else Err invalidBytewords.
Proof.
  unfold lookupChars, lookupOffset. cbv zeta.
  pose proof (range_check_letters a d) as H. cbv zeta in H. rewrite H.
  destruct (letter a && letter d); reflexivity.
Qed.

Lemma lookupTable_defined (a d : byte) :
  letter a && letter d = true ->
  exists val, arrIndex lookupTable (lookupOffset a d) = Ok val.
Proof.
  intros H. apply andb_true_iff in H. destruct H as [Ha Hd].
  apply letter_range in Ha, Hd. unfold arrIndex.
  change (lenS lookupTable) with 676.
  assert (Ho : 0 <= lookupOffset a d < 676) by (unfold lookupOffset; lia).
  replace ((lookupOffset a d <? 0) || (676 <=? lookupOffset a d)) with false
    by (symmetry; apply orb_false_iff; split; [apply Z.ltb_ge | apply Z.leb_gt]; lia).
  destruct (nth_error lookupTable (Z.to_nat (lookupOffset a d))) as [val |] eqn:E.
  - now exists val.
  - apply nth_error_None in E. change (List.length lookupTable) with 676%nat in E. lia.
Qed.

Lemma arrIndex_not_Err {A : Type} (l : list A) (i : Z) (e : error) :
  arrIndex l i <> Err e.
Proof.
  unfold arrIndex. destruct (_ || _); [discriminate |].
  destruct (nth_error l (Z.to_nat i)); discriminate.
Qed.

Lemma strIndex_not_Err (s : string) (i : Z) (e : error) : strIndex s i <> Err e.
Proof.
  unfold strIndex. destruct (_ || _); [discriminate |].
  destruct (String.get (Z.to_nat i) s); discriminate.
Qed.

Lemma middleCheck_not_invalidBytewords (m1 m2 : byte) (val : Z) :
  middleCheck m1 m2 val <> Err invalidBytewords.
Proof.
  unfold middleCheck.
  destruct (arrIndex words val) as [expected | e | p | msg] eqn:Ew; simpl;
    try discriminate; [| now apply arrIndex_not_Err in Ew].
  destruct (strIndex expected 1) as [e1 | e | p | msg] eqn:E1; simpl;
    try discriminate; [| now apply strIndex_not_Err in E1].
  destruct (negb (byte_eqb m1 e1)); [discriminate |].
  destruct (strIndex expected 2) as [e2 | e | p | msg] eqn:E2; simpl;
    try discriminate; [| now apply strIndex_not_Err in E2].
  destruct (negb (byte_eqb m2 e2)); discriminate.
Qed.

(** What a successful standard token looks like: its middle letters are
    those of the word of the byte it decodes to, hence lower-case letters. *)
Lemma decodeWord_four_Ok (a m1 m2 d b : byte) :
  decodeWord (String a (String m1 (String m2 (String d "")))) 4 = Ok b ->
  exists c0 c3,
    wordOf b = String c0 (String m1 (String m2 (String c3 "")))
    /\ isLower m1 = true /\ isLower m2 = true.
Proof.
  rewrite decodeWord_four. intros H.
  apply bind_Ok_inv in H. destruct H as (val & _ & H).
  apply bind_Ok_inv in H. destruct H as ([] & Hm & H). injection H as <-.
  unfold middleCheck in Hm.
  apply bind_Ok_inv in Hm. destruct Hm as (expected & Hw & Hm).
  assert (Hval : 0 <= val < 256).
  { unfold arrIndex in Hw. change (lenS words) with 256 in Hw.
    destruct ((val <? 0) || (256 <=? val)) eqn:E; [discriminate |].
    apply orb_false_iff in E. destruct E as [E1 E2].
    apply Z.ltb_ge in E1. apply Z.leb_gt in E2. lia. }
  destruct (wordOf_shape (byteOfZ val))
    as (c0 & c1 & c2 & c3 & Ew & _ & L1 & L2 & _ & Hw' & _).
  rewrite byteZ_byteOfZ, Z.mod_small in Hw' by exact Hval.
  rewrite Hw' in Hw. injection Hw as <-. rewrite Ew in Hm.
  rewrite strIndex_1, bind_Ok in Hm.
  destruct (byte_eqb m1 c1) eqn:E1; [| discriminate].
  change (negb true) with false in Hm. cbv iota in Hm.
  rewrite strIndex_2, bind_Ok in Hm.
  destruct (byte_eqb m2 c2) eqn:E2; [| discriminate].
  apply byte_eqb_eq in E1, E2. subst c1 c2.
  exists c0, c3. repeat split; assumption.
Qed.

(** ** C7: a corrupted interior letter in the standard variant *)

Lemma Join_splitFrom (s : string) :
  forall cur, Join (splitFrom " " s 0 cur) " " = (cur ++ s)%string.
Proof.
  induction s as [| c s IH]; intros cur.
  - simpl. now rewrite append_nil_r.
  - cbn [splitFrom]. rewrite prefix_space.
    destruct (byte_eqb " "%char c) eqn:E.
    + apply byte_eqb_eq in E. subst c.
      change (String.length " " - 1)%nat with 0%nat.
      rewrite Join_cons by apply splitFrom_nonempty.
      rewrite (IH ""). reflexivity.
    + rewrite IH, append_assoc. reflexivity.
Qed.

Lemma decodeAll_Ok_app (pre : list string) (t : string) (post : list string)
      (wordLen : Z) (buf : list byte) :
  decodeAll (pre ++ t :: post) wordLen = Ok buf ->
  exists a b, decodeAll pre wordLen = Ok a /\ decodeWord t wordLen = Ok b.
Proof.
  rewrite decodeAll_app. intros H.
  apply bind_Ok_inv in H. destruct H as (a & Ha & H).
  apply bind_Ok_inv in H. destruct H as (rest & Hrest & _).
  cbn [decodeAll] in Hrest.
  apply bind_Ok_inv in Hrest. destruct Hrest as (b & Hb & _).
  now exists a, b.
Qed.

Lemma decodeWord_Ok_len (t : string) (wordLen : Z) (b : byte) :
  decodeWord t wordLen = Ok b -> len t = wordLen.
Proof.
  intros H. destruct (Z.eq_dec (len t) wordLen) as [E | E]; [exact E |].
  rewrite (decodeWord_wrong_length t wordLen E) in H. discriminate.
Qed.

Lemma decodeAll_Ok_len (tokens : list string) (buf : list byte) :
  decodeAll tokens 4 = Ok buf -> Forall (fun t => String.length t = 4%nat) tokens.
Proof.
  revert buf. induction tokens as [| t tokens IH]; intros buf H; [constructor |].
  cbn [decodeAll] in H.
  apply bind_Ok_inv in H. destruct H as (b & Hb & H).
  apply bind_Ok_inv in H. destruct H as (bs & Hbs & _).
  constructor; [| exact (IH bs Hbs)].
  apply decodeWord_Ok_len in Hb. unfold len in Hb. lia.
Qed.

Lemma noSpace_setChar (t : string) (j : nat) (c : byte) :
  noSpace t = true -> c <> " "%char -> noSpace (setChar t j c) = true.
Proof.
  intros Ht Hc. apply byte_eqb_neq in Hc. revert j.
  induction t as [| x t IH]; intros j; [reflexivity |].
  cbn [noSpace] in Ht. apply andb_true_iff in Ht. destruct Ht as [Hx Ht].
  destruct j as [| j]; cbn [setChar noSpace].
  - now rewrite Hc, Ht.
  - now rewrite Hx, (IH Ht).
Qed.

(** A standard token that decodes no longer does once its letter 1 or 2 is
    another byte: the middle letters are compared with the table word. *)
Lemma corrupt_token (a m1 m2 d b c : byte) (j : nat) :
  decodeWord (String a (String m1 (String m2 (String d "")))) 4 = Ok b ->
  j = 1%nat \/ j = 2%nat ->
  String.get j (String a (String m1 (String m2 (String d "")))) <> Some c ->
  decodeWord (setChar (String a (String m1 (String m2 (String d "")))) j c) 4
  = Err invalidMiddle.
Proof.
  intros H Hj Hne. rewrite decodeWord_four in H.
  apply bind_Ok_inv in H. destruct H as (val & Hval & H).
  apply bind_Ok_inv in H. destruct H as ([] & Hm & _).
  unfold middleCheck in Hm.
  apply bind_Ok_inv in Hm. destruct Hm as (expected & Hexp & Hm).
  apply bind_Ok_inv in Hm. destruct Hm as (e1 & He1 & Hm).
  destruct (byte_eqb m1 e1) eqn:E1; [| discriminate].
  change (negb true) with false in Hm. cbv iota in Hm.
  apply bind_Ok_inv in Hm. destruct Hm as (e2 & He2 & Hm).
  destruct (byte_eqb m2 e2) eqn:E2; [| discriminate].
  apply byte_eqb_eq in E1, E2. subst e1 e2.
  destruct Hj as [-> | ->]; simpl String.get in Hne; cbn [setChar];
    rewrite decodeWord_four, Hval, bind_Ok; unfold middleCheck;
    rewrite Hexp, bind_Ok, He1, bind_Ok.
  - replace (byte_eqb c m1) with false; [reflexivity |].
    symmetry. apply byte_eqb_neq. intros E. apply Hne. now rewrite E.
  - rewrite byte_eqb_refl. change (negb true) with false. cbv iota.
    rewrite He2, bind_Ok.
    replace (byte_eqb c m2) with false; [reflexivity |].
    symmetry. apply byte_eqb_neq. intros E. apply Hne. now rewrite E.
Qed.

(** The corruption of any string that [decode] accepts. *)
Lemma corrupt_accepted (s : string) (body : list byte) (k j : nat) (c : byte) :
  decode s 4 " " = Ok body ->
  (k < List.length (Split s " "))%nat ->
  j = 1%nat \/ j = 2%nat ->
  c <> " "%char ->
  String.get (5 * k + j) s <> Some c ->
  decode (setChar s (5 * k + j) c) 4 " " = Err invalidMiddle.
Proof.
  intros Hdec Hk Hj Hc Hne.
  assert (Hs : Join (Split s " ") " " = s) by (unfold Split; apply (Join_splitFrom s "")).
  assert (Hns : forallb noSpace (Split s " ") = true)
    by (unfold Split; apply splitFrom_noSpace; reflexivity).
  rewrite decode_stages in Hdec. unfold tokenize in Hdec.
  change (4 =? 4) with true in Hdec. cbv iota in Hdec. rewrite bind_Ok in Hdec.
  apply bind_Ok_inv in Hdec. destruct Hdec as (buf & Hbuf & _).
  destruct (split_at (Split s " ") k Hk) as (pre & t & post & Htok & Hpre).
  rewrite Htok in Hs, Hns, Hbuf. clear Htok Hk.
  pose proof (decodeAll_Ok_len _ _ Hbuf) as Hlen.
  apply Forall_app in Hlen. destruct Hlen as [Hlpre Hlt].
  apply Forall_cons_iff in Hlt. destruct Hlt as [Hlt _].
  destruct (decodeAll_Ok_app pre t post 4 buf Hbuf) as (bs & b & Hpre_ok & Ht_ok).
  rewrite forallb_app in Hns. apply andb_true_iff in Hns. destruct Hns as [Hnpre Hnt].
  cbn [forallb] in Hnt. apply andb_true_iff in Hnt. destruct Hnt as [Hnt Hnpost].
  assert (Hj4 : (j < 4)%nat) by (destruct Hj; lia).
  subst s k.
  rewrite get_Join in Hne by assumption.
  rewrite setChar_Join by assumption.
  assert (Ht4 : len t = 4) by (unfold len; lia).
  destruct (len_4_inv t Ht4) as (a & m1 & m2 & d & ->).
  pose proof (corrupt_token a m1 m2 d b c j Ht_ok Hj Hne) as Hbad.
  pose proof (noSpace_setChar _ j c Hnt Hc) as Hnbad.
  rewrite decode_stages. unfold tokenize. change (4 =? 4) with true. cbv iota.
  rewrite Split_Join.
  - rewrite bind_Ok, decodeAll_app, Hpre_ok, bind_Ok.
    cbn [decodeAll]. rewrite Hbad. reflexivity.
  - destruct pre; discriminate.
  - rewrite forallb_app. cbn [forallb]. now rewrite Hnpre, Hnbad, Hnpost.
Qed.

(** C7, as the code has it. Replacing letter 1 or 2 of one word by a
    different byte other than the separator makes [decode] fail with
    "invalid bytewords middle chars", both in the standard encoding of any
    byte sequence and in any string that the standard variant accepts. *)
Theorem corrupt_interior_detected :
  (forall (B : list byte) (k j : nat) (c : byte),
      (k < List.length B + 4)%nat ->
      j = 1%nat \/ j = 2%nat ->
      c <> " "%char ->
      String.get (5 * k + j) (encodeStandard B) <> Some c ->
      decode (setChar (encodeStandard B) (5 * k + j) c) 4 " " = Err invalidMiddle)
  /\ (forall (s : string) (body : list byte) (k j : nat) (c : byte),
        decode s 4 " " = Ok body ->
        (k < List.length (Split s " "))%nat ->
        j = 1%nat \/ j = 2%nat ->
        c <> " "%char ->
        String.get (5 * k + j) s <> Some c ->
        decode (setChar s (5 * k + j) c) 4 " " = Err invalidMiddle).
Proof. split; [exact corrupt_encoded | exact corrupt_accepted]. Qed.

(** The letter [s] of the second word of [able tied also webs lung]
    replaced by [x]. *)
Lemma corrupt_interior_detected_witness :
  decode "able tied also webs lung" 4 " " = Ok [byteOfZ 0]
  /\ (1 < List.length (Split "able tied also webs lung" " "))%nat
  /\ (2 = 1 \/ 2 = 2)%nat
  /\ "x"%char <> " "%char
  /\ String.get (5 * 1 + 2) "able tied also webs lung" <> Some "x"%char
  /\ decode (setChar "able tied also webs lung" (5 * 1 + 2) "x"%char) 4 " "
     = Err invalidMiddle.
Proof.
  assert (H0 : decode "able tied also webs lung" 4 " " = Ok [byteOfZ 0])
    by (vm_compute; reflexivity).
  assert (H1 : (1 < List.length (Split "able tied also webs lung" " "))%nat)
    by (vm_compute; lia).
  assert (H2 : (2 = 1 \/ 2 = 2)%nat) by (right; reflexivity).
  assert (H3 : "x"%char <> " "%char) by discriminate.
  assert (H4 : String.get (5 * 1 + 2) "able tied also webs lung" <> Some "x"%char)
    by (vm_compute; discriminate).
  split; [exact H0 |]. split; [exact H1 |]. split; [exact H2 |].
  split; [exact H3 |]. split; [exact H4 |].
  exact (proj2 corrupt_interior_detected "able tied also webs lung" [byteOfZ 0]
           1%nat 2%nat "x"%char H0 H1 H2 H3 H4).
Defined.

(** C7, as the spec states it, fails when the replacement is the separator:
    the word falls into two short tokens, and the error is the one for a
    token of the wrong length. *)
Lemma corrupt_interior_with_separator :
  encodeStandard [byteOfZ 0] = "able tied also webs lung"
  /\ setChar "able tied also webs lung" 1 " "%char = "a le tied also webs lung"
  /\ decode "a le tied also webs lung" 4 " " = Err invalidLength
  /\ invalidLength <> invalidMiddle.
Proof.
  split; [vm_compute; reflexivity |]. split; [reflexivity |].
  split; [vm_compute; reflexivity | discriminate].
Qed.

(** ** C2 and C6: failures of the [Decode] pipeline *)

Lemma okOrPanic_bind {A B : Type} (m : outcome A) (k : A -> outcome B) :
  okOrPanic m -> (forall a, okOrPanic (k a)) -> okOrPanic (bind m k).
Proof. destruct m; simpl; intros H Hk; try contradiction; [apply Hk | exact I]. Qed.

Lemma okOrPanic_arrIndex {A : Type} (l : list A) (i : Z) : okOrPanic (arrIndex l i).
Proof.
  unfold arrIndex. destruct (_ || _); [exact I |].
  destruct (nth_error l (Z.to_nat i)); exact I.
Qed.

Section PipelineProperties.

Variable float64 : Type.
Variable intOfFloat64 : float64 -> Z.
Variable cborValue : Type.
Variable gzipReader : Type.
Variable cborUnmarshalBytes : list byte -> outcome (list byte).
Variable gzipNewReader : list byte -> outcome gzipReader.
Variable ioReadAll : gzipReader -> outcome (list byte).
Variable cborUnmarshalAny : list byte -> outcome cborValue.
Variable jsonMarshalIndent : cborValue -> outcome (list byte).
Variable jsonUnmarshalSlice : list byte -> outcome (list (Pipeline.any float64)).

Local Abbreviation value := (Pipeline.any float64).
Local Abbreviation mapAccount := (Pipeline.mapAccount float64 intOfFloat64).
Local Abbreviation mapAccounts := (Pipeline.mapAccounts float64 intOfFloat64).
Local Abbreviation mapRecords := (Pipeline.mapRecords float64 intOfFloat64).
Local Abbreviation intAt := (Pipeline.intAt float64 intOfFloat64).
Local Abbreviation stringAt := (Pipeline.stringAt float64).
Local Abbreviation boolAt := (Pipeline.boolAt float64).
Local Abbreviation sliceAt := (Pipeline.sliceAt float64).
Local Abbreviation ASlice := (@Pipeline.ASlice float64).
Local Abbreviation rawTree :=
  (Pipeline.rawTree float64 cborValue gzipReader cborUnmarshalBytes gzipNewReader
                    ioReadAll cborUnmarshalAny jsonMarshalIndent jsonUnmarshalSlice).
Local Abbreviation Decode :=
  (Pipeline.Decode float64 intOfFloat64 cborValue gzipReader cborUnmarshalBytes gzipNewReader
          ioReadAll cborUnmarshalAny jsonMarshalIndent jsonUnmarshalSlice).

Lemma okOrPanic_intAt (a : list value) (i : Z) : okOrPanic (intAt a i).
Proof.
  unfold Pipeline.intAt. apply okOrPanic_bind; [apply okOrPanic_arrIndex |].
  intros v. destruct v; exact I.
Qed.

Lemma okOrPanic_stringAt (a : list value) (i : Z) : okOrPanic (stringAt a i).
Proof.
  unfold Pipeline.stringAt. apply okOrPanic_bind; [apply okOrPanic_arrIndex |].
  intros v. destruct v; exact I.
Qed.

Lemma okOrPanic_boolAt (a : list value) (i : Z) : okOrPanic (boolAt a i).
Proof.
  unfold Pipeline.boolAt. apply okOrPanic_bind; [apply okOrPanic_arrIndex |].
  intros v. destruct v; exact I.
Qed.

Lemma okOrPanic_sliceAt (a : list value) (i : Z) : okOrPanic (sliceAt a i).
Proof.
  unfold Pipeline.sliceAt. apply okOrPanic_bind; [apply okOrPanic_arrIndex |].
  intros v. destruct v; exact I.
Qed.

Lemma okOrPanic_mapAccount (a : value) : okOrPanic (mapAccount a).
Proof.
  unfold Pipeline.mapAccount.
  apply okOrPanic_bind; [destruct a; exact I | intros arr].
  apply okOrPanic_bind; [apply okOrPanic_sliceAt | intros w].
  repeat (apply okOrPanic_bind;
          [first [apply okOrPanic_intAt | apply okOrPanic_stringAt | apply okOrPanic_boolAt]
          | intros ?]).
  exact I.
Qed.

Lemma okOrPanic_mapAccounts (accList : list value) :
  forall accounts, okOrPanic (mapAccounts accList accounts).
Proof.
  induction accList as [| a accList IH]; intros accounts; [exact I |].
  cbn [Pipeline.mapAccounts]. apply okOrPanic_bind; [apply okOrPanic_mapAccount |].
  intros account. apply IH.
Qed.

Lemma okOrPanic_mapRecords (raw : list value) : okOrPanic (mapRecords raw).
Proof.
  unfold Pipeline.mapRecords.
  apply okOrPanic_bind; [apply okOrPanic_intAt | intros version].
  apply okOrPanic_bind; [apply okOrPanic_sliceAt | intros accList].
  apply okOrPanic_bind; [apply okOrPanic_mapAccounts | intros accounts]. exact I.
Qed.

Lemma okOrPanic_Panic {A : Type} (o : outcome A) :
  okOrPanic o -> (forall a, o <> Ok a) -> exists p, o = Panic p.
Proof.
  destruct o as [a | e | p | msg]; simpl; intros H Hne; try contradiction.
  - now elim (Hne a).
  - now exists p.
Qed.

(** An account entry with four elements stops the loop over the accounts:
    [arr[4]] is out of range. *)
Lemma mapAccount_short (arr : list value) :
  List.length arr = 4%nat -> mapAccount (ASlice arr) = Panic (IndexOutOfRange 4 4).
Proof.
  intros H. unfold Pipeline.mapAccount. cbn [Pipeline.assertSlice bind].
  unfold Pipeline.sliceAt, arrIndex, lenS. rewrite H. reflexivity.
Qed.

Lemma mapAccounts_short (accList : list value) (arr : list value) :
  In (ASlice arr) accList -> List.length arr = 4%nat ->
  forall accounts, exists p, mapAccounts accList accounts = Panic p.
Proof.
  intros Hin Hlen. induction accList as [| a accList IH]; intros accounts;
    [contradiction |].
  cbn [Pipeline.mapAccounts]. destruct Hin as [-> | Hin].
  - rewrite (mapAccount_short arr Hlen). now exists (IndexOutOfRange 4 4).
  - pose proof (okOrPanic_mapAccount a) as Ha.
    destruct (mapAccount a) as [account | e | p | msg]; try contradiction.
    + apply (IH Hin).
    + now exists p.
Qed.

Lemma mapRecords_short (raw accList arr : list value) :
  nth_error raw 1 = Some (ASlice accList) ->
  In (ASlice arr) accList -> List.length arr = 4%nat ->
  exists p, mapRecords raw = Panic p.
Proof.
  intros Hraw Hin Hlen. unfold Pipeline.mapRecords.
  pose proof (okOrPanic_intAt raw 0) as Hv.
  destruct (intAt raw 0) as [version | e | p | msg];
    try contradiction; [| now exists p].
  rewrite bind_Ok.
  assert (Hs : sliceAt raw 1 = Ok accList).
  { unfold Pipeline.sliceAt, arrIndex.
    assert (Hl : (1 < List.length raw)%nat) by (apply nth_error_Some; congruence).
    replace ((1 <? 0) || (lenS raw <=? 1)) with false
      by (symmetry; apply orb_false_iff; split; [reflexivity | apply Z.leb_gt; unfold lenS; lia]).
    change (Z.to_nat 1) with 1%nat. rewrite Hraw. reflexivity. }
  rewrite Hs, bind_Ok.
  destruct (mapAccounts_short accList arr Hin Hlen []) as [p Hp].
  rewrite Hp. now exists p.
Qed.

Lemma Decode_rawTree (input : string) :
  Decode input = (raw <- rawTree input ;; mapRecords raw).
Proof.
  unfold Pipeline.Decode, Pipeline.rawTree. rewrite !bind_assoc.
  destruct (orFatal _ (decode input 2 "")); simpl; try reflexivity.
  destruct (orFatal _ (cborUnmarshalBytes a)); simpl; try reflexivity.
  destruct (orFatal _ (gzipNewReader a0)); simpl; try reflexivity.
  destruct (orFatal _ (ioReadAll a1)); simpl; try reflexivity.
  destruct (orFatal _ (cborUnmarshalAny a2)); simpl; try reflexivity.
  destruct (dropError _ (jsonMarshalIndent a3)); simpl; reflexivity.
Qed.

Lemma notErr_bind {A B : Type} (m : outcome A) (k : A -> outcome B) :
  notErr m -> (forall a, notErr (k a)) -> notErr (bind m k).
Proof.
  intros Hm Hk e. destruct m as [a | e' | p | msg]; simpl; try discriminate.
  - apply Hk.
  - now elim (Hm e').
Qed.

Lemma notErr_orFatal {A : Type} (prefix : string) (m : outcome A) :
  notErr (orFatal prefix m).
Proof. intros e. destruct m; discriminate. Qed.

Lemma notErr_orPanic {A : Type} (m : outcome A) : notErr (orPanic m).
Proof. intros e. destruct m; discriminate. Qed.

Lemma notErr_dropError {A : Type} (zero : A) (m : outcome A) : notErr (dropError zero m).
Proof. intros e. destruct m; discriminate. Qed.

Lemma notErr_okOrPanic {A : Type} (o : outcome A) : okOrPanic o -> notErr o.
Proof. intros H e. destruct o; simpl in H; try contradiction; discriminate. Qed.

Lemma notErr_Decode (input : string) : notErr (Decode input).
Proof.
  unfold Pipeline.Decode.
  repeat (apply notErr_bind;
          [first [apply notErr_orFatal | apply notErr_dropError | apply notErr_orPanic]
          | intros ?]).
  apply notErr_okOrPanic, okOrPanic_mapRecords.
Qed.

(** C2, as the code has it. [Decode] has no error result.  A failure of the
    bytewords decode, of the outer container decode, of either gzip step or
    of the inner container decode ends in [log.Fatal] with the message of the
    stage: the process exits and nothing reaches the caller.  A failure to
    read the re-encoded JSON or of the record mapping is a panic.  In every
    case the decode stops at the failing stage, and a [Root] is returned only
    when every stage succeeded, as the record mapping of the whole tree.
    (The functions read [words] and [lookupTable] and never write them.) *)
Theorem Decode_failure_aborts (input : string) :
  (forall e, decode input 2 "" = Err e ->
     Decode input = Fatal ("Bytewords decode failed:" ++ Error e))
  /\ (forall decoded e,
        decode input 2 "" = Ok decoded ->
        cborUnmarshalBytes decoded = Err e ->
        Decode input = Fatal ("CBOR outer decode failed:" ++ Error e))
  /\ (forall decoded outer e,
        decode input 2 "" = Ok decoded ->
        cborUnmarshalBytes decoded = Ok outer ->
        gzipNewReader outer = Err e ->
        Decode input = Fatal ("gzip reader failed:" ++ Error e))
  /\ (forall decoded outer gr e,
        decode input 2 "" = Ok decoded ->
        cborUnmarshalBytes decoded = Ok outer ->
        gzipNewReader outer = Ok gr ->
        ioReadAll gr = Err e ->
        Decode input = Fatal ("gzip read failed:" ++ Error e))
  /\ (forall decoded outer gr unzipped e,
        decode input 2 "" = Ok decoded ->
        cborUnmarshalBytes decoded = Ok outer ->
        gzipNewReader outer = Ok gr ->
        ioReadAll gr = Ok unzipped ->
        cborUnmarshalAny unzipped = Err e ->
        Decode input = Fatal ("Inner CBOR decode failed:" ++ Error e))
  /\ (forall decoded outer gr unzipped inner j e,
        decode input 2 "" = Ok decoded ->
        cborUnmarshalBytes decoded = Ok outer ->
        gzipNewReader outer = Ok gr ->
        ioReadAll gr = Ok unzipped ->
        cborUnmarshalAny unzipped = Ok inner ->
        dropError [] (jsonMarshalIndent inner) = Ok j ->
        jsonUnmarshalSlice j = Err e ->
        Decode input = Panic (PanicError e))
  /\ (forall raw p,
        rawTree input = Ok raw -> mapRecords raw = Panic p -> Decode input = Panic p)
  /\ (forall root,
        Decode input = Ok root ->
        exists decoded outer gr unzipped inner j raw,
          decode input 2 "" = Ok decoded
          /\ cborUnmarshalBytes decoded = Ok outer
          /\ gzipNewReader outer = Ok gr
          /\ ioReadAll gr = Ok unzipped
          /\ cborUnmarshalAny unzipped = Ok inner
          /\ dropError [] (jsonMarshalIndent inner) = Ok j
          /\ jsonUnmarshalSlice j = Ok raw
          /\ mapRecords raw = Ok root)
  /\ (forall e, Decode input <> Err e).
Proof.
  unfold Pipeline.Decode.
  split; [intros e H0; now rewrite H0 |].
  split; [intros decoded e H0 H1; rewrite H0; cbn [orFatal bind]; now rewrite H1 |].
  split; [intros decoded outer e H0 H1 H2; rewrite H0; cbn [orFatal bind];
          rewrite H1; cbn [orFatal bind]; now rewrite H2 |].
  split; [intros decoded outer gr e H0 H1 H2 H3; rewrite H0; cbn [orFatal bind];
          rewrite H1; cbn [orFatal bind]; rewrite H2; cbn [orFatal bind];
          now rewrite H3 |].
  split; [intros decoded outer gr unzipped e H0 H1 H2 H3 H4; rewrite H0;
          cbn [orFatal bind]; rewrite H1; cbn [orFatal bind]; rewrite H2;
          cbn [orFatal bind]; rewrite H3; cbn [orFatal bind]; now rewrite H4 |].
  split; [intros decoded outer gr unzipped inner j e H0 H1 H2 H3 H4 H5 H6; rewrite H0;
          cbn [orFatal bind]; rewrite H1; cbn [orFatal bind]; rewrite H2;
          cbn [orFatal bind]; rewrite H3; cbn [orFatal bind]; rewrite H4;
          cbn [orFatal bind]; rewrite H5; cbn [bind]; now rewrite H6 |].
  split.
  { intros raw p Htree Hp. fold (Decode input). now rewrite Decode_rawTree, Htree, bind_Ok. }
  split; [| exact (notErr_Decode input)].
  intros root H.
  destruct (decode input 2 "") as [decoded | | |] eqn:E0; try discriminate.
  cbn [orFatal bind] in H.
  destruct (cborUnmarshalBytes decoded) as [outer | | |] eqn:E1; try discriminate.
  cbn [orFatal bind] in H.
  destruct (gzipNewReader outer) as [gr | | |] eqn:E2; try discriminate.
  cbn [orFatal bind] in H.
  destruct (ioReadAll gr) as [unzipped | | |] eqn:E3; try discriminate.
  cbn [orFatal bind] in H.
  destruct (cborUnmarshalAny unzipped) as [inner | | |] eqn:E4; try discriminate.
  cbn [orFatal bind] in H.
  destruct (dropError [] (jsonMarshalIndent inner)) as [j | | |] eqn:E5; try discriminate.
  cbn [bind] in H.
  destruct (jsonUnmarshalSlice j) as [raw | | |] eqn:E6; try discriminate.
  cbn [orPanic bind] in H.
  exists decoded, outer, gr, unzipped, inner, j, raw.
  repeat split; assumption.
Qed.

(** C6, as the code has it. When the value tree has, in the account list at
    index 1, an entry with only 4 elements, the record mapping aborts with a
    run-time panic (a failed index or type assertion; the code has no error
    value for a schema mismatch) and returns no [Root], so no partial
    [Account] or [Root] exists; and [Decode] on an input whose stages yield
    that tree panics and returns no [Root]. *)
Theorem short_account_entry_rejected (raw accList arr : list value) :
  nth_error raw 1 = Some (ASlice accList) ->
  In (ASlice arr) accList ->
  List.length arr = 4%nat ->
  (exists p, mapRecords raw = Panic p)
  /\ (forall root, mapRecords raw <> Ok root)
  /\ (forall input, rawTree input = Ok raw ->
        (exists p, Decode input = Panic p) /\ forall root, Decode input <> Ok root).
Proof.
  intros Hraw Hin Hlen.
  destruct (mapRecords_short raw accList arr Hraw Hin Hlen) as [p Hp].
  split; [now exists p |]. split; [intros root; rewrite Hp; discriminate |].
  intros input Htree. rewrite Decode_rawTree, Htree, bind_Ok, Hp.
  split; [now exists p | discriminate].
Qed.

End PipelineProperties.

(** The schema-violation tree, with collaborators that let every library
    stage succeed. *)
Lemma short_account_entry_rejected_witness :
  nth_error shortTree 1 = Some (Pipeline.ASlice shortAccounts)
  /\ In (Pipeline.ASlice shortEntry) shortAccounts
  /\ List.length shortEntry = 4%nat
  /\ (exists p, Pipeline.mapRecords Z (fun f => f) shortTree = Panic p)
  /\ (forall root, Pipeline.mapRecords Z (fun f => f) shortTree <> Ok root)
  /\ (forall input,
        testRawTree input = Ok shortTree ->
        (exists p, testDecode input = Panic p)
        /\ forall root, testDecode input <> Ok root).
Proof.
  assert (H1 : nth_error shortTree 1 = Some (Pipeline.ASlice shortAccounts))
    by reflexivity.
  assert (H2 : In (Pipeline.ASlice shortEntry) shortAccounts) by (left; reflexivity).
  assert (H3 : List.length shortEntry = 4%nat) by reflexivity.
  split; [exact H1 |]. split; [exact H2 |]. split; [exact H3 |].
  exact (short_account_entry_rejected Z (fun f => f) unit unit (fun b => Ok b)
           (fun _ => Ok tt) (fun _ => Ok []) (fun _ => Ok tt) (fun _ => Ok [])
           (fun _ => Ok shortTree) shortTree shortAccounts shortEntry H1 H2 H3).
Defined.

(** C6, as the spec states it, fails in the kind of the failure: on the
    schema-violation tree the record mapping returns no error value, it
    panics with "index out of range [4] with length 4", and so does [Decode]
    on an input whose stages yield the tree. *)
Lemma short_account_entry_panics :
  Pipeline.mapRecords Z (fun f => f) shortTree = Panic (IndexOutOfRange 4 4)
  /\ (forall e, Pipeline.mapRecords Z (fun f => f) shortTree <> Err e)
  /\ testRawTree "aetdaowslg" = Ok shortTree
  /\ testDecode "aetdaowslg" = Panic (IndexOutOfRange 4 4)
  /\ (forall e, testDecode "aetdaowslg" <> Err e).
Proof.
  split; [vm_compute; reflexivity |].
  split; [intros e; vm_compute; discriminate |].
  split; [vm_compute; reflexivity |].
  split; [vm_compute; reflexivity |].
  intros e. vm_compute. discriminate.
Qed.

(** C2, as the spec states it, fails at the first stage already: on the empty
    input the bytewords decode returns the error "too short", and [Decode]
    ends in [log.Fatal] whatever the collaborators are; the process exits and
    no error reaches the caller. *)
Lemma Decode_empty_input_exits :
  decode "" 2 "" = Err tooShort
  /\ (forall float64 intOfFloat64 cborValue gzipReader cborUnmarshalBytes gzipNewReader
             ioReadAll cborUnmarshalAny jsonMarshalIndent jsonUnmarshalSlice,
        Pipeline.Decode float64 intOfFloat64 cborValue gzipReader cborUnmarshalBytes
                        gzipNewReader ioReadAll cborUnmarshalAny jsonMarshalIndent
                        jsonUnmarshalSlice ""
        = Fatal "Bytewords decode failed:too short")
  /\ reachesCaller (@Fatal Root "Bytewords decode failed:too short") = false.
Proof.
  split; [vm_compute; reflexivity |]. split; [| reflexivity].
  intros. unfold Pipeline.Decode.
  replace (decode "" 2 "") with (@Err (list byte) tooShort) by (vm_compute; reflexivity).
  reflexivity.
Qed.

(** * Further properties of the codec and the pipeline *)

(** ** The lookup table read backwards *)

Lemma slotCheck_all : forallb slotCheck (upto 676) = true.
Proof. vm_compute. reflexivity. Qed.

Lemma In_upto (n : nat) (i : Z) : 0 <= i < Z.of_nat n -> In i (upto n).
Proof.
  intros H. unfold upto. apply in_map_iff. exists (Z.to_nat i).
  split; [lia | apply in_seq; lia].
Qed.

Lemma slotCheck_at (off : Z) : 0 <= off < 676 -> slotCheck off = true.
Proof.
  intros H. pose proof slotCheck_all as Hall. rewrite forallb_forall in Hall.
  apply Hall, In_upto. change (Z.of_nat 676) with 676. exact H.
Qed.

(** A successful lookup yields the number of a word, and the word has the
    normalized first and last byte of the token at its ends. *)
Lemma lookupChars_Ok (a d : byte) (val : Z) :
  lookupChars a d = Ok val ->
  0 <= val < 256
  /\ letter a = true /\ letter d = true
  /\ exists c0 c1 c2 c3,
       wordOf (byteOfZ val) = String c0 (String c1 (String c2 (String c3 "")))
       /\ byteZ c0 = ToLower (byteZ a) /\ byteZ c3 = ToLower (byteZ d).
Proof.
  rewrite lookupChars_cases. destruct (letter a && letter d) eqn:El; [| discriminate].
  intros H. apply bind_Ok_inv in H. destruct H as (v & Hv & H).
  destruct (v =? -1) eqn:Ev; [discriminate |]. injection H as ->.
  apply andb_true_iff in El. destruct El as [La Ld].
  pose proof (proj1 (letter_range a) La) as Ra. pose proof (proj1 (letter_range d) Ld) as Rd.
  change (byteZ "a"%char) with 97 in Ra, Rd.
  assert (Ho : 0 <= lookupOffset a d < 676)
    by (unfold lookupOffset; change (byteZ "a"%char) with 97; lia).
  pose proof (slotCheck_at _ Ho) as Hc. unfold slotCheck in Hc. rewrite Hv, Ev in Hc.
  apply andb_true_iff in Hc. destruct Hc as [Hr Hc].
  apply andb_true_iff in Hr. destruct Hr as [H0 H1].
  apply Z.leb_le in H0. apply Z.ltb_lt in H1.
  split; [lia |]. split; [exact La |]. split; [exact Ld |].
  destruct (wordOf_shape (byteOfZ val)) as (c0 & c1 & c2 & c3 & Ew & _).
  rewrite Ew in Hc. apply andb_true_iff in Hc. destruct Hc as [Hx Hy].
  apply Z.eqb_eq in Hx, Hy.
  exists c0, c1, c2, c3. split; [exact Ew |].
  assert (Hm : lookupOffset a d mod 26 = ToLower (byteZ a) - 97).
  { unfold lookupOffset. change (byteZ "a"%char) with 97.
    rewrite Z.add_comm, Z.mod_add by lia. apply Z.mod_small. lia. }
  assert (Hd : lookupOffset a d / 26 = ToLower (byteZ d) - 97).
  { unfold lookupOffset. change (byteZ "a"%char) with 97.
    rewrite Z.add_comm, Z.div_add by lia. rewrite Z.div_small by lia. lia. }
  split; lia.
Qed.

Lemma arrIndex_words (val : Z) :
  0 <= val < 256 -> arrIndex words val = Ok (wordOf (byteOfZ val)).
Proof.
  intros H. destruct (wordOf_shape (byteOfZ val)) as (c0 & c1 & c2 & c3 & _ & _ & _ & _ & _ & Hw & _).
  rewrite byteZ_byteOfZ, Z.mod_small in Hw by exact H. exact Hw.
Qed.

(** ** Which calls of [decode] panic *)

Lemma returns_bind {A B : Type} (m : outcome A) (k : A -> outcome B) :
  returns m -> (forall a, returns (k a)) -> returns (bind m k).
Proof. destruct m; simpl; intros H Hk; try contradiction; [apply Hk | exact I]. Qed.

Lemma returns_lookupChars (a d : byte) : returns (lookupChars a d).
Proof.
  rewrite lookupChars_cases. destruct (letter a && letter d) eqn:E; [| exact I].
  destruct (lookupTable_defined a d E) as [val Hval]. rewrite Hval, bind_Ok.
  destruct (val =? -1); exact I.
Qed.

Lemma returns_middleCheck (m1 m2 : byte) (val : Z) :
  0 <= val < 256 -> returns (middleCheck m1 m2 val).
Proof.
  intros H. unfold middleCheck. rewrite (arrIndex_words val H), bind_Ok.
  destruct (wordOf_shape (byteOfZ val)) as (c0 & c1 & c2 & c3 & Ew & _). rewrite Ew.
  rewrite strIndex_1, bind_Ok. destruct (negb (byte_eqb m1 c1)); [exact I |].
  rewrite strIndex_2, bind_Ok. destruct (negb (byte_eqb m2 c2)); exact I.
Qed.

Lemma returns_decodeWord (t : string) (wordLen : Z) :
  wordLen = 2 \/ wordLen = 4 -> returns (decodeWord t wordLen).
Proof.
  intros Hw. destruct (Z.eq_dec (len t) wordLen) as [E | E];
    [| rewrite (decodeWord_wrong_length t wordLen E); exact I].
  destruct Hw as [-> | ->].
  - destruct (len_2_inv t E) as (a & d & ->). rewrite decodeWord_two.
    apply returns_bind; [apply returns_lookupChars | intros val; exact I].
  - destruct (len_4_inv t E) as (a & m1 & m2 & d & ->). rewrite decodeWord_four.
    destruct (lookupChars a d) as [val | e | p | msg] eqn:El;
      try (pose proof (returns_lookupChars a d) as Hr; rewrite El in Hr; exact Hr).
    rewrite bind_Ok. destruct (lookupChars_Ok a d val El) as (Hval & _).
    apply returns_bind; [now apply returns_middleCheck | intros u; exact I].
Qed.

Lemma returns_decodeAll (tokens : list string) (wordLen : Z) :
  wordLen = 2 \/ wordLen = 4 -> returns (decodeAll tokens wordLen).
Proof.
  intros Hw. induction tokens as [| t tokens IH]; [exact I |].
  cbn [decodeAll]. apply returns_bind; [now apply returns_decodeWord | intros b].
  apply returns_bind; [exact IH | intros bs; exact I].
Qed.

Lemma returns_verify (buf : list byte) : returns (verify buf).
Proof.
  unfold verify. destruct (lenS buf <? 5); [exact I |]. cbv zeta.
  destruct (bytes_eqb _ _); exact I.
Qed.

Lemma chunksOf_parity (s : string) :
  forall i n : Z,
    if Nat.even (String.length s)
    then exists ts, chunksOf s i n = Ok ts
    else exists j, chunksOf s i n = Panic (SliceBoundsOutOfRange j n).
Proof.
  induction s as [| c | c d s IH] using string_pair_ind; intros i n.
  - now exists [].
  - now exists (i + 2).
  - change (Nat.even (String.length (String c (String d s))))
      with (Nat.even (String.length s)).
    specialize (IH (i + 2) n). cbn [chunksOf].
    destruct (Nat.even (String.length s)).
    + destruct IH as [ts Hts]. rewrite Hts. now eexists.
    + destruct IH as [j Hj]. rewrite Hj. now exists j.
Qed.

(** X1. In the minimal variant [decode] returns to its caller, with the
    body or with an error, exactly when the input has an even number of
    bytes; on every other input it panics. *)
Theorem decode_minimal_returns_iff_even (s sep : string) :
  returns (decode s 2 sep) <-> Nat.even (String.length s) = true.
Proof.
  rewrite decode_stages, tokenize_minimal by discriminate.
  pose proof (chunksOf_parity s 0 (len s)) as H.
  destruct (Nat.even (String.length s)).
  - destruct H as [ts Hts]. rewrite Hts, bind_Ok. split; [reflexivity | intros _].
    apply returns_bind; [apply returns_decodeAll; now left | intros buf].
    apply returns_verify.
  - destruct H as [j Hj]. rewrite Hj. simpl. split; [contradiction | discriminate].
Qed.

(** X2. In the standard variant [decode] never panics and never exits:
    for every input and every separator it returns the body or an error. *)
Theorem decode_standard_returns (s sep : string) : returns (decode s 4 sep).
Proof.
  rewrite decode_stages. unfold tokenize. change (4 =? 4) with true. cbv iota.
  rewrite bind_Ok.
  apply returns_bind; [apply returns_decodeAll; now right | intros buf].
  apply returns_verify.
Qed.

(** ** The tokens and the inputs that [decode] accepts *)

Lemma lowerByte_letter (a : byte) :
  letter a = true -> byteZ (lowerByte a) = ToLower (byteZ a).
Proof.
  intros H. apply letter_range in H. change (byteZ "a"%char) with 97 in H.
  pose proof (byteZ_range a) as Ha. unfold lowerByte.
  unfold ToLower in *.
  destruct ((65 <=? byteZ a) && (byteZ a <=? 90)) eqn:E1.
  - rewrite byteZ_byteOfZ. apply Z.mod_small. lia.
  - destruct ((192 <=? byteZ a) && (byteZ a <=? 214)) eqn:E2;
      [apply andb_true_iff in E2; destruct E2 as [E2 _]; apply Z.leb_le in E2; lia |].
    destruct ((216 <=? byteZ a) && (byteZ a <=? 222)) eqn:E3;
      [apply andb_true_iff in E3; destruct E3 as [E3 _]; apply Z.leb_le in E3; lia |].
    reflexivity.
Qed.

Lemma lookupChars_ends (a d : byte) (val : Z) :
  lookupChars a d = Ok val ->
  exists c1 c2,
    wordOf (byteOfZ val)
    = String (lowerByte a) (String c1 (String c2 (String (lowerByte d) ""))).
Proof.
  intros H. destruct (lookupChars_Ok a d val H)
    as (_ & La & Ld & c0 & c1 & c2 & c3 & Ew & H0 & H3).
  exists c1, c2. rewrite Ew.
  rewrite <- (lowerByte_letter a La) in H0. rewrite <- (lowerByte_letter d Ld) in H3.
  apply byteZ_inj in H0, H3. now subst c0 c3.
Qed.

Lemma decodeWord_two_Ok (a d b : byte) :
  decodeWord (String a (String d "")) 2 = Ok b ->
  firstLast b = String (lowerByte a) (String (lowerByte d) "").
Proof.
  rewrite decodeWord_two. intros H.
  apply bind_Ok_inv in H. destruct H as (val & Hval & H). injection H as <-.
  destruct (lookupChars_ends a d val Hval) as (c1 & c2 & Ew).
  unfold firstLast. now rewrite Ew.
Qed.

Lemma decodeWord_four_ends (a m1 m2 d b : byte) :
  decodeWord (String a (String m1 (String m2 (String d "")))) 4 = Ok b ->
  wordOf b = String (lowerByte a) (String m1 (String m2 (String (lowerByte d) ""))).
Proof.
  intros H. destruct (decodeWord_four_Ok a m1 m2 d b H) as (c0 & c3 & Ew & _).
  rewrite decodeWord_four in H.
  apply bind_Ok_inv in H. destruct H as (val & Hval & H).
  apply bind_Ok_inv in H. destruct H as (u & _ & H). injection H as <-.
  destruct (lookupChars_ends a d val Hval) as (c1 & c2 & Ew').
  rewrite Ew in Ew'. injection Ew' as -> _ _ ->. exact Ew.
Qed.

Lemma decodeWord_firstLast (b : byte) : decodeWord (firstLast b) 2 = Ok b.
Proof.
  destruct (firstLast_eq b) as (c0 & c1 & c2 & c3 & Ew & ->).
  exact (decodeWord_minimal b c0 c1 c2 c3 Ew).
Qed.

Lemma decodeWord_standard_iff (t : string) (b : byte) :
  decodeWord t 4 = Ok b <-> lowerEnds t = wordOf b.
Proof.
  split.
  - intros H. pose proof (decodeWord_Ok_len t 4 b H) as Hl.
    destruct (len_4_inv t Hl) as (a & m1 & m2 & d & ->).
    cbn [lowerEnds]. symmetry. now apply decodeWord_four_ends.
  - intros H. rewrite <- decodeWord_lowerEnds, H. apply decodeWord_wordOf.
Qed.

Lemma decodeWord_minimal_iff (t : string) (b : byte) :
  decodeWord t 2 = Ok b <-> toLower t = firstLast b.
Proof.
  split.
  - intros H. pose proof (decodeWord_Ok_len t 2 b H) as Hl.
    destruct (len_2_inv t Hl) as (a & d & ->).
    cbn [toLower]. symmetry. now apply decodeWord_two_Ok.
  - intros H. rewrite <- decodeWord_toLower_minimal, H. apply decodeWord_firstLast.
Qed.

(** X3. [decodeWord] accepts exactly the table words up to the case of the
    letters it looks up: a 4-letter token decodes to [b] exactly when, with
    its first and last letter lower-cased, it is [words[b]]; a 2-letter
    token decodes to [b] exactly when, lower-cased, it is the first and last
    letter of [words[b]]. *)
Theorem decodeWord_accepts_table_words (t : string) (b : byte) :
  (decodeWord t 4 = Ok b <-> lowerEnds t = wordOf b)
  /\ (decodeWord t 2 = Ok b <-> toLower t = firstLast b).
Proof. split; [apply decodeWord_standard_iff | apply decodeWord_minimal_iff]. Qed.

Lemma decodeAll_standard_Ok (tokens : list string) :
  forall buf, decodeAll tokens 4 = Ok buf -> map lowerEnds tokens = map wordOf buf.
Proof.
  induction tokens as [| t tokens IH]; intros buf H.
  - injection H as <-. reflexivity.
  - cbn [decodeAll] in H.
    apply bind_Ok_inv in H. destruct H as (b & Hb & H).
    apply bind_Ok_inv in H. destruct H as (bs & Hbs & H). injection H as <-.
    cbn [map]. f_equal; [now apply decodeWord_standard_iff | now apply IH].
Qed.

Lemma chunks_minimal_Ok (s : string) :
  forall i n ts buf,
    chunksOf s i n = Ok ts -> decodeAll ts 2 = Ok buf -> toLower s = minimalOf buf.
Proof.
  induction s as [| c | c d s IH] using string_pair_ind; intros i n ts buf Hts Hbuf.
  - injection Hts as <-. injection Hbuf as <-. reflexivity.
  - discriminate.
  - cbn [chunksOf] in Hts.
    apply bind_Ok_inv in Hts. destruct Hts as (ts' & Hts' & Hts). injection Hts as <-.
    cbn [decodeAll] in Hbuf.
    apply bind_Ok_inv in Hbuf. destruct Hbuf as (b & Hb & Hbuf).
    apply bind_Ok_inv in Hbuf. destruct Hbuf as (bs & Hbs & Hbuf). injection Hbuf as <-.
    cbn [toLower minimalOf]. rewrite (decodeWord_two_Ok c d b Hb).
    cbn [append]. now rewrite (IH _ _ _ _ Hts' Hbs).
Qed.

Lemma lenS_pos_nonempty {A : Type} (l : list A) : 1 <= lenS l <-> l <> [].
Proof.
  destruct l as [| x l]; [split; [intros H; change (@lenS A []) with 0 in H; lia | congruence] |].
  rewrite lenS_cons. pose proof (lenS_nonneg l). split; [discriminate | lia].
Qed.

Lemma lenS_lt1_nonempty {A : Type} (l : list A) : l <> [] -> (lenS l <? 1) = false.
Proof. intros H. apply Z.ltb_ge. now apply lenS_pos_nonempty. Qed.

Lemma decode_minimal_iff (s sep : string) (body : list byte) :
  decode s 2 sep = Ok body <-> body <> [] /\ encodeMinimal body = Ok (toLower s).
Proof.
  rewrite encodeMinimal_spec. split.
  - intros H. rewrite decode_stages, tokenize_minimal in H by discriminate.
    apply bind_Ok_inv in H. destruct H as (ts & Hts & H).
    apply bind_Ok_inv in H. destruct H as (buf & Hbuf & Hv).
    apply verify_Ok in Hv. destruct Hv as [Hl ->].
    split; [now apply lenS_pos_nonempty |].
    f_equal. symmetry. exact (chunks_minimal_Ok s _ _ _ _ Hts Hbuf).
  - intros [Hne H]. injection H as H.
    rewrite <- decode_toLower_minimal, <- H, decode_encodeMinimal.
    now rewrite lenS_lt1_nonempty.
Qed.

Lemma decode_standard_iff (s : string) (body : list byte) :
  decode s 4 " " = Ok body
  <-> body <> [] /\ Join (map lowerEnds (Split s " ")) " " = encodeStandard body.
Proof.
  split.
  - intros H. rewrite decode_stages in H. unfold tokenize in H.
    change (4 =? 4) with true in H. cbv iota in H. rewrite bind_Ok in H.
    apply bind_Ok_inv in H. destruct H as (buf & Hbuf & Hv).
    apply verify_Ok in Hv. destruct Hv as [Hl ->].
    split; [now apply lenS_pos_nonempty |].
    unfold encodeStandard. now rewrite (decodeAll_standard_Ok _ _ Hbuf).
  - intros [Hne H].
    rewrite <- decode_lowerEnds_standard, H, decode_encodeStandard.
    now rewrite lenS_lt1_nonempty.
Qed.

(** X4. [decode] accepts exactly the encodings of non-empty byte sequences,
    up to the case of the letters it looks up: a minimal input decodes to
    [body] exactly when [body] is non-empty and the lower-cased input is
    [encodeMinimal(body)]; a standard input (space separator) decodes to
    [body] exactly when [body] is non-empty and the input with the first and
    last letter of every token lower-cased is [encodeStandard(body)]. *)
Theorem decode_accepts_exactly_encodings (s sep : string) (body : list byte) :
  (decode s 2 sep = Ok body
   <-> body <> [] /\ encodeMinimal body = Ok (toLower s))
  /\ (decode s 4 " " = Ok body
      <-> body <> [] /\ Join (map lowerEnds (Split s " ")) " " = encodeStandard body).
Proof. split; [apply decode_minimal_iff | apply decode_standard_iff]. Qed.

Lemma length_lowerEnds (t : string) : String.length (lowerEnds t) = String.length t.
Proof. destruct t as [| a [| m1 [| m2 [| d [| e t]]]]]; reflexivity. Qed.

Lemma length_Join_map (f : string -> string) (ts : list string) (sep : string) :
  (forall t, String.length (f t) = String.length t) ->
  String.length (Join (map f ts) sep) = String.length (Join ts sep).
Proof.
  intros Hf. induction ts as [| t ts IH]; [reflexivity |].
  destruct ts as [| t' ts]; [apply Hf |].
  change (Join (map f (t :: t' :: ts)) sep)
    with (f t ++ sep ++ Join (map f (t' :: ts)) sep)%string.
  change (Join (t :: t' :: ts) sep) with (t ++ sep ++ Join (t' :: ts) sep)%string.
  rewrite !length_append, Hf, IH. reflexivity.
Qed.

(** X5. The inputs that [decode] accepts have the length the encoders
    give: a minimal input that decodes to [body] has [2*(len(body)+4)]
    bytes, a standard one (space separator) has [5*(len(body)+4)-1]. *)
Theorem accepted_input_length (s sep : string) (body : list byte) :
  (decode s 2 sep = Ok body -> len s = 2 * (lenS body + 4))
  /\ (decode s 4 " " = Ok body -> len s = 5 * (lenS body + 4) - 1).
Proof.
  split; intros H.
  - apply decode_minimal_iff in H. destruct H as [_ H].
    rewrite encodeMinimal_spec in H. injection H as H.
    now rewrite <- len_toLower, <- H, len_minimalOf, lenS_appendCRC.
  - apply decode_standard_iff in H. destruct H as [_ H].
    assert (Hs : Join (Split s " ") " " = s) by (unfold Split; apply (Join_splitFrom s "")).
    assert (Hl : len (Join (map lowerEnds (Split s " ")) " ") = len s).
    { unfold len. rewrite (length_Join_map lowerEnds _ " " length_lowerEnds).
      now rewrite Hs. }
    rewrite <- Hl, H. unfold encodeStandard.
    rewrite len_Join_words by apply appendCRC_nonempty.
    now rewrite lenS_appendCRC.
Qed.

(** Both cases on the encodings of the one-byte sequence [0]. *)
Lemma accepted_input_length_witness :
  decode "aetdaowslg" 2 "" = Ok [byteOfZ 0]
  /\ decode "able tied also webs lung" 4 " " = Ok [byteOfZ 0]
  /\ len "aetdaowslg" = 2 * (lenS [byteOfZ 0] + 4)
  /\ len "able tied also webs lung" = 5 * (lenS [byteOfZ 0] + 4) - 1.
Proof.
  assert (H2 : decode "aetdaowslg" 2 "" = Ok [byteOfZ 0]) by (vm_compute; reflexivity).
  assert (H4 : decode "able tied also webs lung" 4 " " = Ok [byteOfZ 0])
    by (vm_compute; reflexivity).
  split; [exact H2 |]. split; [exact H4 |]. split.
  - exact (proj1 (accepted_input_length "aetdaowslg" "" [byteOfZ 0]) H2).
  - exact (proj2 (accepted_input_length "able tied also webs lung" "" [byteOfZ 0]) H4).
Defined.

(** ** The encoders *)

Lemma appendCRC_inj (a b : list byte) : appendCRC a = appendCRC b -> a = b.
Proof.
  intros H. unfold appendCRC in H.
  assert (Hl : List.length a = List.length b).
  { apply (f_equal (@List.length byte)) in H. rewrite !length_app in H.
    change (List.length (crc32Bytes a)) with 4%nat in H.
    change (List.length (crc32Bytes b)) with 4%nat in H. lia. }
  apply (f_equal (firstn (List.length a))) in H.
  rewrite firstn_app, Nat.sub_diag, firstn_all, firstn_O, app_nil_r in H.
  rewrite Hl, firstn_app, Nat.sub_diag, firstn_all, firstn_O, app_nil_r in H.
  exact H.
Qed.

(** X6. The encoders lose nothing: two byte sequences with the same minimal
    encoding, or with the same standard encoding, are equal (the empty
    sequence included, which [decode] does not take back). *)
Theorem encoders_injective (a b : list byte) :
  (encodeMinimal a = encodeMinimal b -> a = b)
  /\ (encodeStandard a = encodeStandard b -> a = b).
Proof.
  split; intros H; apply appendCRC_inj.
  - rewrite !encodeMinimal_spec in H. injection H as H.
    pose proof (chunksOf_minimalOf (appendCRC a) 0 0) as Ha.
    rewrite H, chunksOf_minimalOf in Ha. injection Ha as Ha.
    pose proof (decodeAll_firstLast (appendCRC a)) as Da.
    rewrite <- Ha, decodeAll_firstLast in Da. now injection Da.
  - pose proof (tokenize_encodeStandard a) as Ha.
    rewrite H, tokenize_encodeStandard in Ha. injection Ha as Ha.
    pose proof (decodeAll_wordOf (appendCRC a)) as Da.
    rewrite <- Ha, decodeAll_wordOf in Da. now injection Da.
Qed.

Lemma encoders_injective_witness :
  encodeMinimal [byteOfZ 3] = encodeMinimal [byteOfZ 3]
  /\ encodeStandard [byteOfZ 3] = encodeStandard [byteOfZ 3]
  /\ [byteOfZ 3] = [byteOfZ 3].
Proof.
  split; [reflexivity |]. split; [reflexivity |].
  exact (proj1 (encoders_injective [byteOfZ 3] [byteOfZ 3]) eq_refl).
Defined.

Lemma allChars_append (P : byte -> bool) (a b : string) :
  allChars P (a ++ b) = allChars P a && allChars P b.
Proof.
  induction a as [| c a IH]; simpl; [reflexivity |]. now rewrite IH, andb_assoc.
Qed.

Lemma allChars_firstLast (b : byte) : allChars isLower (firstLast b) = true.
Proof.
  destruct (wordOf_shape b) as (c0 & c1 & c2 & c3 & Ew & L0 & _ & _ & L3 & _).
  unfold firstLast. rewrite Ew. cbn [allChars]. now rewrite L0, L3.
Qed.

Lemma allChars_wordOf (b : byte) : allChars lowerOrSpace (wordOf b) = true.
Proof.
  destruct (wordOf_shape b) as (c0 & c1 & c2 & c3 & Ew & L0 & L1 & L2 & L3 & _).
  rewrite Ew. cbn [allChars]. unfold lowerOrSpace. now rewrite L0, L1, L2, L3.
Qed.

Lemma allChars_Join_words (data : list byte) :
  allChars lowerOrSpace (Join (map wordOf data) " ") = true.
Proof.
  induction data as [| b data IH]; [reflexivity |].
  destruct data as [| b' data]; [apply allChars_wordOf |].
  change (Join (map wordOf (b :: b' :: data)) " ")
    with (wordOf b ++ " " ++ Join (map wordOf (b' :: data)) " ")%string.
  now rewrite !allChars_append, allChars_wordOf, IH.
Qed.

Lemma Split_encodeStandard (B : list byte) :
  Split (encodeStandard B) " " = map wordOf (appendCRC B).
Proof.
  unfold encodeStandard. apply Split_Join; [| apply noSpace_words].
  pose proof (appendCRC_nonempty B) as H. destruct (appendCRC B); [congruence | discriminate].
Qed.

(** X7. The alphabet of the encoders: [encodeMinimal] writes lower-case
    ASCII letters only, [encodeStandard] lower-case ASCII letters and
    spaces, and its words, split off at the spaces again, are the table
    words of the payload bytes, four letters each. *)
Theorem encoders_alphabet (B : list byte) :
  (exists s, encodeMinimal B = Ok s /\ allChars isLower s = true)
  /\ allChars lowerOrSpace (encodeStandard B) = true
  /\ Split (encodeStandard B) " " = map wordOf (appendCRC B)
  /\ Forall (fun w => len w = 4 /\ allChars isLower w = true)
            (Split (encodeStandard B) " ").
Proof.
  split; [| split; [| split]].
  - exists (minimalOf (appendCRC B)). split; [apply encodeMinimal_spec |].
    induction (appendCRC B) as [| b data IH]; [reflexivity |].
    cbn [minimalOf]. now rewrite allChars_append, allChars_firstLast, IH.
  - apply allChars_Join_words.
  - apply Split_encodeStandard.
  - rewrite Split_encodeStandard.
    apply Forall_forall. intros w Hw. apply in_map_iff in Hw.
    destruct Hw as (b & <- & _). split; [apply len_wordOf |].
    destruct (wordOf_shape b) as (c0 & c1 & c2 & c3 & Ew & L0 & L1 & L2 & L3 & _).
    rewrite Ew. cbn [allChars]. now rewrite L0, L1, L2, L3.
Qed.

(** ** Word lengths other than 2 and 4 *)

(** X8. Only the word lengths 2 and 4 decode anything.  With any other
    [wordLen] the input is cut into 2-byte chunks as in the minimal variant,
    and [decode] returns "too short" on the empty input, "invalid bytewords
    length" on every other input of even length, and never a body. *)
Theorem decode_other_word_length (s sep : string) (wordLen : Z) :
  wordLen <> 2 -> wordLen <> 4 ->
  decode "" wordLen sep = Err tooShort
  /\ (s <> "" -> Nat.even (String.length s) = true ->
        decode s wordLen sep = Err invalidLength)
  /\ (forall body, decode s wordLen sep <> Ok body).
Proof.
  intros H2 H4.
  assert (Hdec : forall s', decode s' wordLen sep
                     = (tokens <- chunksOf s' 0 (len s') ;;
                        buf <- decodeAll tokens wordLen ;; verify buf))
    by (intros s'; now rewrite decode_stages, tokenize_minimal).
  split; [rewrite Hdec; reflexivity |].
  assert (Hbad : forall c d, decodeWord (String c (String d "")) wordLen = Err invalidLength)
    by (intros c d; apply decodeWord_wrong_length; change (len (String c (String d ""))) with 2; lia).
  split.
  - intros Hne Hev. rewrite Hdec.
    destruct s as [| c [| d s']]; [congruence | discriminate |].
    pose proof (chunksOf_parity s' (0 + 2) (len (String c (String d s')))) as Hp.
    change (Nat.even (String.length (String c (String d s'))))
      with (Nat.even (String.length s')) in Hev.
    rewrite Hev in Hp. destruct Hp as [ts Hts].
    cbn [chunksOf]. rewrite Hts, !bind_Ok. cbn [decodeAll]. now rewrite Hbad.
  - intros body H. rewrite Hdec in H.
    apply bind_Ok_inv in H. destruct H as (ts & Hts & H).
    apply bind_Ok_inv in H. destruct H as (buf & Hbuf & Hv).
    destruct s as [| c [| d s']].
    + injection Hts as <-. injection Hbuf as <-. discriminate.
    + discriminate.
    + cbn [chunksOf] in Hts. apply bind_Ok_inv in Hts.
      destruct Hts as (ts' & _ & Hts). injection Hts as <-.
      cbn [decodeAll] in Hbuf. rewrite Hbad in Hbuf. discriminate.
Qed.

Lemma decode_other_word_length_witness :
  3 <> 2 /\ 3 <> 4
  /\ decode "" 3 "" = Err tooShort
  /\ ("aetdaowslg" <> "" -> Nat.even (String.length "aetdaowslg") = true ->
        decode "aetdaowslg" 3 "" = Err invalidLength)
  /\ (forall body, decode "aetdaowslg" 3 "" <> Ok body).
Proof.
  assert (H2 : 3 <> 2) by discriminate. assert (H4 : 3 <> 4) by discriminate.
  split; [exact H2 |]. split; [exact H4 |].
  exact (decode_other_word_length "aetdaowslg" "" 3 H2 H4).
Defined.

(** ** A single corrupted byte *)

Lemma lxor_cancel_r (a b c : Z) : Z.lxor a c = Z.lxor b c -> a = b.
Proof.
  intros H. apply (f_equal (fun z => Z.lxor z c)) in H.
  now rewrite !Z.lxor_assoc, Z.lxor_nilpotent, !Z.lxor_0_r in H.
Qed.

Lemma lxor_cancel_l (a b c : Z) : Z.lxor c a = Z.lxor c b -> a = b.
Proof. rewrite !(Z.lxor_comm c). apply lxor_cancel_r. Qed.

Lemma IEEE_uint32 : uint32 IEEE.
Proof. split; [discriminate | reflexivity]. Qed.

Lemma crcShift_uint32 (c : Z) : uint32 c -> uint32 (crcShift IEEE c).
Proof.
  intros H. unfold crcShift. destruct (Z.land c 1 =? 1).
  - apply lxor_bound; [lia | apply shiftr_uint32; [lia | exact H] | exact IEEE_uint32].
  - apply shiftr_uint32; [lia | exact H].
Qed.

Lemma testbit_31_small (x : Z) : 0 <= x < 2 ^ 31 -> Z.testbit x 31 = false.
Proof.
  intros H. rewrite <- (Z.mod_small x (2 ^ 31)) by exact H.
  apply Z.mod_pow2_bits_high. lia.
Qed.

Lemma half_uint32 (c : Z) : uint32 c -> 0 <= Z.shiftr c 1 < 2 ^ 31.
Proof.
  intros [H0 H1]. rewrite Z.shiftr_div_pow2 by lia. change (2 ^ 1) with 2.
  change (2 ^ 32) with (2 * 2 ^ 31) in H1.
  split; [apply Z.div_pos; lia | apply Z.div_lt_upper_bound; lia].
Qed.

Lemma land_1_mod (c : Z) : Z.land c 1 = c mod 2.
Proof. change 1 with (Z.ones 1). now rewrite Z.land_ones by lia. Qed.

Lemma halves (c : Z) : c = 2 * Z.shiftr c 1 + Z.land c 1.
Proof.
  rewrite land_1_mod, Z.shiftr_div_pow2 by lia. change (2 ^ 1) with 2.
  apply Z.div_mod. lia.
Qed.

(** The polynomial has its top bit set, so the bit shifted out can be read
    off the result: one round is injective on 32-bit registers. *)
Lemma crcShift_inj (a b : Z) :
  uint32 a -> uint32 b -> crcShift IEEE a = crcShift IEEE b -> a = b.
Proof.
  intros Ha Hb H. unfold crcShift in H.
  pose proof (half_uint32 a Ha) as Ha'. pose proof (half_uint32 b Hb) as Hb'.
  assert (Htop : forall x y, 0 <= x < 2 ^ 31 -> 0 <= y < 2 ^ 31 -> Z.lxor x IEEE <> y).
  { intros x y Hx Hy E. apply (f_equal (fun z => Z.testbit z 31)) in E.
    rewrite Z.lxor_spec, (testbit_31_small x Hx), (testbit_31_small y Hy) in E.
    discriminate. }
  destruct (Z.land a 1 =? 1) eqn:Ea, (Z.land b 1 =? 1) eqn:Eb.
  - apply lxor_cancel_r in H. apply Z.eqb_eq in Ea, Eb.
    rewrite (halves a), (halves b), H, Ea, Eb. reflexivity.
  - now elim (Htop _ _ Ha' Hb').
  - symmetry in H. now elim (Htop _ _ Hb' Ha').
  - apply Z.eqb_neq in Ea, Eb.
    assert (La : Z.land a 1 = 0)
      by (rewrite land_1_mod in *; pose proof (Z.mod_pos_bound a 2); lia).
    assert (Lb : Z.land b 1 = 0)
      by (rewrite land_1_mod in *; pose proof (Z.mod_pos_bound b 2); lia).
    rewrite (halves a), (halves b), H, La, Lb. reflexivity.
Qed.

Lemma iter_crcShift_uint32 (k : nat) (c : Z) :
  uint32 c -> uint32 (Nat.iter k (crcShift IEEE) c).
Proof.
  intros H. induction k as [| k IH]; [exact H |].
  rewrite Nat.iter_succ. now apply crcShift_uint32.
Qed.

Lemma iter_crcShift_inj (k : nat) (a b : Z) :
  uint32 a -> uint32 b ->
  Nat.iter k (crcShift IEEE) a = Nat.iter k (crcShift IEEE) b -> a = b.
Proof.
  intros Ha Hb. induction k as [| k IH]; [trivial |].
  rewrite !Nat.iter_succ. intros H. apply IH.
  apply crcShift_inj; [now apply iter_crcShift_uint32 .. | exact H].
Qed.

Lemma byteZ_uint32 (v : byte) : uint32 (byteZ v).
Proof. pose proof (byteZ_range v). unfold uint32. change (2 ^ 32) with 4294967296. lia. Qed.

Lemma step_inj_crc (a b : Z) (v : byte) :
  uint32 a -> uint32 b ->
  simpleUpdateStep IEEETable a v = simpleUpdateStep IEEETable b v -> a = b.
Proof.
  intros Ha Hb. rewrite !simpleUpdateStep_bitwise. intros H.
  apply iter_crcShift_inj in H;
    [| apply lxor_bound; [lia | assumption | apply byteZ_uint32] ..].
  now apply lxor_cancel_r in H.
Qed.

Lemma step_inj_byte (c : Z) (v w : byte) :
  uint32 c ->
  simpleUpdateStep IEEETable c v = simpleUpdateStep IEEETable c w -> v = w.
Proof.
  intros Hc. rewrite !simpleUpdateStep_bitwise. intros H.
  apply iter_crcShift_inj in H;
    [| apply lxor_bound; [lia | assumption | apply byteZ_uint32] ..].
  apply lxor_cancel_l in H. now apply byteZ_inj.
Qed.

Lemma fold_update_inj (p : list byte) :
  forall a b, uint32 a -> uint32 b ->
    fold_left (simpleUpdateStep IEEETable) p a = fold_left (simpleUpdateStep IEEETable) p b ->
    a = b.
Proof.
  induction p as [| v p IH]; intros a b Ha Hb H; [exact H |].
  cbn [fold_left] in H. apply IH in H; [| now apply simpleUpdateStep_uint32 ..].
  exact (step_inj_crc a b v Ha Hb H).
Qed.

(** Two byte sequences that differ in exactly one byte have different
    checksums. *)
Lemma ChecksumIEEE_one_byte (pre post : list byte) (x y : byte) :
  ChecksumIEEE (pre ++ x :: post) = ChecksumIEEE (pre ++ y :: post) -> x = y.
Proof.
  unfold ChecksumIEEE, simpleUpdate, complement32. intros H.
  apply lxor_cancel_r in H. rewrite !fold_left_app in H. cbn [fold_left] in H.
  assert (Hs : uint32 (fold_left (simpleUpdateStep IEEETable) pre (Z.lxor 0 4294967295)))
    by (apply fold_update_uint32; split; [discriminate | reflexivity]).
  apply fold_update_inj in H; [| now apply simpleUpdateStep_uint32 ..].
  exact (step_inj_byte _ x y Hs H).
Qed.

Lemma crc32Bytes_inj (a b : list byte) :
  crc32Bytes a = crc32Bytes b -> ChecksumIEEE a = ChecksumIEEE b.
Proof.
  intros H. apply (f_equal bigEndian) in H. unfold crc32Bytes in H.
  now rewrite !bigEndian_PutUint32 in H by apply ChecksumIEEE_uint32.
Qed.

Lemma verify_app (body chk : list byte) :
  List.length chk = 4%nat -> body <> [] ->
  verify (body ++ chk)
  = if bytes_eqb chk (crc32Bytes body) then Ok body else Err crcMismatch.
Proof.
  intros Hc Hb. unfold verify. rewrite lenS_app.
  assert (Hl : lenS chk = 4) by (unfold lenS; rewrite Hc; reflexivity).
  apply lenS_pos_nonempty in Hb. rewrite Hl.
  replace (lenS body + 4 <? 5) with false by (symmetry; apply Z.ltb_ge; lia).
  replace (lenS body + 4 - 4) with (lenS body) by lia.
  unfold sliceTo, sliceFrom, lenS. rewrite Nat2Z.id.
  rewrite firstn_app, Nat.sub_diag, firstn_all, firstn_O, app_nil_r.
  rewrite skipn_app, Nat.sub_diag, skipn_all, skipn_O. reflexivity.
Qed.

Lemma setNth_app_l {A : Type} (a b : list A) (k : nat) (x : A) :
  (k < List.length a)%nat -> setNth (a ++ b) k x = setNth a k x ++ b.
Proof.
  revert k. induction a as [| y a IH]; intros k Hk; [simpl in Hk; lia |].
  destruct k as [| k]; [reflexivity |]. cbn [app setNth].
  now rewrite IH by (simpl in Hk; lia).
Qed.

Lemma setNth_app_r {A : Type} (a b : list A) (k : nat) (x : A) :
  setNth (a ++ b) (List.length a + k) x = a ++ setNth b k x.
Proof. induction a as [| y a IH]; [reflexivity |]. cbn [app List.length Nat.add setNth]. now rewrite IH. Qed.

Lemma length_setNth {A : Type} (a : list A) (k : nat) (x : A) :
  List.length (setNth a k x) = List.length a.
Proof.
  revert k. induction a as [| y a IH]; intros k; [destruct k; reflexivity |].
  destruct k; cbn [setNth List.length]; [reflexivity | now rewrite IH].
Qed.

Lemma nth_error_setNth {A : Type} (a : list A) (k : nat) (x : A) :
  (k < List.length a)%nat -> nth_error (setNth a k x) k = Some x.
Proof.
  revert k. induction a as [| y a IH]; intros k Hk; [simpl in Hk; lia |].
  destruct k; [reflexivity |]. cbn [setNth nth_error]. apply IH. simpl in Hk. lia.
Qed.

Lemma setNth_nonempty {A : Type} (a : list A) (k : nat) (x : A) :
  a <> [] -> setNth a k x <> [].
Proof. destruct a; [congruence |]. destruct k; discriminate. Qed.

(** The checksum stage on a payload with one byte replaced. *)
Lemma verify_one_byte (body : list byte) (k : nat) (x : byte) :
  body <> [] ->
  (k < List.length (appendCRC body))%nat ->
  nth_error (appendCRC body) k <> Some x ->
  verify (setNth (appendCRC body) k x) = Err crcMismatch.
Proof.
  intros Hb Hk Hne. unfold appendCRC in *.
  destruct (Nat.lt_ge_cases k (List.length body)) as [Hlt | Hge].
  - rewrite setNth_app_l by exact Hlt.
    rewrite nth_error_app1 in Hne by exact Hlt.
    rewrite verify_app; [| reflexivity | now apply setNth_nonempty].
    destruct (bytes_eqb _ _) eqn:E; [| reflexivity]. exfalso.
    apply bytes_eqb_eq, crc32Bytes_inj in E.
    destruct (split_at body k Hlt) as (pre & y & post & -> & <-).
    rewrite setNth_app in E. apply ChecksumIEEE_one_byte in E. subst y.
    apply Hne. rewrite nth_error_app2, Nat.sub_diag by lia. reflexivity.
  - replace k with (List.length body + (k - List.length body))%nat in * by lia.
    set (j := (k - List.length body)%nat) in *.
    rewrite length_app in Hk. change (List.length (crc32Bytes body)) with 4%nat in Hk.
    rewrite setNth_app_r.
    rewrite nth_error_app2 in Hne by lia.
    replace (List.length body + j - List.length body)%nat with j in Hne by lia.
    rewrite verify_app; [| now rewrite length_setNth | exact Hb].
    destruct (bytes_eqb _ _) eqn:E; [| reflexivity]. exfalso.
    apply bytes_eqb_eq in E. apply Hne. rewrite <- E at 1.
    apply nth_error_setNth. change (List.length (crc32Bytes body)) with 4%nat. lia.
Qed.

Lemma decode_minimalOf (data : list byte) (sep : string) :
  decode (minimalOf data) 2 sep = verify data.
Proof.
  rewrite decode_stages, tokenize_minimal by discriminate.
  now rewrite chunksOf_minimalOf, bind_Ok, decodeAll_firstLast, bind_Ok.
Qed.

Lemma decode_Join_words (data : list byte) :
  data <> [] -> decode (Join (map wordOf data) " ") 4 " " = verify data.
Proof.
  intros H. rewrite decode_stages. unfold tokenize. change (4 =? 4) with true. cbv iota.
  rewrite Split_Join; [| destruct data; [congruence | discriminate] | apply noSpace_words].
  now rewrite bind_Ok, decodeAll_wordOf, bind_Ok.
Qed.

(** X9. Any single corrupted byte is detected.  Take the payload of a
    non-empty body (the body followed by its checksum) and replace one byte,
    of the body or of the checksum, by a different byte: the minimal and the
    standard form of the result are both rejected with "crc mismatch". *)
Theorem single_byte_corruption_detected
        (body : list byte) (k : nat) (x : byte) (sep : string) :
  body <> [] ->
  (k < List.length (appendCRC body))%nat ->
  nth_error (appendCRC body) k <> Some x ->
  (exists s, encodeMinimalLoop (setNth (appendCRC body) k x) "" = Ok s
             /\ decode s 2 sep = Err crcMismatch)
  /\ decode (Join (map wordOf (setNth (appendCRC body) k x)) " ") 4 " "
     = Err crcMismatch.
Proof.
  intros Hb Hk Hne. pose proof (verify_one_byte body k x Hb Hk Hne) as Hv. split.
  - exists (minimalOf (setNth (appendCRC body) k x)).
    split; [apply encodeMinimalLoop_spec | now rewrite decode_minimalOf].
  - rewrite decode_Join_words; [exact Hv |].
    apply setNth_nonempty, appendCRC_nonempty.
Qed.

(** The body byte of the payload of [able tied also webs lung] replaced
    by 1. *)
Lemma single_byte_corruption_detected_witness :
  [byteOfZ 0] <> []
  /\ (0 < List.length (appendCRC [byteOfZ 0]))%nat
  /\ nth_error (appendCRC [byteOfZ 0]) 0 <> Some (byteOfZ 1)
  /\ (exists s, encodeMinimalLoop (setNth (appendCRC [byteOfZ 0]) 0 (byteOfZ 1)) "" = Ok s
                /\ decode s 2 "" = Err crcMismatch)
  /\ decode (Join (map wordOf (setNth (appendCRC [byteOfZ 0]) 0 (byteOfZ 1))) " ") 4 " "
     = Err crcMismatch.
Proof.
  assert (H1 : [byteOfZ 0] <> []) by discriminate.
  assert (H2 : (0 < List.length (appendCRC [byteOfZ 0]))%nat) by (simpl; lia).
  assert (H3 : nth_error (appendCRC [byteOfZ 0]) 0 <> Some (byteOfZ 1))
    by (vm_compute; discriminate).
  split; [exact H1 |]. split; [exact H2 |]. split; [exact H3 |].
  exact (single_byte_corruption_detected [byteOfZ 0] 0 (byteOfZ 1) "" H1 H2 H3).
Defined.

(** ** C8: letter case *)

(** *** The middle letters of a standard token *)

Lemma lookupChars_selected (a d : byte) :
  letter a && letter d = true ->
  arrIndex lookupTable (lookupOffset a d) <> Ok (-1) ->
  exists val, lookupChars a d = Ok val.
Proof.
  intros H Hn. rewrite lookupChars_cases, H.
  destruct (lookupTable_defined a d H) as [val Hval]. rewrite Hval, bind_Ok.
  destruct (val =? -1) eqn:E; [| now exists val].
  apply Z.eqb_eq in E. subst val. contradiction.
Qed.

Lemma decodeWord_four_selected (a m1 m2 d : byte) (val : Z) :
  lookupChars a d = Ok val ->
  exists c1 c2,
    wordOf (byteOfZ val)
    = String (lowerByte a) (String c1 (String c2 (String (lowerByte d) "")))
    /\ isLower c1 = true /\ isLower c2 = true
    /\ decodeWord (String a (String m1 (String m2 (String d "")))) 4
       = if byte_eqb m1 c1 && byte_eqb m2 c2 then Ok (byteOfZ val) else Err invalidMiddle.
Proof.
  intros H. destruct (lookupChars_Ok a d val H) as (Hval & _).
  destruct (lookupChars_ends a d val H) as (c1 & c2 & Ew).
  exists c1, c2. split; [exact Ew |].
  destruct (wordOf_shape (byteOfZ val)) as (x0 & x1 & x2 & x3 & Ex & _ & L1 & L2 & _).
  rewrite Ew in Ex. injection Ex as _ E1 E2 _. subst x1 x2.
  split; [exact L1 |]. split; [exact L2 |].
  rewrite decodeWord_four, H, bind_Ok. unfold middleCheck.
  rewrite (arrIndex_words val Hval), bind_Ok, Ew, strIndex_1, bind_Ok.
  destruct (byte_eqb m1 c1); [| reflexivity]. cbn [negb andb].
  rewrite strIndex_2, bind_Ok. destruct (byte_eqb m2 c2); reflexivity.
Qed.

Lemma byte_eqb_isLower (m c : byte) :
  isLower c = true -> isLower m = false -> byte_eqb m c = false.
Proof. intros Hc Hm. apply byte_eqb_neq. intros ->. congruence. Qed.

Lemma decodeAll_wellCased (tokens : list string) :
  forall buf, decodeAll tokens 4 = Ok buf -> Forall wellCased tokens.
Proof.
  induction tokens as [| t tokens IH]; intros buf H; [constructor |].
  cbn [decodeAll] in H.
  apply bind_Ok_inv in H. destruct H as (b & Hb & H).
  apply bind_Ok_inv in H. destruct H as (bs & Hbs & _).
  constructor; [| exact (IH bs Hbs)].
  destruct (len_4_inv t (decodeWord_Ok_len t 4 b Hb)) as (a & m1 & m2 & d & ->).
  destruct (decodeWord_four_Ok a m1 m2 d b Hb) as (c0 & c3 & _ & L1 & L2).
  rewrite decodeWord_four in Hb.
  apply bind_Ok_inv in Hb. destruct Hb as (val & Hval & _).
  destruct (lookupChars_Ok a d val Hval) as (_ & La & Ld & _).
  exists a, m1, m2, d. repeat split; assumption.
Qed.

(** *** Lower-casing and the pieces of a string *)

Lemma lowerByte_cases (c : byte) :
  (isUpper c = true /\ isLower (lowerByte c) = true)
  \/ (isUpper c = false /\ lowerByte c = c).
Proof.
  unfold lowerByte, isUpper, isLower.
  destruct ((65 <=? byteZ c) && (byteZ c <=? 90)) eqn:E; [left | right; split; reflexivity].
  split; [reflexivity |].
  apply andb_true_iff in E. destruct E as [E1 E2]. apply Z.leb_le in E1, E2.
  rewrite byteZ_byteOfZ, Z.mod_small by lia.
  apply andb_true_iff. split; apply Z.leb_le; lia.
Qed.

Lemma isLower_not_isUpper (c : byte) : isLower c = true -> isUpper c = false.
Proof.
  unfold isLower, isUpper. intros H. apply andb_true_iff in H. destruct H as [H _].
  apply Z.leb_le in H. apply andb_false_iff. right. apply Z.leb_gt. lia.
Qed.

Lemma lowerByte_idem (c : byte) : lowerByte (lowerByte c) = lowerByte c.
Proof.
  destruct (lowerByte_cases c) as [[_ H] | [_ H]]; [| now rewrite H].
  destruct (lowerByte_cases (lowerByte c)) as [[H' _] | [_ H']]; [| exact H'].
  apply isLower_not_isUpper in H. congruence.
Qed.

Lemma lowerByte_noLetter (a c c' : byte) :
  noLetter a = true -> lowerByte c = lowerByte c' -> a = c -> a = c'.
Proof.
  intros Ha H ->. unfold noLetter in Ha. apply negb_true_iff, orb_false_iff in Ha.
  destruct Ha as [Hl Hu].
  destruct (lowerByte_cases c) as [[Hc _] | [_ Hc]]; [congruence |].
  rewrite Hc in H.
  destruct (lowerByte_cases c') as [[_ Hc'] | [_ Hc']]; [| congruence].
  rewrite <- H in Hc'. congruence.
Qed.

Lemma toLower_append (a b : string) :
  toLower (a ++ b) = (toLower a ++ toLower b)%string.
Proof. induction a as [| c a IH]; simpl; [reflexivity | now rewrite IH]. Qed.

Lemma toLower_lowerEnds (t : string) : toLower (lowerEnds t) = toLower t.
Proof.
  destruct t as [| a [| m1 [| m2 [| d [| e t]]]]]; try reflexivity.
  cbn [lowerEnds toLower]. now rewrite !lowerByte_idem.
Qed.

Lemma toLower_Join_lowerEnds (ts : list string) (sep : string) :
  toLower (Join (map lowerEnds ts) sep) = toLower (Join ts sep).
Proof.
  induction ts as [| t ts IH]; [reflexivity |].
  destruct ts as [| t' ts]; [apply toLower_lowerEnds |].
  change (Join (map lowerEnds (t :: t' :: ts)) sep)
    with (lowerEnds t ++ sep ++ Join (map lowerEnds (t' :: ts)) sep)%string.
  change (Join (t :: t' :: ts) sep) with (t ++ sep ++ Join (t' :: ts) sep)%string.
  now rewrite !toLower_append, toLower_lowerEnds, IH.
Qed.

Lemma append_inj_length (a b x y : string) :
  String.length a = String.length b -> (a ++ x)%string = (b ++ y)%string ->
  a = b /\ x = y.
Proof.
  revert b. induction a as [| c a IH]; intros [| c' b] Hl H; try discriminate.
  - now split.
  - cbn [append] in H. injection H as -> H. injection Hl as Hl.
    destruct (IH b Hl H) as [-> ->]. now split.
Qed.

Lemma Join_inj (sep : string) (ts ts' : list string) :
  Forall2 (fun t t' => String.length t = String.length t') ts ts' ->
  Join ts sep = Join ts' sep -> ts = ts'.
Proof.
  induction 1 as [| t t' ts ts' Hl HF IH]; intros H; [reflexivity |].
  destruct ts as [| q r], ts' as [| q' r']; try (now inversion HF).
  - cbn in H. now subst t'.
  - change (Join (t :: q :: r) sep) with (t ++ sep ++ Join (q :: r) sep)%string in H.
    change (Join (t' :: q' :: r') sep) with (t' ++ sep ++ Join (q' :: r') sep)%string in H.
    destruct (append_inj_length _ _ _ _ Hl H) as [-> H'].
    destruct (append_inj_length _ _ _ _ eq_refl H') as [_ H''].
    f_equal. now apply IH.
Qed.

(** *** [strings.Split] at a non-empty separator without letters *)

Lemma prefix_app (p s : string) :
  String.prefix p s = true -> exists rest, s = (p ++ rest)%string.
Proof.
  revert s. induction p as [| a p IH]; intros s H; [now exists s |].
  destruct s as [| c s]; [discriminate |]. cbn [String.prefix] in H.
  destruct (ascii_dec a c) as [-> | _]; [| discriminate].
  destruct (IH s H) as [rest ->]. now exists rest.
Qed.

Lemma splitFrom_skip (sep p : string) :
  forall rest cur,
    splitFrom sep (p ++ rest) (String.length p) cur = splitFrom sep rest 0 cur.
Proof.
  induction p as [| c p IH]; intros rest cur; [destruct rest; reflexivity |].
  cbn [append String.length splitFrom]. apply IH.
Qed.

(** Joining the pieces gives the string back. *)
Lemma Join_splitFrom_sep (a : byte) (sep' : string) (n : nat) :
  forall s cur,
    (String.length s <= n)%nat ->
    Join (splitFrom (String a sep') s 0 cur) (String a sep') = (cur ++ s)%string.
Proof.
  induction n as [| n IH]; intros s cur Hn.
  - destruct s; [| simpl in Hn; lia]. simpl. now rewrite append_nil_r.
  - destruct s as [| c s]; [simpl; now rewrite append_nil_r |].
    cbn [splitFrom].
    destruct (String.prefix (String a sep') (String c s)) eqn:E.
    + apply prefix_app in E. destruct E as [rest E].
      cbn [append] in E. injection E as -> ->.
      replace (String.length (String a sep') - 1)%nat with (String.length sep')
        by (cbn [String.length]; lia).
      rewrite splitFrom_skip.
      rewrite Join_cons by apply splitFrom_nonempty.
      rewrite IH; [reflexivity |].
      cbn [String.length] in Hn. rewrite length_append in Hn. lia.
    + rewrite IH by (cbn [String.length] in Hn; lia).
      now rewrite append_assoc.
Qed.

Lemma prefix_noLetter (sep : string) :
  allChars noLetter sep = true ->
  forall x y, toLower x = toLower y -> String.prefix sep x = String.prefix sep y.
Proof.
  induction sep as [| a sep IH]; intros Hs x y H; [destruct x, y; reflexivity |].
  cbn [allChars] in Hs. apply andb_true_iff in Hs. destruct Hs as [Ha Hs].
  destruct x as [| c x], y as [| c' y]; try discriminate; [reflexivity |].
  cbn [toLower] in H. injection H as Hc H. cbn [String.prefix].
  destruct (ascii_dec a c) as [E | E], (ascii_dec a c') as [E' | E'].
  - now apply IH.
  - exfalso. apply E'. exact (lowerByte_noLetter a c c' Ha Hc E).
  - exfalso. apply E. exact (lowerByte_noLetter a c' c Ha (eq_sym Hc) E').
  - reflexivity.
Qed.

(** Two strings that differ in the case of letters only are cut at the same
    offsets. *)
Lemma splitFrom_lengths (sep : string) :
  allChars noLetter sep = true ->
  forall u u' skip cur cur',
    toLower u = toLower u' -> String.length cur = String.length cur' ->
    Forall2 (fun t t' => String.length t = String.length t')
            (splitFrom sep u skip cur) (splitFrom sep u' skip cur').
Proof.
  intros Hs. induction u as [| c u IH]; intros [| c' u'] skip cur cur' H Hl;
    try discriminate.
  - constructor; [exact Hl | constructor].
  - pose proof (prefix_noLetter sep Hs _ _ H) as Hp.
    cbn [toLower] in H. injection H as _ H. cbn [splitFrom].
    destruct skip as [| k]; [| now apply IH].
    rewrite Hp. destruct (String.prefix sep (String c' u')).
    + constructor; [exact Hl | now apply IH].
    + apply IH; [exact H | rewrite !length_append; simpl; lia].
Qed.

Lemma Split_Join_lowerEnds (s : string) (a : byte) (sep' : string) :
  allChars noLetter (String a sep') = true ->
  Split (Join (map lowerEnds (Split s (String a sep'))) (String a sep')) (String a sep')
  = map lowerEnds (Split s (String a sep')).
Proof.
  intros Hs. cbn [Split]. set (sep := String a sep') in *.
  set (ts := splitFrom sep s 0 "").
  set (u := Join (map lowerEnds ts) sep).
  assert (Hu : toLower u = toLower s).
  { unfold u. rewrite toLower_Join_lowerEnds. unfold ts, sep.
    now rewrite (Join_splitFrom_sep a sep' (String.length s) s "" (le_n _)). }
  pose proof (splitFrom_lengths sep Hs u s 0%nat "" "" Hu eq_refl) as HF.
  fold ts in HF.
  apply (Join_inj sep).
  - clearbody ts. clear Hu. induction HF as [| t t' l l' Hl HF IH]; [constructor |].
    cbn [map]. constructor; [now rewrite length_lowerEnds | exact IH].
  - exact (Join_splitFrom_sep a sep' (String.length u) u "" (le_n _)).
Qed.

(** *** [strings.Split] at the empty separator *)

Lemma highPrefix_0 (s : string) : highPrefix 0 s = true.
Proof. destruct s; reflexivity. Qed.

Lemma runeSize_high (c : byte) (s : string) :
  (runeSize (String c s) - 1)%nat <> 0%nat ->
  high c = true /\ highPrefix (runeSize (String c s) - 1) s = true.
Proof.
  unfold runeSize, inRange, high. cbv zeta.
  destruct (byteZ c <? 194) eqn:E1; [intros H; now contradict H |].
  apply Z.ltb_ge in E1. intros H. split; [apply Z.leb_le; lia |]. revert H.
  destruct (byteZ c <? 224).
  { destruct s as [| s1 s]; [intros H; now contradict H |].
    destruct ((128 <=? byteZ s1) && (byteZ s1 <=? 191)) eqn:C1; [| intros H; now contradict H].
    intros _. cbn [Nat.sub highPrefix]. unfold high.
    apply andb_true_iff in C1. destruct C1 as [C1 _]. rewrite C1. reflexivity. }
  destruct (byteZ c <? 240).
  { destruct s as [| s1 [| s2 s]]; try (intros H; now contradict H).
    destruct (((if byteZ c =? 224 then 160 else 128) <=? byteZ s1)
              && (byteZ s1 <=? (if byteZ c =? 237 then 159 else 191))
              && ((128 <=? byteZ s2) && (byteZ s2 <=? 191))) eqn:C; [| intros H; now contradict H].
    intros _. cbn [Nat.sub highPrefix]. unfold high.
    apply andb_true_iff in C. destruct C as [C1 C2].
    apply andb_true_iff in C1. destruct C1 as [C1 _].
    apply andb_true_iff in C2. destruct C2 as [C2 _]. rewrite C2.
    replace (128 <=? byteZ s1) with true
      by (symmetry; apply Z.leb_le; apply Z.leb_le in C1; destruct (byteZ c =? 224); lia).
    reflexivity. }
  destruct (byteZ c <? 245); [| intros H; now contradict H].
  destruct s as [| s1 [| s2 [| s3 s]]]; try (intros H; now contradict H).
  destruct (((if byteZ c =? 240 then 144 else 128) <=? byteZ s1)
            && (byteZ s1 <=? (if byteZ c =? 244 then 143 else 191))
            && ((128 <=? byteZ s2) && (byteZ s2 <=? 191))
            && ((128 <=? byteZ s3) && (byteZ s3 <=? 191))) eqn:C; [| intros H; now contradict H].
  intros _. cbn [Nat.sub highPrefix]. unfold high.
  apply andb_true_iff in C. destruct C as [C C3].
  apply andb_true_iff in C. destruct C as [C1 C2].
  apply andb_true_iff in C1. destruct C1 as [C1 _].
  apply andb_true_iff in C2. destruct C2 as [C2 _].
  apply andb_true_iff in C3. destruct C3 as [C3 _]. rewrite C2, C3.
  replace (128 <=? byteZ s1) with true
    by (symmetry; apply Z.leb_le; apply Z.leb_le in C1; destruct (byteZ c =? 240); lia).
  reflexivity.
Qed.

(** The pieces of [explode] are single bytes or bytes outside ASCII. *)
Lemma explodeFrom_runeTokens (s : string) :
  forall more cur,
    runeToken cur = true ->
    (more <> 0%nat -> allChars high cur = true /\ highPrefix more s = true) ->
    Forall (fun t => runeToken t = true) (explodeFrom s more cur).
Proof.
  induction s as [| c s IH]; intros more cur Hcur Hmore.
  - cbn [explodeFrom]. destruct cur; constructor; [exact Hcur | constructor].
  - cbn [explodeFrom]. destruct more as [| k].
    + assert (Hnext : Forall (fun t => runeToken t = true)
                        (explodeFrom s (runeSize (String c s) - 1) (String c ""))).
      { apply IH; [reflexivity |]. intros Hk.
        destruct (runeSize_high c s Hk) as [Hc Hp]. split; [| exact Hp].
        cbn [allChars]. now rewrite Hc. }
      destruct cur; [exact Hnext | constructor; [exact Hcur | exact Hnext]].
    + destruct (Hmore (Nat.neq_succ_0 k)) as [Hh Hp].
      cbn [highPrefix] in Hp. apply andb_true_iff in Hp. destruct Hp as [Hc Hp].
      assert (Hh' : allChars high (cur ++ String c "") = true)
        by (rewrite allChars_append, Hh; cbn [allChars]; now rewrite Hc).
      apply IH.
      * unfold runeToken. rewrite Hh'. apply orb_true_r.
      * intros _. split; [exact Hh' | exact Hp].
Qed.

Lemma high_lowerByte (c : byte) : high c = true -> lowerByte c = c.
Proof.
  unfold high. intros H. apply Z.leb_le in H.
  destruct (lowerByte_cases c) as [[Hu _] | [_ Hc]]; [| exact Hc].
  unfold isUpper in Hu. apply andb_true_iff in Hu. destruct Hu as [_ Hu].
  apply Z.leb_le in Hu. lia.
Qed.

Lemma runeToken_lowerEnds (t : string) : runeToken t = true -> lowerEnds t = t.
Proof.
  destruct t as [| a [| m1 [| m2 [| d [| e t]]]]]; try reflexivity.
  unfold runeToken. cbn [String.length Nat.leb orb allChars]. intros H.
  apply andb_true_iff in H. destruct H as [Ha H].
  apply andb_true_iff in H. destruct H as [_ H].
  apply andb_true_iff in H. destruct H as [_ H].
  apply andb_true_iff in H. destruct H as [Hd _].
  cbn [lowerEnds]. now rewrite (high_lowerByte a Ha), (high_lowerByte d Hd).
Qed.

Lemma explode_lowerEnds (s : string) :
  map lowerEnds (explodeFrom s 0 "") = explodeFrom s 0 "".
Proof.
  pose proof (explodeFrom_runeTokens s 0 "" eq_refl) as H.
  assert (HF : Forall (fun t => runeToken t = true) (explodeFrom s 0 ""))
    by (apply H; intros H0; now contradict H0).
  clear H. induction HF as [| t l Ht _ IH]; [reflexivity |].
  cbn [map]. now rewrite (runeToken_lowerEnds t Ht), IH.
Qed.

Lemma explodeFrom_nonempty (s : string) :
  forall more cur, cur <> "" -> explodeFrom s more cur <> [].
Proof.
  induction s as [| c s IH]; intros more cur H.
  - cbn [explodeFrom]. destruct cur; [congruence | discriminate].
  - cbn [explodeFrom]. destruct more as [| k].
    + destruct cur; [congruence | discriminate].
    + apply IH. destruct cur; discriminate.
Qed.

Lemma Join_explodeFrom (s : string) :
  forall more cur, Join (explodeFrom s more cur) "" = (cur ++ s)%string.
Proof.
  induction s as [| c s IH]; intros more cur.
  - cbn [explodeFrom]. destruct cur; [reflexivity |]. cbn. now rewrite append_nil_r.
  - cbn [explodeFrom]. destruct more as [| k].
    + destruct cur as [| x cur]; [apply IH |].
      rewrite Join_cons by (apply explodeFrom_nonempty; discriminate).
      now rewrite IH.
    + now rewrite IH, append_assoc.
Qed.

(** *** The standard variant at any separator without letters *)

Lemma decode_lowerEnds_noLetter (s sep : string) :
  allChars noLetter sep = true ->
  decode (Join (map lowerEnds (Split s sep)) sep) 4 sep = decode s 4 sep.
Proof.
  intros Hs. destruct sep as [| a sep'].
  - cbn [Split]. now rewrite explode_lowerEnds, Join_explodeFrom.
  - rewrite !decode_stages. unfold tokenize. change (4 =? 4) with true. cbv iota.
    rewrite !bind_Ok, (Split_Join_lowerEnds s a sep' Hs).
    now rewrite (decodeAll_ext lowerEnds 4 decodeWord_lowerEnds).
Qed.

(** C8, as the code has it. [decode] normalizes the case of the letters it
    looks up, the first and last of every token.  In the minimal variant
    decoding an input equals decoding the input with all letters lower-cased.
    In the standard variant, at the space separator and at every other
    separator without a letter in it (the empty one included), decoding an
    input equals decoding it with the first and last letter of every word
    lower-cased.  The two middle letters are compared as they are: a token
    decodes only if they are the lower-case middle letters of the table word,
    an input is accepted only if every word has letters at its ends and
    lower-case letters in between, and a token whose ends select a table word
    decodes to its byte if the middle letters are those of the word and is
    rejected with "invalid bytewords middle chars" if they are not, as for
    every middle letter that is not lower-case.  A token of the variant's
    width whose first or last byte is outside [a-z] after normalization is
    rejected with "invalid bytewords"; if both are inside, that error means
    the pair has no table entry, whatever the middle is. *)
Theorem decode_case_normalization :
  (forall s sep, decode (toLower s) 2 sep = decode s 2 sep)
  /\ (forall s, decode (Join (map lowerEnds (Split s " ")) " ") 4 " " = decode s 4 " ")
  /\ (forall s sep,
        allChars noLetter sep = true ->
        decode (Join (map lowerEnds (Split s sep)) sep) 4 sep = decode s 4 sep)
  /\ (forall a m1 m2 d b,
        decodeWord (String a (String m1 (String m2 (String d "")))) 4 = Ok b ->
        exists c0 c3,
          wordOf b = String c0 (String m1 (String m2 (String c3 "")))
          /\ isLower m1 = true /\ isLower m2 = true)
  /\ (forall s sep body,
        decode s 4 sep = Ok body -> Forall wellCased (Split s sep))
  /\ (forall a m1 m2 d,
        letter a && letter d = true ->
        arrIndex lookupTable (lookupOffset a d) <> Ok (-1) ->
        exists b c1 c2,
          wordOf b = String (lowerByte a) (String c1 (String c2 (String (lowerByte d) "")))
          /\ isLower c1 = true /\ isLower c2 = true
          /\ decodeWord (String a (String m1 (String m2 (String d "")))) 4
             = (if byte_eqb m1 c1 && byte_eqb m2 c2 then Ok b else Err invalidMiddle)
          /\ (isLower m1 && isLower m2 = false ->
              decodeWord (String a (String m1 (String m2 (String d "")))) 4
              = Err invalidMiddle))
  /\ (forall a d,
        letter a && letter d = false ->
        decodeWord (String a (String d "")) 2 = Err invalidBytewords
        /\ forall m1 m2,
             decodeWord (String a (String m1 (String m2 (String d "")))) 4
             = Err invalidBytewords)
  /\ (forall a d,
        letter a && letter d = true ->
        (decodeWord (String a (String d "")) 2 = Err invalidBytewords
         <-> arrIndex lookupTable (lookupOffset a d) = Ok (-1))
        /\ forall m1 m2,
             decodeWord (String a (String m1 (String m2 (String d "")))) 4
             = Err invalidBytewords
             <-> arrIndex lookupTable (lookupOffset a d) = Ok (-1)).
Proof.
  split; [exact decode_toLower_minimal |].
  split; [exact decode_lowerEnds_standard |].
  split; [exact decode_lowerEnds_noLetter |].
  split; [exact decodeWord_four_Ok |].
  split.
  { intros s sep body H. rewrite decode_stages in H. unfold tokenize in H.
    change (4 =? 4) with true in H. cbv iota in H. rewrite bind_Ok in H.
    apply bind_Ok_inv in H. destruct H as (buf & Hbuf & _).
    exact (decodeAll_wellCased _ buf Hbuf). }
  split.
  { intros a m1 m2 d H Hn.
    destruct (lookupChars_selected a d H Hn) as [val Hval].
    destruct (decodeWord_four_selected a m1 m2 d val Hval) as (c1 & c2 & Ew & L1 & L2 & Hd).
    exists (byteOfZ val), c1, c2.
    split; [exact Ew |]. split; [exact L1 |]. split; [exact L2 |].
    split; [exact Hd |].
    intros Hm. rewrite Hd. apply andb_false_iff in Hm.
    destruct Hm as [Hm | Hm].
    - now rewrite (byte_eqb_isLower m1 c1 L1 Hm).
    - rewrite (byte_eqb_isLower m2 c2 L2 Hm). now rewrite andb_false_r. }
  split.
  - intros a d H. split; [| intros m1 m2].
    + now rewrite decodeWord_two, lookupChars_cases, H.
    + now rewrite decodeWord_four, lookupChars_cases, H.
  - intros a d H. destruct (lookupTable_defined a d H) as [val Hval].
    split; [| intros m1 m2].
    + rewrite decodeWord_two, lookupChars_cases, H, Hval, bind_Ok.
      destruct (val =? -1) eqn:E.
      * apply Z.eqb_eq in E. subst val. split; reflexivity.
      * apply Z.eqb_neq in E. simpl. split; [discriminate |].
        intros H'. injection H' as H'. contradiction.
    + rewrite decodeWord_four, lookupChars_cases, H, Hval, bind_Ok.
      destruct (val =? -1) eqn:E.
      * apply Z.eqb_eq in E. subst val. split; reflexivity.
      * apply Z.eqb_neq in E. rewrite bind_Ok. split.
        -- intros H'. exfalso.
           destruct (middleCheck m1 m2 val) as [[] | e | p | msg] eqn:Em;
             simpl in H'; try discriminate.
           injection H' as ->. now apply (middleCheck_not_invalidBytewords m1 m2 val).
        -- intros H'. injection H' as H'. contradiction.
Qed.

(** C8, as the spec states it, fails in the standard variant: a capital in
    the middle of a word is rejected, its lower-case form is accepted. *)
Lemma interior_case_matters :
  toLower "aBle tied also webs lung" = "able tied also webs lung"
  /\ decode "able tied also webs lung" 4 " " = Ok [byteOfZ 0]
  /\ decode "aBle tied also webs lung" 4 " " = Err invalidMiddle.
Proof. repeat split; vm_compute; reflexivity. Qed.

Example first_last_case_ignored :
  decode "AblE TieD alsO webs lung" 4 " " = Ok [byteOfZ 0]
  /\ decode "AETDAOWSLG" 2 "" = Ok [byteOfZ 0]
  /\ decode "AblE-TieD-alsO-webs-lung" 4 "-" = Ok [byteOfZ 0].
Proof. repeat split; vm_compute; reflexivity. Qed.

(** A capital in the middle of a token whose ends select no table word:
    the lookup fails before the middle is compared. *)
Example interior_case_without_entry :
  decodeWord "aBlz" 4 = Err invalidBytewords
  /\ decodeWord "ablz" 4 = Err invalidBytewords
  /\ decodeWord "aBle" 4 = Err invalidMiddle.
Proof. repeat split; vm_compute; reflexivity. Qed.

(** A separator made of letters: lower-casing the first letter of a word can
    make a separator of it, and the two inputs are cut differently. *)
Example letter_separator_case_matters :
  Split "Able" "a" = ["Able"]
  /\ Join (map lowerEnds (Split "Able" "a")) "a" = "able"
  /\ Split "able" "a" = [""; "ble"]
  /\ decode "Able" 4 "a" = Err tooShort
  /\ decode "able" 4 "a" = Err invalidLength.
Proof. repeat split; vm_compute; reflexivity. Qed.

(** ** The record mapping and [Decode] *)

Lemma arrIndex_Ok_iff {A : Type} (l : list A) (i : Z) (x : A) :
  arrIndex l i = Ok x <-> 0 <= i /\ nth_error l (Z.to_nat i) = Some x.
Proof.
  unfold arrIndex. destruct ((i <? 0) || (lenS l <=? i)) eqn:E.
  - split; [discriminate |]. intros [H0 Hn].
    apply orb_true_iff in E. destruct E as [E | E].
    + apply Z.ltb_lt in E. lia.
    + apply Z.leb_le in E. unfold lenS in E.
      assert (Hlt : (Z.to_nat i < List.length l)%nat) by (apply nth_error_Some; congruence).
      lia.
  - apply orb_false_iff in E. destruct E as [E _]. apply Z.ltb_ge in E.
    destruct (nth_error l (Z.to_nat i)) as [y |].
    + split; [intros H; injection H as ->; now split | intros [_ H]; now injection H as ->].
    + split; [discriminate | intros [_ H]; discriminate].
Qed.

Section PipelineShape.

Variable float64 : Type.
Variable intOfFloat64 : float64 -> Z.
Variable cborValue : Type.
Variable gzipReader : Type.
Variable cborUnmarshalBytes : list byte -> outcome (list byte).
Variable gzipNewReader : list byte -> outcome gzipReader.
Variable ioReadAll : gzipReader -> outcome (list byte).
Variable cborUnmarshalAny : list byte -> outcome cborValue.
Variable jsonMarshalIndent : cborValue -> outcome (list byte).
Variable jsonUnmarshalSlice : list byte -> outcome (list (Pipeline.any float64)).

Local Abbreviation value := (Pipeline.any float64).
Local Abbreviation mapAccount := (Pipeline.mapAccount float64 intOfFloat64).
Local Abbreviation mapAccounts := (Pipeline.mapAccounts float64 intOfFloat64).
Local Abbreviation mapRecords := (Pipeline.mapRecords float64 intOfFloat64).
Local Abbreviation intAt := (Pipeline.intAt float64 intOfFloat64).
Local Abbreviation stringAt := (Pipeline.stringAt float64).
Local Abbreviation boolAt := (Pipeline.boolAt float64).
Local Abbreviation sliceAt := (Pipeline.sliceAt float64).
Local Abbreviation ASlice := (@Pipeline.ASlice float64).
Local Abbreviation AFloat64 := (@Pipeline.AFloat64 float64).
Local Abbreviation AString := (@Pipeline.AString float64).
Local Abbreviation ABool := (@Pipeline.ABool float64).
Local Abbreviation Decode :=
  (Pipeline.Decode float64 intOfFloat64 cborValue gzipReader cborUnmarshalBytes
                   gzipNewReader ioReadAll cborUnmarshalAny jsonMarshalIndent
                   jsonUnmarshalSlice).

Lemma intAt_Ok_iff (a : list value) (i : Z) (v : Z) :
  0 <= i ->
  intAt a i = Ok v
  <-> exists f, nth_error a (Z.to_nat i) = Some (AFloat64 f) /\ v = intOfFloat64 f.
Proof.
  intros Hi. unfold Pipeline.intAt. split.
  - intros H. apply bind_Ok_inv in H. destruct H as (x & Hx & H).
    apply arrIndex_Ok_iff in Hx. destruct Hx as [_ Hx].
    destruct x; try discriminate. simpl in H. injection H as <-. now exists f.
  - intros (f & Hn & ->).
    rewrite (proj2 (arrIndex_Ok_iff a i (AFloat64 f)) (conj Hi Hn)). reflexivity.
Qed.

Lemma stringAt_Ok_iff (a : list value) (i : Z) (v : string) :
  0 <= i -> stringAt a i = Ok v <-> nth_error a (Z.to_nat i) = Some (AString v).
Proof.
  intros Hi. unfold Pipeline.stringAt. split.
  - intros H. apply bind_Ok_inv in H. destruct H as (x & Hx & H).
    apply arrIndex_Ok_iff in Hx. destruct Hx as [_ Hx].
    destruct x; try discriminate. simpl in H. now injection H as <-.
  - intros Hn. rewrite (proj2 (arrIndex_Ok_iff a i (AString v)) (conj Hi Hn)). reflexivity.
Qed.

Lemma boolAt_Ok_iff (a : list value) (i : Z) (v : bool) :
  0 <= i -> boolAt a i = Ok v <-> nth_error a (Z.to_nat i) = Some (ABool v).
Proof.
  intros Hi. unfold Pipeline.boolAt. split.
  - intros H. apply bind_Ok_inv in H. destruct H as (x & Hx & H).
    apply arrIndex_Ok_iff in Hx. destruct Hx as [_ Hx].
    destruct x; try discriminate. simpl in H. now injection H as <-.
  - intros Hn. rewrite (proj2 (arrIndex_Ok_iff a i (ABool v)) (conj Hi Hn)). reflexivity.
Qed.

Lemma sliceAt_Ok_iff (a : list value) (i : Z) (v : list value) :
  0 <= i -> sliceAt a i = Ok v <-> nth_error a (Z.to_nat i) = Some (ASlice v).
Proof.
  intros Hi. unfold Pipeline.sliceAt. split.
  - intros H. apply bind_Ok_inv in H. destruct H as (x & Hx & H).
    apply arrIndex_Ok_iff in Hx. destruct Hx as [_ Hx].
    destruct x; try discriminate. simpl in H. now injection H as <-.
  - intros Hn. rewrite (proj2 (arrIndex_Ok_iff a i (ASlice v)) (conj Hi Hn)). reflexivity.
Qed.

(** X10. The shape of an account entry that the record mapping accepts:
    [mapAccount] returns an [Account] exactly for a sequence that starts with
    number, number, string, number and a sequence that starts with three
    strings, two booleans and two strings; the fields are these values in
    this order, and whatever follows the fifth element of the entry or the
    seventh of the wallet is ignored. *)
Theorem mapAccount_accepts_shape (a : value) (account : Account) :
  mapAccount a = Ok account
  <-> exists id index type block derivationPath chainCode name internal1 internal2
             someBytes xPub restWallet restEntry,
        a = ASlice (AFloat64 id :: AFloat64 index :: AString type :: AFloat64 block
                    :: ASlice (AString derivationPath :: AString chainCode
                               :: AString name :: ABool internal1 :: ABool internal2
                               :: AString someBytes :: AString xPub :: restWallet)
                    :: restEntry)
        /\ account = mkAccount (intOfFloat64 id) (intOfFloat64 index) type
                               (intOfFloat64 block)
                               (mkWalletInfo derivationPath chainCode name internal1
                                             internal2 someBytes xPub).
Proof.
  split.
  - intros H. unfold Pipeline.mapAccount in H.
    apply bind_Ok_inv in H. destruct H as (arr & Harr & H).
    destruct a; try discriminate. simpl in Harr. injection Harr as ->.
    apply bind_Ok_inv in H. destruct H as (w & Hw & H).
    apply bind_Ok_inv in H. destruct H as (id & Hid & H).
    apply bind_Ok_inv in H. destruct H as (index & Hindex & H).
    apply bind_Ok_inv in H. destruct H as (type & Htype & H).
    apply bind_Ok_inv in H. destruct H as (block & Hblock & H).
    apply bind_Ok_inv in H. destruct H as (dp & Hdp & H).
    apply bind_Ok_inv in H. destruct H as (cc & Hcc & H).
    apply bind_Ok_inv in H. destruct H as (name & Hname & H).
    apply bind_Ok_inv in H. destruct H as (i1 & Hi1 & H).
    apply bind_Ok_inv in H. destruct H as (i2 & Hi2 & H).
    apply bind_Ok_inv in H. destruct H as (sb & Hsb & H).
    apply bind_Ok_inv in H. destruct H as (xp & Hxp & H).
    injection H as <-.
    apply sliceAt_Ok_iff in Hw; [| lia].
    apply intAt_Ok_iff in Hid; [| lia]. destruct Hid as (fid & Hid & ->).
    apply intAt_Ok_iff in Hindex; [| lia]. destruct Hindex as (findex & Hindex & ->).
    apply stringAt_Ok_iff in Htype; [| lia].
    apply intAt_Ok_iff in Hblock; [| lia]. destruct Hblock as (fblock & Hblock & ->).
    apply stringAt_Ok_iff in Hdp; [| lia]. apply stringAt_Ok_iff in Hcc; [| lia].
    apply stringAt_Ok_iff in Hname; [| lia]. apply boolAt_Ok_iff in Hi1; [| lia].
    apply boolAt_Ok_iff in Hi2; [| lia]. apply stringAt_Ok_iff in Hsb; [| lia].
    apply stringAt_Ok_iff in Hxp; [| lia].
    destruct arr as [| e0 [| e1 [| e2 [| e3 [| e4 restEntry]]]]]; try discriminate.
    simpl in Hw, Hid, Hindex, Htype, Hblock.
    injection Hw as ->. injection Hid as ->. injection Hindex as ->.
    injection Htype as ->. injection Hblock as ->.
    destruct w as [| w0 [| w1 [| w2 [| w3 [| w4 [| w5 [| w6 restWallet]]]]]]];
      try discriminate.
    simpl in Hdp, Hcc, Hname, Hi1, Hi2, Hsb, Hxp.
    injection Hdp as ->. injection Hcc as ->. injection Hname as ->.
    injection Hi1 as ->. injection Hi2 as ->. injection Hsb as ->. injection Hxp as ->.
    exists fid, findex, type, fblock, dp, cc, name, i1, i2, sb, xp, restWallet, restEntry.
    split; reflexivity.
  - intros (id & index & type & block & dp & cc & name & i1 & i2 & sb & xp
            & restWallet & restEntry & -> & ->).
    set (w := AString dp :: AString cc :: AString name :: ABool i1 :: ABool i2
              :: AString sb :: AString xp :: restWallet).
    set (arr := AFloat64 id :: AFloat64 index :: AString type :: AFloat64 block
                :: ASlice w :: restEntry).
    assert (Hw : sliceAt arr 4 = Ok w) by (apply sliceAt_Ok_iff; [lia | reflexivity]).
    assert (H0 : intAt arr 0 = Ok (intOfFloat64 id))
      by (apply intAt_Ok_iff; [lia | now exists id]).
    assert (H1 : intAt arr 1 = Ok (intOfFloat64 index))
      by (apply intAt_Ok_iff; [lia | now exists index]).
    assert (H2 : stringAt arr 2 = Ok type) by (apply stringAt_Ok_iff; [lia | reflexivity]).
    assert (H3 : intAt arr 3 = Ok (intOfFloat64 block))
      by (apply intAt_Ok_iff; [lia | now exists block]).
    assert (W0 : stringAt w 0 = Ok dp) by (apply stringAt_Ok_iff; [lia | reflexivity]).
    assert (W1 : stringAt w 1 = Ok cc) by (apply stringAt_Ok_iff; [lia | reflexivity]).
    assert (W2 : stringAt w 2 = Ok name) by (apply stringAt_Ok_iff; [lia | reflexivity]).
    assert (W3 : boolAt w 3 = Ok i1) by (apply boolAt_Ok_iff; [lia | reflexivity]).
    assert (W4 : boolAt w 4 = Ok i2) by (apply boolAt_Ok_iff; [lia | reflexivity]).
    assert (W5 : stringAt w 5 = Ok sb) by (apply stringAt_Ok_iff; [lia | reflexivity]).
    assert (W6 : stringAt w 6 = Ok xp) by (apply stringAt_Ok_iff; [lia | reflexivity]).
    unfold Pipeline.mapAccount. cbn [Pipeline.assertSlice bind].
    rewrite Hw, bind_Ok, H0, bind_Ok, H1, bind_Ok, H2, bind_Ok, H3, bind_Ok.
    rewrite W0, bind_Ok, W1, bind_Ok, W2, bind_Ok, W3, bind_Ok, W4, bind_Ok.
    rewrite W5, bind_Ok, W6, bind_Ok. reflexivity.
Qed.

Lemma mapAccounts_Ok_iff (accList : list value) :
  forall (accounts result : list Account),
    mapAccounts accList accounts = Ok result
    <-> exists mapped,
          Forall2 (fun a account => mapAccount a = Ok account) accList mapped
          /\ result = accounts ++ mapped.
Proof.
  induction accList as [| a accList IH]; intros accounts result.
  - cbn [Pipeline.mapAccounts]. split.
    + intros H. injection H as <-. exists []. split; [constructor | now rewrite app_nil_r].
    + intros (mapped & HF & ->). inversion HF. now rewrite app_nil_r.
  - cbn [Pipeline.mapAccounts]. split.
    + intros H. apply bind_Ok_inv in H. destruct H as (account & Ha & H).
      apply IH in H. destruct H as (mapped & HF & ->).
      exists (account :: mapped). split; [now constructor | now rewrite <- app_assoc].
    + intros (mapped & HF & ->). inversion HF as [| a' account l mapped' Ha HF' E1 E2].
      subst. rewrite Ha, bind_Ok. apply IH. exists mapped'.
      split; [exact HF' | now rewrite <- app_assoc].
Qed.

(** X11. The [Root] of the record mapping: [mapRecords] returns [root]
    exactly when index 0 of the tree is a number, the version, index 1 is a
    sequence, and the accounts of [root] are the mapped entries of that
    sequence, one for each entry and in the order of the entries; elements
    of the tree behind index 1 are ignored. *)
Theorem mapRecords_keeps_order (raw : list value) (root : Root) :
  mapRecords raw = Ok root
  <-> exists version accList,
        nth_error raw 0 = Some (AFloat64 version)
        /\ nth_error raw 1 = Some (ASlice accList)
        /\ Version root = intOfFloat64 version
        /\ Forall2 (fun a account => mapAccount a = Ok account) accList (Accounts root).
Proof.
  unfold Pipeline.mapRecords. split.
  - intros H. apply bind_Ok_inv in H. destruct H as (v & Hv & H).
    apply bind_Ok_inv in H. destruct H as (accList & Hl & H).
    apply bind_Ok_inv in H. destruct H as (accounts & Ha & H). injection H as <-.
    apply intAt_Ok_iff in Hv; [| lia]. destruct Hv as (version & Hv & ->).
    apply sliceAt_Ok_iff in Hl; [| lia].
    apply mapAccounts_Ok_iff in Ha. destruct Ha as (mapped & HF & ->).
    exists version, accList. repeat split; assumption.
  - intros (version & accList & H0 & H1 & Hv & HF). destruct root as [v accounts].
    cbn [Version Accounts] in Hv, HF. subst v.
    rewrite (proj2 (intAt_Ok_iff raw 0 _ ltac:(lia)) (ex_intro _ version (conj H0 eq_refl))), bind_Ok.
    rewrite (proj2 (sliceAt_Ok_iff raw 1 _ ltac:(lia)) H1), bind_Ok.
    rewrite (proj2 (mapAccounts_Ok_iff accList [] accounts) (ex_intro _ accounts (conj HF eq_refl))).
    reflexivity.
Qed.

(** X12. [Decode] does not look at the case of its input: an input and its
    lower-cased form have the same outcome, whatever the collaborators are. *)
Theorem Decode_ignores_case (input : string) : Decode (toLower input) = Decode input.
Proof. unfold Pipeline.Decode. now rewrite decode_toLower_minimal. Qed.

(** X13. [Decode] on an input with an odd number of bytes panics in the
    chunk loop of the bytewords stage: no [log.Fatal] message names the
    stage and no collaborator is called. *)
Theorem Decode_odd_input_panics (input : string) :
  Nat.odd (String.length input) = true ->
  exists j, Decode input = Panic (SliceBoundsOutOfRange j (len input)).
Proof.
  intros H. destruct (decode_odd_length_panics input "" H) as [j Hj].
  exists j. unfold Pipeline.Decode. now rewrite Hj.
Qed.

(** X14. What [Decode] accepts at its first stage: if [Decode] returns a
    [Root], the input is, up to the case of its letters, the minimal encoding
    of the non-empty byte sequence that was handed to the outer container
    decoder; it has an even length of at least 10 bytes. *)
Theorem Decode_accepts_minimal_encodings (input : string) (root : Root) :
  Decode input = Ok root ->
  exists decoded outer,
    decoded <> []
    /\ encodeMinimal decoded = Ok (toLower input)
    /\ cborUnmarshalBytes decoded = Ok outer
    /\ len input = 2 * (lenS decoded + 4)
    /\ 10 <= len input.
Proof.
  intros H. unfold Pipeline.Decode in H.
  destruct (decode input 2 "") as [decoded | | |] eqn:E0; try discriminate.
  cbn [orFatal bind] in H.
  destruct (cborUnmarshalBytes decoded) as [outer | | |] eqn:E1; try discriminate.
  exists decoded, outer.
  pose proof (proj1 (decode_minimal_iff input "" decoded) E0) as [Hne Henc].
  assert (Hlen : len input = 2 * (lenS decoded + 4)).
  { rewrite encodeMinimal_spec in Henc. injection Henc as Henc.
    now rewrite <- len_toLower, <- Henc, len_minimalOf, lenS_appendCRC. }
  apply lenS_pos_nonempty in Hne as Hpos.
  repeat split; try assumption. lia.
Qed.

End PipelineShape.

Lemma Decode_odd_input_panics_witness :
  Nat.odd (String.length "aetdaowsl") = true
  /\ exists j, testDecode "aetdaowsl" = Panic (SliceBoundsOutOfRange j (len "aetdaowsl")).
Proof.
  split; [reflexivity |].
  exact (Decode_odd_input_panics Z (fun f => f) unit unit (fun b => Ok b) (fun _ => Ok tt)
           (fun _ => Ok []) (fun _ => Ok tt) (fun _ => Ok []) (fun _ => Ok shortTree)
           "aetdaowsl" eq_refl).
Defined.

(** The test collaborators accept the minimal encoding of the byte 0 up to
    the record mapping; with a well-formed tree instead of [shortTree] the
    hypothesis of X14 holds, here for the tree of one complete account. *)
Lemma Decode_accepts_minimal_encodings_witness :
  Pipeline.Decode Z (fun f => f) unit unit (fun b => Ok b) (fun _ => Ok tt)
                  (fun _ => Ok []) (fun _ => Ok tt) (fun _ => Ok [])
                  (fun _ => Ok fullTree) "aetdaowslg"
  = Ok fullRoot
  /\ exists decoded outer,
       decoded <> []
       /\ encodeMinimal decoded = Ok (toLower "aetdaowslg")
       /\ Ok decoded = Ok outer
       /\ len "aetdaowslg" = 2 * (lenS decoded + 4)
       /\ 10 <= len "aetdaowslg".
Proof.
  assert (H : Pipeline.Decode Z (fun f => f) unit unit (fun b => Ok b) (fun _ => Ok tt)
                (fun _ => Ok []) (fun _ => Ok tt) (fun _ => Ok [])
                (fun _ => Ok fullTree) "aetdaowslg" = Ok fullRoot)
    by (vm_compute; reflexivity).
  split; [exact H |].
  exact (Decode_accepts_minimal_encodings Z (fun f => f) unit unit (fun b => Ok b)
           (fun _ => Ok tt) (fun _ => Ok []) (fun _ => Ok tt) (fun _ => Ok [])
           (fun _ => Ok fullTree) "aetdaowslg" fullRoot H).
Defined.

(** ** [init] *)

Lemma strSlice_bytewords (i : nat) :
  (i < 256)%nat ->
  strSlice bytewords (Z.of_nat i * 4) (Z.of_nat i * 4 + 4) = Ok (wordAt i).
Proof.
  intros H. unfold strSlice. change (len bytewords) with 1024.
  replace ((Z.of_nat i * 4 + 4 <? 0) || (1024 <? Z.of_nat i * 4 + 4)) with false
    by (symmetry; apply orb_false_iff; split; apply Z.ltb_ge; lia).
  replace ((Z.of_nat i * 4 <? 0) || (Z.of_nat i * 4 + 4 <? Z.of_nat i * 4)) with false
    by (symmetry; apply orb_false_iff; split; apply Z.ltb_ge; lia).
  unfold wordAt. f_equal. f_equal; lia.
Qed.

(** The first loop of [init] overwrites every element of [words]. *)
Lemma buildWords_overwrites (n : nat) :
  forall (k : nat) (done rest : list string),
    List.length done = k -> List.length rest = n -> (k + n <= 256)%nat ->
    buildWords (map Z.of_nat (seq k n)) (done ++ rest)
    = Ok (done ++ map wordAt (seq k n)).
Proof.
  induction n as [| n IH]; intros k done rest Hd Hr Hk.
  - destruct rest; [reflexivity | discriminate].
  - destruct rest as [| r rest]; [discriminate |].
    cbn [seq map buildWords]. rewrite strSlice_bytewords, bind_Ok by lia.
    replace (Z.of_nat k) with (lenS done) by (unfold lenS; now rewrite Hd).
    rewrite arrStore_app, bind_Ok.
    replace (done ++ wordAt k :: rest) with ((done ++ [wordAt k]) ++ rest)
      by (now rewrite <- app_assoc).
    rewrite IH; [now rewrite <- app_assoc | | | lia].
    + rewrite length_app. simpl. lia.
    + now injection Hr.
Qed.

Lemma clearLookup_length (a b : list Z) :
  List.length a = List.length b -> clearLookup a = clearLookup b.
Proof.
  unfold clearLookup. revert b. induction a as [| x a IH]; intros [| y b] H;
    try discriminate; [reflexivity |].
  cbn [map]. f_equal. apply IH. now injection H.
Qed.

(** X15. [init] does not depend on what the two arrays held before: it
    overwrites all 256 words and clears all 676 slots before it fills them,
    so from any contents it leaves the same tables, and running it again on
    its own result changes nothing. *)
Theorem init_overwrites (t : tables) :
  List.length (t_words t) = 256%nat ->
  List.length (t_lookupTable t) = 676%nat ->
  init t = Ok initialized /\ init initialized = Ok initialized.
Proof.
  assert (H : forall t', List.length (t_words t') = 256%nat ->
                         List.length (t_lookupTable t') = 676%nat ->
                         init t' = init zeroTables).
  { intros t' Hw Hl. unfold init.
    pose proof (buildWords_overwrites 256 0 [] (t_words t') eq_refl Hw (le_n _)) as E1.
    pose proof (buildWords_overwrites 256 0 [] (t_words zeroTables) eq_refl eq_refl (le_n _)) as E0.
    cbn [app] in E1, E0. fold (upto 256) in E1, E0. rewrite E1, E0.
    now rewrite (clearLookup_length (t_lookupTable t') (t_lookupTable zeroTables)) by (rewrite Hl; reflexivity). }
  intros Hw Hl. split.
  - rewrite (H t Hw Hl). exact init_runs.
  - rewrite (H initialized eq_refl eq_refl). exact init_runs.
Qed.

(** [init] on arrays that hold other words and numbers. *)
Lemma init_overwrites_witness :
  List.length (t_words (mkTables (repeat "zzzz" 256) (repeat 7 676))) = 256%nat
  /\ List.length (t_lookupTable (mkTables (repeat "zzzz" 256) (repeat 7 676))) = 676%nat
  /\ init (mkTables (repeat "zzzz" 256) (repeat 7 676)) = Ok initialized
  /\ init initialized = Ok initialized.
Proof.
  split; [reflexivity |]. split; [reflexivity |].
  exact (init_overwrites (mkTables (repeat "zzzz" 256) (repeat 7 676)) eq_refl eq_refl).
Defined.
